(** * State-Transition-Diagrams: a shallow embedding of the Python package

    The development follows the layout of the repository:

    - [Py]          the fragment of Python the sources rely on (exceptions,
                    [x or y], [str(i)], [round(x, n)]);
    - [Json]        [json.dumps(.., indent=2)] and [json.loads] on the text
                    they write and read;
    - [Config]      [state_transition_diagrams/config.py] ([DiagramConfig]);
    - [Renderer]    [renderer.py] ([render_state_diagram]);
    - [Demo]        [demo/app.py] ([_normalise_rows], [_simulate_training]);
    - [App]         [demo/app.py], the handler of [/api/simulate].

    Numbers.  The sources compute with numpy [float64].  The renderer is
    embedded over exact rationals [Q]: comparisons and the arithmetic of
    finite values are read as the real-number operations they approximate,
    so NaN and the infinities are outside that model.  The helper
    [_normalise_rows] is written once over an interface of arithmetic
    operations and instantiated both at [Q] and at IEEE-754 binary64
    (Rocq's primitive floats), which is what numpy really runs. *)

From Stdlib Require Import ZArith QArith Qround Qminmax Qabs.
From Stdlib Require Import List String Ascii Bool Lia Lqa Arith.
From Stdlib Require Import DecimalString.
From Stdlib Require DecimalNat DecimalPos DecimalZ.
From Stdlib Require Import Sorted.
From Stdlib Require Floats.
Import ListNotations.

(* ================================================================== *)
(** * The Python fragment                                              *)
(* ================================================================== *)

Module Py.

(** The exceptions the embedded code can raise. [NonFinite] is not a Python
    exception: it marks a float64 division by zero, whose result (an
    infinity or NaN) the rational model cannot represent. *)
Inductive exn : Type :=
| ImportError
| ValueError
| IndexError
| ZeroDivisionError
| TypeError
| JSONDecodeError
| NonFinite.

Inductive result (A : Type) : Type :=
| Ok (a : A)
| Raise (e : exn).
Arguments Ok {A} a.
Arguments Raise {A} e.

Definition bind {A B} (m : result A) (k : A -> result B) : result B :=
  match m with
  | Ok a => k a
  | Raise e => Raise e
  end.

Declare Scope py_scope.
Delimit Scope py_scope with py.
Notation "x <- m ;; k" := (bind m (fun x => k))
  (at level 61, m at next level, right associativity) : py_scope.

(** [for x in xs: body] over a state [S], stopping at the first exception. *)
Fixpoint for_ {X S} (xs : list X) (body : X -> S -> result S) (s : S)
  : result S :=
  match xs with
  | [] => Ok s
  | x :: xs' => bind (body x s) (for_ xs' body)
  end.

(** [enumerate(xs)]. *)
Fixpoint enumerate_from {X} (k : nat) (xs : list X) : list (nat * X) :=
  match xs with
  | [] => []
  | x :: xs' => (k, x) :: enumerate_from (S k) xs'
  end.
Definition enumerate {X} (xs : list X) : list (nat * X) := enumerate_from 0 xs.

(** [range(n)]. *)
Definition range (n : nat) : list nat := seq 0 n.

(** [str(i)] for a non-negative [int]: its decimal numeral. *)
Definition str (i : nat) : string := NilEmpty.string_of_uint (Nat.to_uint i).

(** [a or b] on optional strings: [None] and the empty string are falsy. *)
Definition or_str (a : option string) (b : string) : string :=
  match a with
  | Some s => if String.eqb s "" then b else s
  | None => b
  end.

(** [a if a is not None else b]. *)
Definition if_not_none {A} (a : option A) (b : A) : A :=
  match a with
  | Some x => x
  | None => b
  end.

(** ** Rationals standing for finite floats *)

Definition Qltb (x y : Q) : bool := negb (Qle_bool y x).

(** Round half to even, to an integer ([rint]). *)
Definition rint (x : Q) : Z :=
  let f := Qfloor x in
  match ((x - inject_Z f) ?= (1 # 2))%Q with
  | Lt => f
  | Gt => (f + 1)%Z
  | Eq => if Z.even f then f else (f + 1)%Z
  end.

Definition pow10 (n : nat) : Z := (10 ^ Z.of_nat n)%Z.

(** [round(x, n)] of a numpy float: scale by [10**n], [rint], scale back. *)
Definition round_ (x : Q) (n : nat) : Q :=
  (inject_Z (rint (x * inject_Z (pow10 n))) / inject_Z (pow10 n))%Q.

(** Float division; numpy yields inf or NaN on a zero divisor. *)
Definition fdiv (x y : Q) : result Q :=
  if Qeq_bool y 0 then Raise NonFinite else Ok (x / y)%Q.

End Py.

Import Py.
Open Scope py_scope.

(* ================================================================== *)
(** * Python's [json] module, as far as [to_js_config] uses it         *)
(* ================================================================== *)

Module Json.

Local Open Scope string_scope.
Local Open Scope char_scope.
#[local] Set Implicit Arguments.
#[local] Set Warnings "-register-all".

(** ** Characters *)

Definition dquote : ascii := "034".
Definition backslash : ascii := "\".
Definition newline : ascii := "010".

Definition is_digit (c : ascii) : bool :=
  (48 <=? nat_of_ascii c)%nat && (nat_of_ascii c <=? 57)%nat.

(** The four characters the decoder skips as whitespace. *)
Definition is_ws (c : ascii) : bool :=
  Ascii.eqb c " " || Ascii.eqb c "009" || Ascii.eqb c "010"
  || Ascii.eqb c "013".

Fixpoint skip_ws (s : string) : string :=
  match s with
  | String c r => if is_ws c then skip_ws r else s
  | EmptyString => s
  end.

(** A character that may continue a number literal. *)
Definition is_number_char (c : ascii) : bool :=
  is_digit c || Ascii.eqb c "." || Ascii.eqb c "e" || Ascii.eqb c "E"
  || Ascii.eqb c "+" || Ascii.eqb c "-".

(** What follows a number literal: the end of the text or a character
    that cannot continue it. *)
Definition ends_number (rest : string) : bool :=
  match rest with
  | EmptyString => true
  | String c _ => negb (is_number_char c)
  end.

(** No digit follows. *)
Definition no_digit_ahead (rest : string) : Prop :=
  match rest with
  | EmptyString => True
  | String c _ => is_digit c = false
  end.

(** The first character of a value's text: no whitespace, no closing
    bracket. *)
Definition value_head (c : ascii) : Prop :=
  is_ws c = false /\ Ascii.eqb c "]" = false /\ Ascii.eqb c "}" = false.

(** ** Strings: [ensure_ascii] escaping and its decoding *)

Definition hex_digit (n : nat) : ascii :=
  if (n <? 10)%nat then ascii_of_nat (48 + n) else ascii_of_nat (87 + n).

(** The value of a hexadecimal digit of either case. *)
Definition hex_value (c : ascii) : option nat :=
  let n := nat_of_ascii c in
  if (48 <=? n)%nat && (n <=? 57)%nat then Some (n - 48)%nat
  else if (97 <=? n)%nat && (n <=? 102)%nat then Some (n - 87)%nat
  else if (65 <=? n)%nat && (n <=? 70)%nat then Some (n - 55)%nat
  else None.

(** The escape of one character: the short escapes, [\u00xx] for every
    other character outside [' '..'~'], and the character itself
    otherwise. *)
Definition escape_char (c : ascii) : string :=
  let n := nat_of_ascii c in
  if Ascii.eqb c dquote then String backslash (String dquote EmptyString)
  else if Ascii.eqb c backslash then String backslash (String backslash EmptyString)
  else if Ascii.eqb c "010" then String backslash "n"
  else if Ascii.eqb c "013" then String backslash "r"
  else if Ascii.eqb c "009" then String backslash "t"
  else if Ascii.eqb c "008" then String backslash "b"
  else if Ascii.eqb c "012" then String backslash "f"
  else if (n <? 32)%nat || (126 <? n)%nat then
    String backslash
      (String "u" (String "0" (String "0"
         (String (hex_digit (n / 16)) (String (hex_digit (n mod 16))
            EmptyString)))))
  else String c EmptyString.

Fixpoint escape (s : string) : string :=
  match s with
  | EmptyString => EmptyString
  | String c r => escape_char c ++ escape r
  end.

(** [encode_basestring_ascii]: the escaped text between double quotes. *)
Definition quote (s : string) : string :=
  String dquote (escape s ++ String dquote EmptyString).

(** The character a one-letter escape stands for. *)
Definition unescape (e : ascii) : option ascii :=
  if Ascii.eqb e dquote then Some dquote
  else if Ascii.eqb e backslash then Some backslash
  else if Ascii.eqb e "/" then Some "/"
  else if Ascii.eqb e "b" then Some "008"
  else if Ascii.eqb e "f" then Some "012"
  else if Ascii.eqb e "n" then Some "010"
  else if Ascii.eqb e "r" then Some "013"
  else if Ascii.eqb e "t" then Some "009"
  else None.

(** [scanstring] after the opening quote, in strict mode: the decoded
    string and the text after the closing quote.  A [\uXXXX] escape above
    [ÿ] has no counterpart in the 8-bit strings of this model and
    fails. *)
Fixpoint scan_string (s : string) : option (string * string) :=
  match s with
  | EmptyString => None
  | String c r =>
      if Ascii.eqb c dquote then Some (EmptyString, r)
      else if Ascii.eqb c backslash then
        match r with
        | String e r1 =>
            if Ascii.eqb e "u" then
              match r1 with
              | String h1 (String h2 (String h3 (String h4 r2))) =>
                  match hex_value h1, hex_value h2, hex_value h3, hex_value h4 with
                  | Some a, Some b, Some c', Some d =>
                      if ((a =? 0) && (b =? 0))%nat then
                        match scan_string r2 with
                        | Some (str, rest) =>
                            Some (String (ascii_of_nat (16 * c' + d)) str, rest)
                        | None => None
                        end
                      else None
                  | _, _, _, _ => None
                  end
              | _ => None
              end
            else
              match unescape e with
              | Some c' =>
                  match scan_string r1 with
                  | Some (str, rest) => Some (String c' str, rest)
                  | None => None
                  end
              | None => None
              end
        | EmptyString => None
        end
      else if (nat_of_ascii c <? 32)%nat then None
      else
        match scan_string r with
        | Some (str, rest) => Some (String c str, rest)
        | None => None
        end
  end.

(** ** Numbers *)

(** The maximal run of digits at the head of a text. *)
Fixpoint scan_digits (s : string) : string * string :=
  match s with
  | String c r =>
      if is_digit c then let (ds, rest) := scan_digits r in (String c ds, rest)
      else (EmptyString, s)
  | EmptyString => (EmptyString, EmptyString)
  end.

(** The integer part [0|[1-9][0-9]*] of a number literal. *)
Definition scan_int_part (s : string) : option (string * string) :=
  match s with
  | String c r =>
      if Ascii.eqb c "0" then Some (String c EmptyString, r)
      else if is_digit c then Some (scan_digits s)
      else None
  | EmptyString => None
  end.

(** The optional fraction [.[0-9]+]. *)
Definition scan_frac (s : string) : string * string :=
  match s with
  | String c r =>
      if Ascii.eqb c "." then
        match scan_digits r with
        | (EmptyString, _) => (EmptyString, s)
        | (ds, rest) => (String c ds, rest)
        end
      else (EmptyString, s)
  | EmptyString => (EmptyString, s)
  end.

(** The optional exponent [[eE][-+]?[0-9]+]. *)
Definition scan_exp (s : string) : string * string :=
  match s with
  | String c r =>
      if Ascii.eqb c "e" || Ascii.eqb c "E" then
        match r with
        | String sg r1 =>
            if Ascii.eqb sg "+" || Ascii.eqb sg "-" then
              match scan_digits r1 with
              | (EmptyString, _) => (EmptyString, s)
              | (ds, rest) => (String c (String sg ds), rest)
              end
            else
              match scan_digits r with
              | (EmptyString, _) => (EmptyString, s)
              | (ds, rest) => (String c ds, rest)
              end
        | EmptyString => (EmptyString, s)
        end
      else (EmptyString, s)
  | EmptyString => (EmptyString, s)
  end.

(** [NUMBER_RE.match]: the literal at the head of the text, whether it has
    a fraction or an exponent, and the text after it. *)
Definition scan_number (s : string) : option (string * bool * string) :=
  let (sign, s1) :=
    match s with
    | String c r => if Ascii.eqb c "-" then (String c EmptyString, r)
                    else (EmptyString, s)
    | EmptyString => (EmptyString, s)
    end in
  match scan_int_part s1 with
  | Some (ip, s2) =>
      let (frac, s3) := scan_frac s2 in
      let (ex, s4) := scan_exp s3 in
      Some (sign ++ ip ++ frac ++ ex,
            negb (String.eqb frac EmptyString && String.eqb ex EmptyString),
            s4)%string
  | None => None
  end.

(** [int.__repr__] and [int(literal)]. *)
Definition int_repr (z : Z) : string := NilEmpty.string_of_int (Z.to_int z).

Definition int_of_literal (s : string) : option Z :=
  option_map Z.of_int (NilEmpty.int_of_string s).

(** ** Values *)

Section Values.

(** The finite floats, with [float.__repr__] and [float(literal)]. *)
Variable float : Type.
Variable float_repr : float -> string.
Variable float_of_literal : string -> option float.

(** The Python objects [json.dumps] is given and [json.loads] returns. *)
Inductive pyval : Type :=
| PNone
| PBool (b : bool)
| PInt (z : Z)
| PFloat (x : float)
| PStr (s : string)
| PList (l : list pyval)
| PTuple (l : list pyval)
| PDict (items : list (pyval * pyval)).

(** A JSON document. *)
Inductive json : Type :=
| JNull
| JBool (b : bool)
| JInt (z : Z)
| JFloat (x : float)
| JStr (s : string)
| JArr (l : list json)
| JObj (members : list (string * json)).

(** *** Encoding: Python object to document *)

(** A dictionary key: [str] as it is, the other basic types through their
    JSON text, anything else is a [TypeError]. *)
Definition encode_key (k : pyval) : result string :=
  match k with
  | PStr s => Ok s
  | PNone => Ok "null"%string
  | PBool true => Ok "true"%string
  | PBool false => Ok "false"%string
  | PInt z => Ok (int_repr z)
  | PFloat x => Ok (float_repr x)
  | _ => Raise TypeError
  end.

Fixpoint sequence {X} (l : list (result X)) : result (list X) :=
  match l with
  | [] => Ok []
  | r :: l' => x <- r ;; xs <- sequence l' ;; Ok (x :: xs)
  end.

Fixpoint encode (v : pyval) : result json :=
  match v with
  | PNone => Ok JNull
  | PBool b => Ok (JBool b)
  | PInt z => Ok (JInt z)
  | PFloat x => Ok (JFloat x)
  | PStr s => Ok (JStr s)
  | PList l => l' <- sequence (map encode l) ;; Ok (JArr l')
  | PTuple l => l' <- sequence (map encode l) ;; Ok (JArr l')
  | PDict items =>
      ms <- sequence (map (fun kv => match kv with
                                     | (k, v) =>
                                         k' <- encode_key k ;;
                                         v' <- encode v ;;
                                         Ok (k', v')
                                     end) items) ;;
      Ok (JObj ms)
  end.

(** *** Printing with [indent=2] *)

Fixpoint spaces (n : nat) : string :=
  match n with
  | O => EmptyString
  | S n' => String " " (spaces n')
  end.

(** The line break before an item at nesting depth [level]. *)
Definition newline_indent (level : nat) : string :=
  String newline (spaces (2 * level)).

(** The items of a container, one per line, separated by commas. *)
Fixpoint join_items (level : nat) (items : list string) : string :=
  match items with
  | [] => EmptyString
  | [x] => x
  | x :: rest => x ++ String "," (newline_indent level) ++ join_items level rest
  end.

Fixpoint print (level : nat) (j : json) : string :=
  match j with
  | JNull => "null"
  | JBool true => "true"
  | JBool false => "false"
  | JInt z => int_repr z
  | JFloat x => float_repr x
  | JStr s => quote s
  | JArr [] => "[]"
  | JArr l =>
      String "[" (newline_indent (S level) ++
                  join_items (S level) (map (print (S level)) l) ++
                  newline_indent level ++ "]")
  | JObj [] => "{}"
  | JObj ms =>
      String "{" (newline_indent (S level) ++
                  join_items (S level)
                    (map (fun kv => match kv with
                                    | (k, v) => quote k ++ ": " ++ print (S level) v
                                    end) ms) ++
                  newline_indent level ++ "}")
  end%string.

(** The number of values in a document, the measure the parser's fuel is
    compared with. *)
Fixpoint size (j : json) : nat :=
  match j with
  | JArr l => S (fold_right (fun x acc => S (size x + acc)%nat) 0%nat l)
  | JObj ms =>
      S (fold_right (fun kv acc => match kv with
                                   | (_, v) => S (size v + acc)%nat
                                   end) 0%nat ms)
  | _ => 1%nat
  end.

(** [json.dumps(obj, indent=2)]. *)
Definition dumps (obj : pyval) : result string :=
  j <- encode obj ;; Ok (print 0 j).

(** *** Parsing *)

(** [s.startswith(p)]. *)
Fixpoint starts_with (p s : string) : bool :=
  match p with
  | EmptyString => true
  | String a p' =>
      match s with
      | String b s' => Ascii.eqb a b && starts_with p' s'
      | EmptyString => false
      end
  end.

Fixpoint drop (n : nat) (s : string) : string :=
  match n, s with
  | S n', String _ r => drop n' r
  | _, _ => s
  end.

(** A number literal at the head of the text. *)
Definition parse_number (s : string) : option (json * string) :=
  match scan_number s with
  | Some (literal, true, rest) =>
      option_map (fun x => (JFloat x, rest)) (float_of_literal literal)
  | Some (literal, false, rest) =>
      option_map (fun z => (JInt z, rest)) (int_of_literal literal)
  | None => None
  end.

(** [scan_once] with [JSONArray] and [JSONObject]; [fuel] bounds the
    nesting and the number of items. *)
Fixpoint parse_value (fuel : nat) (s : string) : option (json * string) :=
  match fuel with
  | O => None
  | S fuel' =>
      match s with
      | EmptyString => None
      | String c r =>
          if Ascii.eqb c dquote then
            match scan_string r with
            | Some (str, rest) => Some (JStr str, rest)
            | None => None
            end
          else if Ascii.eqb c "{" then
            match skip_ws r with
            | String c1 r1 =>
                if Ascii.eqb c1 "}" then Some (JObj [], r1)
                else
                  match parse_members fuel' (String c1 r1) with
                  | Some (ms, rest) => Some (JObj ms, rest)
                  | None => None
                  end
            | EmptyString => None
            end
          else if Ascii.eqb c "[" then
            match skip_ws r with
            | String c1 r1 =>
                if Ascii.eqb c1 "]" then Some (JArr [], r1)
                else
                  match parse_elements fuel' (String c1 r1) with
                  | Some (l, rest) => Some (JArr l, rest)
                  | None => None
                  end
            | EmptyString => None
            end
          else if starts_with "null" s then Some (JNull, drop 4 s)
          else if starts_with "true" s then Some (JBool true, drop 4 s)
          else if starts_with "false" s then Some (JBool false, drop 5 s)
          else parse_number s
      end
  end
with parse_elements (fuel : nat) (s : string) : option (list json * string) :=
  match fuel with
  | O => None
  | S fuel' =>
      match parse_value fuel' s with
      | Some (v, r) =>
          match skip_ws r with
          | String c r1 =>
              if Ascii.eqb c "]" then Some ([v], r1)
              else if Ascii.eqb c "," then
                match parse_elements fuel' (skip_ws r1) with
                | Some (vs, rest) => Some (v :: vs, rest)
                | None => None
                end
              else None
          | EmptyString => None
          end
      | None => None
      end
  end
with parse_members (fuel : nat) (s : string)
  : option (list (string * json) * string) :=
  match fuel with
  | O => None
  | S fuel' =>
      match s with
      | String c r =>
          if Ascii.eqb c dquote then
            match scan_string r with
            | Some (k, r1) =>
                match skip_ws r1 with
                | String c1 r2 =>
                    if Ascii.eqb c1 ":" then
                      match parse_value fuel' (skip_ws r2) with
                      | Some (v, r3) =>
                          match skip_ws r3 with
                          | String c3 r4 =>
                              if Ascii.eqb c3 "}" then Some ([(k, v)], r4)
                              else if Ascii.eqb c3 "," then
                                match parse_members fuel' (skip_ws r4) with
                                | Some (ms, rest) => Some ((k, v) :: ms, rest)
                                | None => None
                                end
                              else None
                          | EmptyString => None
                          end
                      | None => None
                      end
                    else None
                | EmptyString => None
                end
            | None => None
            end
          else None
      | EmptyString => None
      end
  end.

(** *** Decoding: document to Python object *)

(** [dict(pairs)]: a repeated key keeps its first position and takes the
    last value. *)
Fixpoint dict_set (items : list (pyval * pyval)) (k : string) (v : pyval)
  : list (pyval * pyval) :=
  match items with
  | [] => [(PStr k, v)]
  | (PStr k', v') :: rest =>
      if String.eqb k' k then (PStr k', v) :: rest
      else (PStr k', v') :: dict_set rest k v
  | kv :: rest => kv :: dict_set rest k v
  end.

Definition dict_of_pairs (pairs : list (string * pyval)) : list (pyval * pyval) :=
  fold_left (fun d kv => dict_set d (fst kv) (snd kv)) pairs [].

Fixpoint decode (j : json) : pyval :=
  match j with
  | JNull => PNone
  | JBool b => PBool b
  | JInt z => PInt z
  | JFloat x => PFloat x
  | JStr s => PStr s
  | JArr l => PList (map decode l)
  | JObj ms =>
      PDict (dict_of_pairs
               (map (fun kv => match kv with (k, v) => (k, decode v) end) ms))
  end.

(** [json.loads(text)]: one value between optional whitespace, and
    nothing after it; anything else is a [JSONDecodeError]. *)
Definition loads (text : string) : result pyval :=
  match parse_value (S (String.length text)) (skip_ws text) with
  | Some (j, rest) =>
      match skip_ws rest with
      | EmptyString => Ok (decode j)
      | _ => Raise JSONDecodeError
      end
  | None => Raise JSONDecodeError
  end.

(** [d[key]] on a decoded object. *)
Fixpoint lookup (items : list (pyval * pyval)) (key : string) : option pyval :=
  match items with
  | [] => None
  | (PStr k, v) :: rest => if String.eqb k key then Some v else lookup rest key
  | _ :: rest => lookup rest key
  end.

Definition getitem (obj : pyval) (key : string) : option pyval :=
  match obj with
  | PDict items => lookup items key
  | _ => None
  end.

(** *** Vocabulary of the round-trip proof *)

(** A document is read back: parsing its text, whatever the depth it is
    printed at and whatever follows it, returns the document. *)
Definition reads_back (j : json) : Prop :=
  forall level rest fuel,
    (size j <= fuel)%nat -> ends_number rest = true ->
    parse_value fuel (print level j ++ rest) = Some (j, rest).

Definition esize (l : list json) : nat :=
  fold_right (fun x acc => S (size x + acc)) 0%nat l.

Definition msize (ms : list (string * json)) : nat :=
  fold_right (fun kv acc => match kv with (_, v) => S (size v + acc) end)
             0%nat ms.

Definition member_text (level : nat) (kv : string * json) : string :=
  match kv with (k, v) => quote k ++ ": " ++ print level v end.

(** A decoded member. *)
Definition pair_of (kv : string * pyval) : pyval * pyval :=
  (PStr (fst kv), snd kv).

(** *** The objects JSON represents as they are *)

Fixpoint distinct (keys : list string) : bool :=
  match keys with
  | [] => true
  | k :: rest => negb (existsb (String.eqb k) rest) && distinct rest
  end.

(** The string keys of a dictionary, in order. *)
Definition str_keys (items : list (pyval * pyval)) : list string :=
  flat_map (fun kv => match kv with
                      | (PStr k, _) => [k]
                      | _ => []
                      end) items.

(** [None], booleans, integers, floats, strings, lists of such objects and
    dictionaries from distinct strings to such objects: no tuple, no key
    that is not a string. *)
Fixpoint json_native (v : pyval) : bool :=
  match v with
  | PNone | PBool _ | PInt _ | PFloat _ | PStr _ => true
  | PList l => forallb json_native l
  | PTuple _ => false
  | PDict items =>
      forallb (fun kv => match kv with
                         | (PStr _, v') => json_native v'
                         | _ => false
                         end) items
      && distinct (str_keys items)
  end.

(** A JSON-native object is encoded to a document that decodes to it. *)
Definition encodes_back (v : pyval) : Prop :=
  json_native v = true -> exists j, encode v = Ok j /\ decode j = v.

(** *** What [json.dumps] accepts, and the characters it writes *)

(** A key [json.dumps] accepts: [str], [int], [float], [bool] or [None]. *)
Definition basic_key (k : pyval) : bool :=
  match k with
  | PList _ | PTuple _ | PDict _ => false
  | _ => true
  end.

(** An object all of whose dictionary keys, at every depth, are accepted. *)
Fixpoint serialisable (v : pyval) : bool :=
  match v with
  | PList l => forallb serialisable l
  | PTuple l => forallb serialisable l
  | PDict items =>
      forallb (fun kv => match kv with
                         | (k, v') => basic_key k && serialisable v'
                         end) items
  | _ => true
  end.

(** A line feed or a character from the space to the tilde. *)
Definition printable (c : ascii) : bool :=
  Ascii.eqb c newline
  || ((32 <=? nat_of_ascii c)%nat && (nat_of_ascii c <=? 126)%nat).

Fixpoint ascii_text (s : string) : bool :=
  match s with
  | EmptyString => true
  | String c r => printable c && ascii_text r
  end.

End Values.

(** ** A float type to run the model with *)

(** The float values that the defaults and the tests of the repository
    put into a configuration, each with the text [float.__repr__] gives
    it. *)
Inductive sample_float : Type :=
| f_0_01
| f_0_1
| f_1_0
| f_2_5
| f_3_0
| f_40_0
| f_minus_1_0.

Definition sample_repr (x : sample_float) : string :=
  match x with
  | f_0_01 => "0.01"
  | f_0_1 => "0.1"
  | f_1_0 => "1.0"
  | f_2_5 => "2.5"
  | f_3_0 => "3.0"
  | f_40_0 => "40.0"
  | f_minus_1_0 => "-1.0"
  end.

Definition sample_of_literal (s : string) : option sample_float :=
  if String.eqb s "0.01" then Some f_0_01
  else if String.eqb s "0.1" then Some f_0_1
  else if String.eqb s "1.0" then Some f_1_0
  else if String.eqb s "2.5" then Some f_2_5
  else if String.eqb s "3.0" then Some f_3_0
  else if String.eqb s "40.0" then Some f_40_0
  else if String.eqb s "-1.0" then Some f_minus_1_0
  else None.

(** The float literals of [config.py] among them. *)
Definition sample_lit (q : Q) : sample_float :=
  if Qeq_bool q (1 # 100) then f_0_01
  else if Qeq_bool q 40 then f_40_0
  else f_1_0.

Arguments PNone {float}.
Arguments PBool {float} b.
Arguments PInt {float} z.
Arguments PStr {float} s.
Arguments JNull {float}.
Arguments JBool {float} b.
Arguments JInt {float} z.
Arguments JStr {float} s.

End Json.

(* ================================================================== *)
(** * config.py                                                        *)
(* ================================================================== *)

Module Config.

Local Open Scope string_scope.
#[local] Set Implicit Arguments.

(** One entry of [interactive_state_colors] as the defaults build it:
    [{"base": .., "light": .., "dark": .., "grad": [.., ..]}]. *)
Record palette_entry : Type := mk_entry {
  base : string;
  light : string;
  dark : string;
  grad : list string
}.

Section DiagramConfig.

(** [float] is the type of the float fields; [lit] reads a float literal
    of the source. *)
Variable float : Type.
Variable lit : Q -> float.

Abbreviation pyval := (Json.pyval float).

(** The dictionary of one default palette entry. *)
Definition entry_dict (e : palette_entry) : pyval :=
  Json.PDict [ (Json.PStr "base", Json.PStr (base e));
               (Json.PStr "light", Json.PStr (light e));
               (Json.PStr "dark", Json.PStr (dark e));
               (Json.PStr "grad", Json.PList (map (@Json.PStr float) (grad e))) ].

Record DiagramConfig : Type := {
  state_colors : list string;
  observation_fill : string;
  observation_stroke : string;
  observation_text : string;
  start_fill : string;
  start_stroke : string;
  start_text : string;
  background_color : string;
  font_family : string;
  mono_font_family : string;
  title : string;
  prob_threshold : float;
  edge_color : string;
  node_shape : string;
  node_radius : float;
  layout_engine : string;
  output_format : string;
  particles_enabled : bool;
  decongestion_enabled : bool;
  animation_speed : float;
  interactive_state_colors : list pyval
}.

(** The keyword arguments of the generated [__init__]: every field may
    be given or left to its default. *)
Record kwargs : Type := {
  kw_state_colors : option (list string);
  kw_observation_fill : option string;
  kw_observation_stroke : option string;
  kw_observation_text : option string;
  kw_start_fill : option string;
  kw_start_stroke : option string;
  kw_start_text : option string;
  kw_background_color : option string;
  kw_font_family : option string;
  kw_mono_font_family : option string;
  kw_title : option string;
  kw_prob_threshold : option float;
  kw_edge_color : option string;
  kw_node_shape : option string;
  kw_node_radius : option float;
  kw_layout_engine : option string;
  kw_output_format : option string;
  kw_particles_enabled : option bool;
  kw_decongestion_enabled : option bool;
  kw_animation_speed : option float;
  kw_interactive_state_colors : option (list pyval)
}.

Definition no_kwargs : kwargs :=
  Build_kwargs None None None None None None None None None None None
               None None None None None None None None None None.

Definition default_state_colors : list string :=
  ["#2E86AB"; "#A23B72"; "#F18F01"; "#2CA58D";
   "#E84855"; "#6B4226"; "#7768AE"; "#1B998B"]%string.

Definition default_interactive_state_colors : list palette_entry :=
  [ mk_entry "#F59E0B" "#FDE68A" "#92400E" ["#FBBF24"; "#D97706"];
    mk_entry "#3B82F6" "#93C5FD" "#1E3A8A" ["#60A5FA"; "#2563EB"];
    mk_entry "#10B981" "#6EE7B7" "#064E3B" ["#34D399"; "#059669"];
    mk_entry "#F43F5E" "#FDA4AF" "#881337" ["#FB7185"; "#E11D48"];
    mk_entry "#8B5CF6" "#C4B5FD" "#4C1D95" ["#A78BFA"; "#7C3AED"];
    mk_entry "#06B6D4" "#67E8F9" "#155E75" ["#22D3EE"; "#0891B2"];
    mk_entry "#EC4899" "#F9A8D4" "#831843" ["#F472B6"; "#DB2777"];
    mk_entry "#14B8A6" "#5EEAD4" "#134E4A" ["#2DD4BF"; "#0D9488"];
    mk_entry "#F97316" "#FDBA74" "#7C2D12" ["#FB923C"; "#EA580C"];
    mk_entry "#6366F1" "#A5B4FC" "#3730A3" ["#818CF8"; "#4F46E5"];
    mk_entry "#84CC16" "#BEF264" "#3F6212" ["#A3E635"; "#65A30D"];
    mk_entry "#E879F9" "#F0ABFC" "#701A75" ["#D946EF"; "#C026D3"] ]%string.

(** The [__init__] that [@dataclass] generates: each field takes the
    keyword argument when given and its default otherwise.  The class
    defines no [__post_init__], so nothing is checked and the only
    outcome is the constructed object. *)
Definition __init__ (kw : kwargs) : result DiagramConfig :=
  Ok {|
    state_colors := if_not_none (kw_state_colors kw) default_state_colors;
    observation_fill := if_not_none (kw_observation_fill kw) "#F1F5F9";
    observation_stroke := if_not_none (kw_observation_stroke kw) "#94A3B8";
    observation_text := if_not_none (kw_observation_text kw) "#334155";
    start_fill := if_not_none (kw_start_fill kw) "#F5F3FF";
    start_stroke := if_not_none (kw_start_stroke kw) "#8B5CF6";
    start_text := if_not_none (kw_start_text kw) "#5B21B6";
    background_color := if_not_none (kw_background_color kw) "#FAFAFA";
    font_family := if_not_none (kw_font_family kw) "Helvetica";
    mono_font_family :=
      if_not_none (kw_mono_font_family kw) "JetBrains Mono, monospace";
    title := if_not_none (kw_title kw) "State Transition Diagram";
    prob_threshold := if_not_none (kw_prob_threshold kw) (lit (1 # 100));
    edge_color := if_not_none (kw_edge_color kw) "#333333";
    node_shape := if_not_none (kw_node_shape kw) "circle";
    node_radius := if_not_none (kw_node_radius kw) (lit 40);
    layout_engine := if_not_none (kw_layout_engine kw) "circo";
    output_format := if_not_none (kw_output_format kw) "svg";
    particles_enabled := if_not_none (kw_particles_enabled kw) true;
    decongestion_enabled := if_not_none (kw_decongestion_enabled kw) false;
    animation_speed := if_not_none (kw_animation_speed kw) (lit 1);
    interactive_state_colors :=
      if_not_none (kw_interactive_state_colors kw)
                  (map entry_dict default_interactive_state_colors)
  |}.

(** [DiagramConfig()]. *)
Definition default_config : DiagramConfig :=
  match __init__ no_kwargs with
  | Ok c => c
  | Raise _ =>
      Build_DiagramConfig [] "" "" "" "" "" "" "" "" "" "" (lit 0) "" ""
        (lit 0) "" "" false false (lit 0) []
  end.

(** [float.__repr__], which [json.dumps] prints floats with. *)
Variable float_repr : float -> string.

(** [to_js_config(self)]: the dictionary the method builds, and its
    serialisation with [json.dumps(.., indent=2)]. *)
Definition js_config_dict (self : DiagramConfig) : pyval :=
  Json.PDict
    [ (Json.PStr "stateColors", Json.PList (interactive_state_colors self));
      (Json.PStr "obsColor",
       Json.PDict [ (Json.PStr "fill", Json.PStr (observation_fill self));
                    (Json.PStr "stroke", Json.PStr (observation_stroke self));
                    (Json.PStr "dark", Json.PStr (observation_text self)) ]);
      (Json.PStr "piColor",
       Json.PDict [ (Json.PStr "fill", Json.PStr (start_fill self));
                    (Json.PStr "stroke", Json.PStr (start_stroke self));
                    (Json.PStr "dark", Json.PStr (start_text self)) ]);
      (Json.PStr "particlesEnabled", Json.PBool (particles_enabled self));
      (Json.PStr "decongestionEnabled", Json.PBool (decongestion_enabled self));
      (Json.PStr "animationSpeed", Json.PFloat (animation_speed self));
      (Json.PStr "fontFamily", Json.PStr (font_family self));
      (Json.PStr "monoFontFamily", Json.PStr (mono_font_family self)) ].

Definition to_js_config (self : DiagramConfig) : result string :=
  Json.dumps float_repr (js_config_dict self).

End DiagramConfig.

(** ** Configurations used in the examples *)

(** [DiagramConfig(prob_threshold=2.0, animation_speed=-1.0)]. *)
Definition invalid_kwargs : kwargs Q :=
  {| kw_state_colors := None; kw_observation_fill := None;
     kw_observation_stroke := None; kw_observation_text := None;
     kw_start_fill := None; kw_start_stroke := None; kw_start_text := None;
     kw_background_color := None; kw_font_family := None;
     kw_mono_font_family := None; kw_title := None;
     kw_prob_threshold := Some 2%Q; kw_edge_color := None;
     kw_node_shape := None; kw_node_radius := None;
     kw_layout_engine := None; kw_output_format := None;
     kw_particles_enabled := None; kw_decongestion_enabled := None;
     kw_animation_speed := Some (- (1))%Q;
     kw_interactive_state_colors := None |}.

(** [DiagramConfig(state_colors=["#AA0000", "#00BB00"])]. *)
Definition two_colors_kwargs : kwargs Q :=
  {| kw_state_colors := Some ["#AA0000"; "#00BB00"];
     kw_observation_fill := None;
     kw_observation_stroke := None; kw_observation_text := None;
     kw_start_fill := None; kw_start_stroke := None; kw_start_text := None;
     kw_background_color := None; kw_font_family := None;
     kw_mono_font_family := None; kw_title := None;
     kw_prob_threshold := None; kw_edge_color := None;
     kw_node_shape := None; kw_node_radius := None;
     kw_layout_engine := None; kw_output_format := None;
     kw_particles_enabled := None; kw_decongestion_enabled := None;
     kw_animation_speed := None;
     kw_interactive_state_colors := None |}.

Definition two_colors : DiagramConfig Q :=
  match __init__ (fun q : Q => q) two_colors_kwargs with
  | Ok c => c
  | Raise _ => default_config (fun q : Q => q)
  end.

(** [DiagramConfig(state_colors=[])]. *)
Definition no_colors_kwargs : kwargs Q :=
  {| kw_state_colors := Some [];
     kw_observation_fill := None;
     kw_observation_stroke := None; kw_observation_text := None;
     kw_start_fill := None; kw_start_stroke := None; kw_start_text := None;
     kw_background_color := None; kw_font_family := None;
     kw_mono_font_family := None; kw_title := None;
     kw_prob_threshold := None; kw_edge_color := None;
     kw_node_shape := None; kw_node_radius := None;
     kw_layout_engine := None; kw_output_format := None;
     kw_particles_enabled := None; kw_decongestion_enabled := None;
     kw_animation_speed := None;
     kw_interactive_state_colors := None |}.

Definition no_colors : DiagramConfig Q :=
  match __init__ (fun q : Q => q) no_colors_kwargs with
  | Ok c => c
  | Raise _ => default_config (fun q : Q => q)
  end.

(** [DiagramConfig(particles_enabled=False, decongestion_enabled=True,
    animation_speed=3.0, interactive_state_colors=[{"base": "#F59E0B",
    "grad": ("#FBBF24", "#D97706")}])]: the gradient is a tuple. *)
Definition tuple_kwargs : kwargs Json.sample_float :=
  {| kw_state_colors := None; kw_observation_fill := None;
     kw_observation_stroke := None; kw_observation_text := None;
     kw_start_fill := None; kw_start_stroke := None; kw_start_text := None;
     kw_background_color := None; kw_font_family := None;
     kw_mono_font_family := None; kw_title := None;
     kw_prob_threshold := None; kw_edge_color := None;
     kw_node_shape := None; kw_node_radius := None;
     kw_layout_engine := None; kw_output_format := None;
     kw_particles_enabled := Some false;
     kw_decongestion_enabled := Some true;
     kw_animation_speed := Some Json.f_3_0;
     kw_interactive_state_colors :=
       Some [Json.PDict
               [ (Json.PStr "base", Json.PStr "#F59E0B");
                 (Json.PStr "grad",
                  Json.PTuple [Json.PStr "#FBBF24"; Json.PStr "#D97706"]) ]]
  |}.

Definition tuple_config : DiagramConfig Json.sample_float :=
  match __init__ Json.sample_lit tuple_kwargs with
  | Ok c => c
  | Raise _ => default_config Json.sample_lit
  end.

(** [DiagramConfig(interactive_state_colors=[{("base", 0): "#F59E0B"}])]:
    a key that is a tuple. *)
Definition tuple_key_kwargs : kwargs Json.sample_float :=
  {| kw_state_colors := None; kw_observation_fill := None;
     kw_observation_stroke := None; kw_observation_text := None;
     kw_start_fill := None; kw_start_stroke := None; kw_start_text := None;
     kw_background_color := None; kw_font_family := None;
     kw_mono_font_family := None; kw_title := None;
     kw_prob_threshold := None; kw_edge_color := None;
     kw_node_shape := None; kw_node_radius := None;
     kw_layout_engine := None; kw_output_format := None;
     kw_particles_enabled := None; kw_decongestion_enabled := None;
     kw_animation_speed := None;
     kw_interactive_state_colors :=
       Some [Json.PDict
               [ (Json.PTuple [Json.PStr "base"; Json.PInt 0],
                  Json.PStr "#F59E0B") ]]
  |}.

Definition tuple_key_config : DiagramConfig Json.sample_float :=
  match __init__ Json.sample_lit tuple_key_kwargs with
  | Ok c => c
  | Raise _ => default_config Json.sample_lit
  end.

End Config.

(* ================================================================== *)
(** * renderer.py                                                      *)
(* ================================================================== *)

Module Renderer.

Local Open Scope string_scope.
#[local] Set Implicit Arguments.
Local Open Scope Q_scope.

(** A two-dimensional [ndarray]: the list of its rows. *)
Definition matrix : Type := list (list Q).

(** [A.shape[0]]. *)
Definition shape0 (A : matrix) : nat := List.length A.

(** [A[i, j]]; out of bounds raises [IndexError]. *)
Definition getitem (A : matrix) (i j : nat) : result Q :=
  match nth_error A i with
  | Some row =>
      match nth_error row j with
      | Some p => Ok p
      | None => Raise IndexError
      end
  | None => Raise IndexError
  end.

(** [A.max()]: the largest entry; a zero-size array raises [ValueError]. *)
Definition amax (A : matrix) : result Q :=
  match List.concat A with
  | [] => Raise ValueError
  | x :: xs => Ok (fold_left Qmax xs x)
  end.

(** ** The [graphviz.Digraph] being built *)

Record node_stmt : Type := {
  n_name : string;
  n_label : string;
  n_shape : string;
  n_style : string;
  n_fillcolor : string;
  n_fontcolor : string;
  n_fontsize : string;
  n_fontname : string;
  n_width : string;
  n_height : string;
  n_fixedsize : string
}.

(** [e_label] holds the weight rounded to three decimals (the source prints
    it with ["{p:.3f}"]) and [e_penwidth] the number whose [str] the source
    passes on. *)
Record edge_stmt : Type := {
  e_tail : string;
  e_head : string;
  e_label : Q;
  e_penwidth : Q;
  e_fontsize : string;
  e_fontname : string;
  e_color : string;
  e_fontcolor : string
}.

Inductive stmt : Type :=
| GraphAttr (attrs : list (string * string))
| Node (n : node_stmt)
| Edge (e : edge_stmt).

Record Digraph : Type := {
  g_name : string;
  g_comment : string;
  g_format : string;
  g_engine : string;
  g_body : list stmt
}.

(** What the renderer relies on of the imported [graphviz] package: the
    checks [graphviz.Digraph] makes of the engine and the format it is
    given. *)
Record graphviz_module : Type := {
  verify_engine : string -> bool;
  verify_format : string -> bool
}.

(** [dot.attr(..)], [dot.node(..)], [dot.edge(..)]: each appends one
    statement to the body. *)
Definition append (dot : Digraph) (s : stmt) : Digraph :=
  {| g_name := g_name dot; g_comment := g_comment dot;
     g_format := g_format dot; g_engine := g_engine dot;
     g_body := (g_body dot ++ [s])%list |}.

Definition nodes (dot : Digraph) : list node_stmt :=
  flat_map (fun s => match s with Node n => [n] | _ => [] end) (g_body dot).

Definition edges (dot : Digraph) : list edge_stmt :=
  flat_map (fun s => match s with Edge e => [e] | _ => [] end) (g_body dot).

Definition DiagramConfig : Type := Config.DiagramConfig Q.

(** [DiagramConfig()], the float literals read as rationals. *)
Definition default_config : DiagramConfig :=
  Config.default_config (fun q : Q => q).

(** [config.state_colors[i % len(config.state_colors)]]. *)
Definition palette_color (config : DiagramConfig) (i : nat) : result string :=
  let palette := Config.state_colors config in
  match List.length palette with
  | O => Raise ZeroDivisionError
  | P =>
      match nth_error palette (i mod P) with
      | Some c => Ok c
      | None => Raise IndexError
      end
  end.

(** [str(round(0.5 + 3.5 * (p / max_prob), 2))], before [str]. *)
Definition penwidth (p max_prob : Q) : result Q :=
  r <- fdiv p max_prob ;;
  Ok (round_ ((1 # 2) + (7 # 2) * r) 2).

(** The body of the inner loop at [(i, j)]. *)
Definition edge_step (A : matrix) (config : DiagramConfig)
           (prob_threshold max_prob : Q) (i j : nat) (dot : Digraph)
  : result Digraph :=
  p <- getitem A i j ;;
  if Qltb p prob_threshold then Ok dot
  else
    w <- penwidth p max_prob ;;
    edge_color <-
      (if Nat.eqb i j then palette_color config i
       else Ok (Config.edge_color config)) ;;
    Ok (append dot (Edge {|
      e_tail := str i;
      e_head := str j;
      e_label := round_ p 3;
      e_penwidth := w;
      e_fontsize := "10";
      e_fontname := Config.font_family config;
      e_color := edge_color;
      e_fontcolor := edge_color
    |})).

(** The body of the node loop at [(i, label)]. *)
Definition node_step (config : DiagramConfig) (il : nat * string)
           (dot : Digraph) : result Digraph :=
  let (i, label) := il in
  color <- palette_color config i ;;
  Ok (append dot (Node {|
    n_name := str i;
    n_label := label;
    n_shape := Config.node_shape config;
    n_style := "filled";
    n_fillcolor := color;
    n_fontcolor := "white";
    n_fontsize := "14";
    n_fontname := Config.font_family config ++ " Bold";
    n_width := "1.0";
    n_height := "1.0";
    n_fixedsize := "true"
  |})).

(** [max_prob = A.max() if A.max() > 0 else 1.0]. *)
Definition max_prob_of (A : matrix) : result Q :=
  c <- amax A ;;
  if Qltb 0 c then amax A else Ok 1.

(** [config = DiagramConfig()] when [config is None]. *)
Definition resolve_config (config : option DiagramConfig) : DiagramConfig :=
  if_not_none config default_config.

(** [prob_threshold if prob_threshold is not None else config.prob_threshold]. *)
Definition resolve_threshold (config : DiagramConfig)
           (prob_threshold : option Q) : Q :=
  if_not_none prob_threshold (Config.prob_threshold config).

(** [state_labels], defaulting to [S0, S1, ...]. *)
Definition resolve_labels (A : matrix) (state_labels : option (list string))
  : list string :=
  if_not_none state_labels (map (fun i => "S" ++ str i) (range (shape0 A))).

(** [graphviz.Digraph(name=.., comment=.., format=.., engine=..)]: the
    package raises [ValueError] on an engine or a format it does not
    know. *)
Definition Digraph_init (gv : graphviz_module)
           (name comment format engine : string) : result Digraph :=
  if verify_engine gv engine && verify_format gv format then
    Ok {| g_name := name; g_comment := comment; g_format := format;
          g_engine := engine; g_body := [] |}
  else Raise ValueError.

(** The statement [dot.attr(rankdir=.., ..)] adds. *)
Definition graph_attrs (config : DiagramConfig) (title : string) : stmt :=
  GraphAttr
    [("rankdir", "LR");
     ("bgcolor", Config.background_color config);
     ("label", title);
     ("labelloc", "t");
     ("fontsize", "18");
     ("fontname", Config.font_family config);
     ("pad", "0.5")].

(** [render_state_diagram(A, state_labels=.., config=.., fmt=..,
    title=.., prob_threshold=..)] with [save_path=None].  [graphviz] is
    the module the guarded [import graphviz] bound, [None] when the import
    failed. *)
Definition render_state_diagram
           (graphviz : option graphviz_module)
           (A : matrix)
           (state_labels : option (list string))
           (config : option DiagramConfig)
           (fmt title : option string)
           (prob_threshold : option Q) : result Digraph :=
  match graphviz with
  | None => Raise ImportError
  | Some gv =>
      let config := resolve_config config in
      let fmt := or_str fmt (Config.output_format config) in
      let title := or_str title (Config.title config) in
      let prob_threshold := resolve_threshold config prob_threshold in
      let N := shape0 A in
      let state_labels := resolve_labels A state_labels in
      dot <- Digraph_init gv "StateDiagram" title fmt
               (Config.layout_engine config) ;;
      let dot := append dot (graph_attrs config title) in
      dot <- for_ (enumerate state_labels) (node_step config) dot ;;
      max_prob <- max_prob_of A ;;
      dot <- for_ (range N)
               (fun i => for_ (range N)
                  (edge_step A config prob_threshold max_prob i)) dot ;;
      Ok dot
  end.

(** ** Vocabulary for the statements about the renderer *)

(** A transition matrix is square: every row has [shape0 A] entries. *)
Definition square (A : matrix) : Prop :=
  Forall (fun row => List.length row = shape0 A) A.

(** The entry [A[i, j]] of an index in range. *)
Definition entry (A : matrix) (i j : nat) : Q := nth j (nth i A []) 0.

(** The palette colour of state [i], cycling through the palette. *)
Definition color_at (config : DiagramConfig) (i : nat) : string :=
  nth (i mod List.length (Config.state_colors config))
      (Config.state_colors config) "".

(** The pen width before and after [round(_, 2)]. *)
Definition raw_width (p max_prob : Q) : Q := (1 # 2) + (7 # 2) * (p / max_prob).
Definition width (p max_prob : Q) : Q := round_ (raw_width p max_prob) 2.

(** The edge the inner loop emits at [(i, j)] when it does not skip it. *)
Definition edge_of (A : matrix) (config : DiagramConfig) (max_prob : Q)
           (i j : nat) : edge_stmt :=
{| e_tail := str i;
   e_head := str j;
   e_label := round_ (entry A i j) 3;
   e_penwidth := width (entry A i j) max_prob;
   e_fontsize := "10";
   e_fontname := Config.font_family config;
   e_color := if Nat.eqb i j then color_at config i
              else Config.edge_color config;
   e_fontcolor := if Nat.eqb i j then color_at config i
                  else Config.edge_color config |}.

(** The test of the inner loop: the edge is kept unless [p < threshold]. *)
Definition drawn (A : matrix) (threshold : Q) (ij : nat * nat) : bool :=
  negb (Qltb (entry A (fst ij) (snd ij)) threshold).

(** All index pairs of an [N]-state matrix in the order the two nested
    loops visit them: source ascending, then target ascending. *)
Definition index_pairs (N : nat) : list (nat * nat) :=
  list_prod (range N) (range N).

(** The node the first loop emits for [(i, label)]. *)
Definition node_of (config : DiagramConfig) (il : nat * string) : node_stmt :=
{| n_name := str (fst il);
   n_label := snd il;
   n_shape := Config.node_shape config;
   n_style := "filled";
   n_fillcolor := color_at config (fst il);
   n_fontcolor := "white";
   n_fontsize := "14";
   n_fontname := Config.font_family config ++ " Bold";
   n_width := "1.0";
   n_height := "1.0";
   n_fixedsize := "true" |}.

(** The edges the nested loops emit: the kept index pairs, in loop order. *)
Definition edge_list (A : matrix) (config : DiagramConfig) (t mp : Q)
  : list edge_stmt :=
  map (fun ij => edge_of A config mp (fst ij) (snd ij))
      (filter (drawn A t) (index_pairs (shape0 A))).

(** What identifies a drawn edge apart from its colours: end points, label
    and pen width. *)
Definition edge_key (e : edge_stmt) : string * string * Q * Q :=
  (e_tail e, e_head e, e_label e, e_penwidth e).

(** The same configuration with [decongestion_enabled] set to [b]. *)
Definition with_decongestion (b : bool) (c : DiagramConfig) : DiagramConfig :=
{| Config.state_colors := Config.state_colors c;
   Config.observation_fill := Config.observation_fill c;
   Config.observation_stroke := Config.observation_stroke c;
   Config.observation_text := Config.observation_text c;
   Config.start_fill := Config.start_fill c;
   Config.start_stroke := Config.start_stroke c;
   Config.start_text := Config.start_text c;
   Config.background_color := Config.background_color c;
   Config.font_family := Config.font_family c;
   Config.mono_font_family := Config.mono_font_family c;
   Config.title := Config.title c;
   Config.prob_threshold := Config.prob_threshold c;
   Config.edge_color := Config.edge_color c;
   Config.node_shape := Config.node_shape c;
   Config.node_radius := Config.node_radius c;
   Config.layout_engine := Config.layout_engine c;
   Config.output_format := Config.output_format c;
   Config.particles_enabled := Config.particles_enabled c;
   Config.decongestion_enabled := b;
   Config.animation_speed := Config.animation_speed c;
   Config.interactive_state_colors := Config.interactive_state_colors c |}.

(** The call is well configured: the palette is not empty, and graphviz
    accepts the layout engine and the output format. *)
Definition well_configured (gv : graphviz_module)
           (config : option DiagramConfig) (fmt : option string) : Prop :=
  Config.state_colors (resolve_config config) <> [] /\
  verify_engine gv (Config.layout_engine (resolve_config config)) = true /\
  verify_format gv (or_str fmt (Config.output_format (resolve_config config)))
  = true.

(** Strict lexicographic order on index pairs. *)
Definition lex_lt (a b : nat * nat) : Prop :=
  (fst a < fst b)%nat \/ (fst a = fst b /\ (snd a < snd b)%nat).

(** The engines of Graphviz and the formats the repository mentions. *)
Definition graphviz_std : graphviz_module :=
{| verify_engine := fun e =>
     existsb (String.eqb e)
       ["dot"; "neato"; "twopi"; "circo"; "fdp"; "sfdp"; "patchwork"; "osage"];
   verify_format := fun f => existsb (String.eqb f) ["svg"; "png"; "pdf"] |}.

(** [np.zeros((n, n))]. *)
Definition zeros (n : nat) : matrix := repeat (repeat 0 n) n.

(** The matrices of the scenarios. *)
Definition simple_A : matrix := [[7 # 10; 3 # 10]; [4 # 10; 6 # 10]].
Definition sticky_A : matrix := [[95 # 100; 5 # 100]; [2 # 100; 98 # 100]].
Definition eye3 : matrix := [[1; 0; 0]; [0; 1; 0]; [0; 0; 1]].
Definition eye5 : matrix :=
  [[1; 0; 0; 0; 0]; [0; 1; 0; 0; 0]; [0; 0; 1; 0; 0];
   [0; 0; 0; 1; 0]; [0; 0; 0; 0; 1]].

(** The graph after several statements were appended. *)
Definition extend (dot : Digraph) (l : list stmt) : Digraph :=
{| g_name := g_name dot; g_comment := g_comment dot;
   g_format := g_format dot; g_engine := g_engine dot;
   g_body := (g_body dot ++ l)%list |}.

(** ** Arrays that are not square *)

(** An array of shape [(shape0 A, M)]. *)
Definition columns (M : nat) (A : matrix) : Prop :=
  Forall (fun row => List.length row = M) A.

(** Every row reaches at least as far as the row count: the two loops
    stay inside the array. *)
Definition wide (A : matrix) : Prop :=
  Forall (fun row => (shape0 A <= List.length row)%nat) A.

(** The end points of the edges, in the order they were added. *)
Definition edge_ends (dot : Digraph) : list (string * string) :=
  map (fun e => (e_tail e, e_head e)) (edges dot).

(** The end points that stand for the index pair [(i, j)]. *)
Definition ends_of (ij : nat * nat) : string * string :=
  (str (fst ij), str (snd ij)).

Definition tall_A : matrix := [[1 # 2; 1 # 2]; [1 # 4; 3 # 4]; [1; 0]].

End Renderer.

(** The expression under [round] as float64 evaluates it, and two weights
    it cannot tell apart. *)
Module RendererBinary64.

Import PrimFloat.

Definition half : float := 0x1p-1%float.

(** [0.5 + 3.5 * (p / max_prob)]. *)
Definition raw_width (p max_prob : float) : float :=
  add half (mul 0x1.cp+1%float (div p max_prob)).

(** The doubles nearest to [1e-300] and [2e-300]. *)
Definition tiny : float := 0x1.56e1fc2f8f359p-997%float.
Definition twice_tiny : float := 0x1.56e1fc2f8f359p-996%float.

End RendererBinary64.

(* ================================================================== *)
(** * demo/app.py                                                      *)
(* ================================================================== *)

Module Demo.

#[local] Set Implicit Arguments.

(** ** The arithmetic the helpers need, written once for every number type *)

Class Arith (F : Type) : Type := {
  zero : F;
  one : F;
  add : F -> F -> F;
  sub : F -> F -> F;
  mul : F -> F -> F;
  div : F -> F -> F;
  eqb : F -> F -> bool;
  ltb : F -> F -> bool;
  of_int : Z -> F;
  lit : Q -> F
}.

(** Exact rational arithmetic. *)
#[export] Instance Arith_Q : Arith Q := {|
  zero := 0%Q;
  one := 1%Q;
  add := Qplus;
  sub := Qminus;
  mul := Qmult;
  div := Qdiv;
  eqb := Qeq_bool;
  ltb := Qltb;
  of_int := inject_Z;
  lit := fun q => q
|}.

(** IEEE-754 binary64, the arithmetic of numpy's [float64].  A decimal
    literal denotes the double nearest to it, which the correctly rounded
    quotient of its (small) numerator and denominator also is. *)
Definition float_of_int (z : Z) : PrimFloat.float :=
  match z with
  | Z0 => PrimFloat.zero
  | Zpos _ => PrimFloat.of_uint63 (Uint63.of_Z z)
  | Zneg p => PrimFloat.opp (PrimFloat.of_uint63 (Uint63.of_Z (Zpos p)))
  end.

#[export] Instance Arith_float64 : Arith PrimFloat.float := {|
  zero := PrimFloat.zero;
  one := PrimFloat.one;
  add := PrimFloat.add;
  sub := PrimFloat.sub;
  mul := PrimFloat.mul;
  div := PrimFloat.div;
  eqb := PrimFloat.eqb;
  ltb := PrimFloat.ltb;
  of_int := float_of_int;
  lit := fun q => PrimFloat.div (float_of_int (Qnum q))
                                (float_of_int (Zpos (Qden q)))
|}.

Section Helpers.

Context {F : Type} {arith : Arith F}.

(** The sum of a vector, accumulated left to right from zero (numpy adds a
    short row in this order). *)
Definition vsum (v : list F) : F := fold_left add v zero.

(** [matrix.sum(axis=1, keepdims=True)]: one sum per row. *)
Definition row_sums (matrix : list (list F)) : list F := map vsum matrix.

(** [sums[sums == 0] = 1.0]. *)
Definition replace_zero (sums : list F) : list F :=
  map (fun s => if eqb s zero then one else s) sums.

(** Pairing two sequences entry by entry. *)
Fixpoint map2 {X Y Z' : Type} (f : X -> Y -> Z') (xs : list X) (ys : list Y)
  : list Z' :=
  match xs, ys with
  | x :: xs', y :: ys' => f x y :: map2 f xs' ys'
  | _, _ => []
  end.

(** [matrix / sums], the column of sums broadcast along each row. *)
Definition div_rows (matrix : list (list F)) (sums : list F)
  : list (list F) :=
  map2 (fun row s => map (fun x => div x s) row) matrix sums.

(** [_normalise_rows(matrix)]. *)
Definition _normalise_rows (matrix : list (list F)) : list (list F) :=
  let sums := row_sums matrix in
  let sums := replace_zero sums in
  div_rows matrix sums.

(** Elementwise helpers on vectors and matrices. *)
Definition vscale (c : F) (v : list F) : list F := map (mul c) v.
Definition vadd (u v : list F) : list F := map2 add u v.
Definition mscale (c : F) (m : list (list F)) : list (list F) :=
  map (vscale c) m.
Definition madd (m n : list (list F)) : list (list F) := map2 vadd m n.

(** [x.clip(lo, hi)] and [np.clip(x, lo, None)] on one entry. *)
Definition clip_lo (lo x : F) : F := if ltb x lo then lo else x.
Definition clip_hi (hi x : F) : F := if ltb hi x then hi else x.
Definition clip (lo hi x : F) : F := clip_hi hi (clip_lo lo x).

(** [np.ones(n)]. *)
Definition ones (n : nat) : list F := repeat one n.

(** [m.shape] of a matrix and of a vector. *)
Definition shape2 (m : list (list F)) : nat * nat :=
  (List.length m, List.length (hd [] m)).

End Helpers.

(** ** The simulated training run *)

(** One element of the list [_simulate_training] returns. *)
Record iteration_record (F : Type) : Type := {
  it_A : list (list F);
  it_B : list (list F);
  it_pi : list F;
  it_iteration : Z;
  it_log_likelihood : F
}.

(** [range(a, b)] over Python integers. *)
Definition range_from (a b : Z) : list Z :=
  map (fun k => (a + Z.of_nat k)%Z) (seq 0 (Z.to_nat (b - a))).

Section Simulate.

Context {F : Type} {arith : Arith F}.

(** numpy's [exp], Python's [round(x, n)], and the random generator with
    the draws the simulation makes; each draw returns the advanced
    generator. *)
Variable exp : F -> F.
Variable round_ndigits : F -> nat -> F.
Variable rng : Type.
Variable default_rng : option Z -> rng.
Variable dirichlet : list F -> rng -> list F * rng.
Variable dirichlet_rows : list F -> nat -> rng -> list (list F) * rng.
Variable random : rng -> F * rng.
Variable normal_matrix : F -> F -> nat * nat -> rng -> list (list F) * rng.
Variable normal_vector : F -> F -> nat -> rng -> list F * rng.
Variable uniform : F -> F -> rng -> F * rng.

(** The generator is threaded through the draws. *)
Definition State (X : Type) : Type := rng -> X * rng.
Definition ret {X} (x : X) : State X := fun g => (x, g).
Definition sbind {X Y} (m : State X) (k : X -> State Y) : State Y :=
  fun g => let (x, g') := m g in k x g'.

Notation "x <~ m ;; k" := (sbind m (fun x => k))
  (at level 61, m at next level, right associativity).

Definition _random_transition_matrix (n : nat) : State (list (list F)) :=
  dirichlet_rows (ones n) n.

Definition _random_emission_matrix (n m : nat) : State (list (list F)) :=
  dirichlet_rows (ones m) n.

Definition _random_initial (n : nat) : State (list F) :=
  dirichlet (ones n).

(** What the loop carries from one iteration to the next. *)
Record loop_state : Type := {
  ls_A : list (list F);
  ls_B : list (list F);
  ls_pi : list F;
  ls_ll : F;
  ls_iterations : list (iteration_record F)
}.

(** The body of [for i in range(1, n_iterations + 1)]. *)
Definition training_step (A_target B_target : list (list F))
           (pi_target : list F) (i : Z) (st : loop_state) : State loop_state :=
  let fi := of_int i in
  let alpha := sub one (exp (mul (lit (- (12 # 100))) fi)) in
  let noise := div (lit (5 # 1000)) fi in
  let lo := lit (- (5 # 100)) in
  let hi := lit (5 # 100) in
  nA <~ normal_matrix zero noise (shape2 (ls_A st)) ;;
  let A := _normalise_rows
             (madd (madd (mscale (sub one alpha) (ls_A st))
                         (mscale alpha A_target))
                   (map (map (clip lo hi)) nA)) in
  nB <~ normal_matrix zero noise (shape2 (ls_B st)) ;;
  let B := _normalise_rows
             (madd (madd (mscale (sub one alpha) (ls_B st))
                         (mscale alpha B_target))
                   (map (map (clip lo hi)) nB)) in
  npi <~ normal_vector zero noise (List.length (ls_pi st)) ;;
  let pi_raw := vadd (vadd (vscale (sub one alpha) (ls_pi st))
                           (vscale alpha pi_target))
                     (map (clip lo hi) npi) in
  let pi_raw := map (clip_lo (lit (1 # 10000000000))) pi_raw in
  let pi := map (fun x => div x (vsum pi_raw)) pi_raw in
  u <~ uniform (lit 1) (lit 15) ;;
  let ll := add (ls_ll st) (mul u (exp (mul (lit (- (5 # 100))) fi))) in
  ret {| ls_A := A; ls_B := B; ls_pi := pi; ls_ll := ll;
         ls_iterations :=
           (ls_iterations st ++
            [{| it_A := A; it_B := B; it_pi := pi; it_iteration := i;
                it_log_likelihood := round_ndigits ll 4 |}])%list |}.

(** A [for] loop over a threaded state. *)
Fixpoint sfor {X S} (xs : list X) (body : X -> S -> State S) (s : S)
  : State S :=
  match xs with
  | [] => ret s
  | x :: xs' => sbind (body x s) (sfor xs' body)
  end.

(** [_simulate_training(n_states, n_obs, n_iterations, seed)]. *)
Definition _simulate_training (n_states n_obs : nat) (n_iterations : Z)
           (seed : option Z) : list (iteration_record F) :=
  fst ((A_target <~ _random_transition_matrix n_states ;;
        B_target <~ _random_emission_matrix n_states n_obs ;;
        pi_target <~ _random_initial n_states ;;
        A <~ _random_transition_matrix n_states ;;
        B <~ _random_emission_matrix n_states n_obs ;;
        pi <~ _random_initial n_states ;;
        r <~ random ;;
        let ll := sub (lit (- 500)) (mul r (lit 200)) in
        st <~ sfor (range_from 1 (n_iterations + 1))
                   (training_step A_target B_target pi_target)
                   {| ls_A := A; ls_B := B; ls_pi := pi; ls_ll := ll;
                      ls_iterations := [] |} ;;
        ret (ls_iterations st))
       (default_rng seed)).

End Simulate.

Module Binary64.

Import PrimFloat.



End Binary64.

(** ** Shapes *)

(** An array of shape [(r, c)]. *)
Definition shaped {F : Type} (r c : nat) (m : list (list F)) : Prop :=
  List.length m = r /\ Forall (fun row => List.length row = c) m.

(** A row that sums to one, or to zero. *)
Definition unit_or_zero_sum (row : list Q) : Prop :=
  (vsum row == 1)%Q \/ (vsum row == 0)%Q.

(** Two rational arrays with equal entries. *)
Definition same_entries (m n : list (list Q)) : Prop :=
  Forall2 (Forall2 Qeq) m n.

(** The shapes of one record. *)
Definition record_shaped {F : Type} (n m : nat) (it : iteration_record F)
  : Prop :=
  shaped n n (it_A it) /\ shaped n m (it_B it) /\ List.length (it_pi it) = n.

(** What the loop keeps from one pass to the next. *)
Definition loop_shaped {F : Type} (n m : nat) (st : @loop_state F) : Prop :=
  shaped n n (ls_A st) /\ shaped n m (ls_B st) /\
  List.length (ls_pi st) = n /\
  Forall (record_shaped n m) (ls_iterations st).

(** A vector of positive entries that sum to one. *)
Definition distribution (v : list Q) : Prop :=
  Forall (fun x => (0 < x)%Q) v /\ (vsum v == 1)%Q.

(** One row of [_normalise_rows] over the rationals. *)
Definition normalise_row (row : list Q) : list Q :=
  map (fun x => (x / (if Qeq_bool (vsum row) 0 then 1 else vsum row))%Q) row.

(** ** Draws without randomness, to run the simulation with *)

(** A stand-in for [numpy.random.Generator] over the rationals whose draws
    have the shape numpy gives them: a Dirichlet draw is uniform, a normal
    draw is its location, [random()] is [0] and [uniform(a, b)] is [a]. *)
Module Fixed.

Definition rng : Type := unit.

Definition default_rng (seed : option Z) : rng := tt.

Definition dirichlet (alpha : list Q) (g : rng) : list Q * rng :=
  (map (fun _ => (1 / inject_Z (Z.of_nat (List.length alpha)))%Q) alpha, g).

Definition dirichlet_rows (alpha : list Q) (size : nat) (g : rng)
  : list (list Q) * rng :=
  (repeat (fst (dirichlet alpha g)) size, g).

Definition random (g : rng) : Q * rng := (0%Q, g).

Definition normal_matrix (loc scale : Q) (shape : nat * nat) (g : rng)
  : list (list Q) * rng :=
  (repeat (repeat loc (snd shape)) (fst shape), g).

Definition normal_vector (loc scale : Q) (n : nat) (g : rng) : list Q * rng :=
  (repeat loc n, g).

Definition uniform (lo hi : Q) (g : rng) : Q * rng := (lo, g).

(** A rational function in place of [exp]: [1 / (1 - x)], which bounds
    [exp x] from above for [x < 1]. *)
Definition exp (x : Q) : Q := (1 / (1 - x))%Q.

(** [_simulate_training] with these draws. *)
Definition _simulate_training (n_states n_obs : nat) (n_iterations : Z)
           (seed : option Z) : list (iteration_record Q) :=
  Demo._simulate_training exp round_ default_rng dirichlet dirichlet_rows
                          random normal_matrix normal_vector uniform
                          n_states n_obs n_iterations seed.

End Fixed.

End Demo.

(* ================================================================== *)
(** * demo/app.py: the route [/api/simulate]                           *)
(* ================================================================== *)

Module App.

Import Json.
Local Open Scope string_scope.
Local Open Scope Z_scope.

(** The exceptions the handler can raise before Flask turns them into an
    error response. *)
Inductive exn : Type :=
| AttributeError
| TypeError
| ValueError
| OverflowError.

Inductive outcome (X : Type) : Type :=
| Returned (x : X)
| Raised (e : exn).
Arguments Returned {X} x.
Arguments Raised {X} e.

Definition obind {X Y} (m : outcome X) (k : X -> outcome Y) : outcome Y :=
  match m with
  | Returned x => k x
  | Raised e => Raised e
  end.

Declare Scope app_scope.
Delimit Scope app_scope with app.
Notation "x <- m ;; k" := (obind m (fun x => k))
  (at level 61, m at next level, right associativity) : app_scope.
Local Open Scope app_scope.

(** [max(lo, min(n, hi))]. *)
Definition clamp (lo hi n : Z) : Z := Z.max lo (Z.min n hi).

Section Simulate.

(** The floats of a parsed request body: whether one equals [0.0], its
    truncation [int(x)] ([None] for an infinity or NaN) and whether it is
    NaN. *)
Variable float : Type.
Variable is_zero : float -> bool.
Variable trunc : float -> option Z.
Variable is_nan : float -> bool.

(** [int(s)] of a string; [None] when Python raises [ValueError]. *)
Variable int_of_str : string -> option Z.

(** [random.randint(a, b)], the draw of the module-level generator. *)
Variable randint : Z -> Z -> Z.

(** The arithmetic and the generator of the simulation. *)
Context {F : Type} {arith : Demo.Arith F}.
Variable exp : F -> F.
Variable round_ndigits : F -> nat -> F.
Variable rng : Type.
Variable default_rng : option Z -> rng.
Variable dirichlet : list F -> rng -> list F * rng.
Variable dirichlet_rows : list F -> nat -> rng -> list (list F) * rng.
Variable random : rng -> F * rng.
Variable normal_matrix : F -> F -> nat * nat -> rng -> list (list F) * rng.
Variable normal_vector : F -> F -> nat -> rng -> list F * rng.
Variable uniform : F -> F -> rng -> F * rng.

Abbreviation pyval := (Json.pyval float).

(** [bool(v)]. *)
Definition truthy (v : pyval) : bool :=
  match v with
  | PNone => false
  | PBool b => b
  | PInt z => negb (z =? 0)
  | PFloat x => negb (is_zero x)
  | PStr s => negb (String.eqb s "")
  | PList l => match l with [] => false | _ => true end
  | PTuple l => match l with [] => false | _ => true end
  | PDict items => match items with [] => false | _ => true end
  end.

(** [request.get_json(silent=True) or {}]: [body] is what [get_json]
    returns, [None] when the request carries no JSON it can parse. *)
Definition body_or_empty (body : option pyval) : pyval :=
  match body with
  | Some v => if truthy v then v else PDict []
  | None => PDict []
  end.

(** [data.get(key, default)]; only a dictionary has [get]. *)
Definition get (data : pyval) (key : string) (default : pyval)
  : outcome pyval :=
  match data with
  | PDict items =>
      Returned (match lookup items key with
                | Some v => v
                | None => default
                end)
  | _ => Raised AttributeError
  end.

(** [int(v)]. *)
Definition int_ (v : pyval) : outcome Z :=
  match v with
  | PInt z => Returned z
  | PBool b => Returned (if b then 1 else 0)
  | PFloat x =>
      match trunc x with
      | Some z => Returned z
      | None => if is_nan x then Raised ValueError else Raised OverflowError
      end
  | PStr s =>
      match int_of_str s with
      | Some z => Returned z
      | None => Raised ValueError
      end
  | _ => Raised TypeError
  end.

(** The object handed to [jsonify]. *)
Record simulate_response : Type := {
  r_iterations : list (Demo.iteration_record F);
  r_seed : Z
}.

(** [simulate()].  numpy's [default_rng] rejects a negative seed with a
    [ValueError]; the generator of this model accepts every seed, so the
    statements about a returned response ask for a seed that is not
    negative. *)
Definition simulate (body : option pyval) : outcome simulate_response :=
  let data := body_or_empty body in
  v <- get data "n_states" (PInt 3) ;;
  n_states <- int_ v ;;
  v <- get data "n_observations" (PInt 4) ;;
  n_obs <- int_ v ;;
  v <- get data "n_iterations" (PInt 30) ;;
  n_iter <- int_ v ;;
  seed_val <- get data "seed" PNone ;;
  seed <- match seed_val with
          | PNone => Returned (randint 0 (2 ^ 31))
          | v => int_ v
          end ;;
  let n_states := clamp 2 12 n_states in
  let n_obs := clamp 2 12 n_obs in
  let n_iter := clamp 1 200 n_iter in
  let iterations :=
    Demo._simulate_training exp round_ndigits default_rng dirichlet
      dirichlet_rows random normal_matrix normal_vector uniform
      (Z.to_nat n_states) (Z.to_nat n_obs) n_iter (Some seed) in
  Returned {| r_iterations := iterations; r_seed := seed |}.

(** The integer a request asks for under [key]: the field when the body
    is a dictionary holding an integer there, [default] when the key is
    missing. *)
Definition asks_for (data : pyval) (key : string) (default n : Z) : Prop :=
  exists items,
    data = PDict items /\
    (lookup items key = Some (PInt n) \/
     (lookup items key = None /\ n = default)).

End Simulate.

(** The route over the rationals with the draws of [Demo.Fixed]; a float
    of the body is a rational, a string is never an integer and the
    module-level generator draws [7]. *)
Definition fixed_simulate (body : option (Json.pyval Q))
  : outcome (@simulate_response Q) :=
  simulate (arith := Demo.Arith_Q) Q (fun x => Qeq_bool x 0%Q)
           (fun x => Some (Z.quot (Qnum x) (Zpos (Qden x))))
           (fun _ => false) (fun _ => None) (fun _ _ => 7)
           Demo.Fixed.exp round_ Demo.Fixed.rng
           Demo.Fixed.default_rng Demo.Fixed.dirichlet
           Demo.Fixed.dirichlet_rows Demo.Fixed.random
           Demo.Fixed.normal_matrix Demo.Fixed.normal_vector
           Demo.Fixed.uniform body.

(** The body [{"n_states": 50, "n_iterations": 999, "seed": 42}]. *)
Definition greedy_body : Json.pyval Q :=
  PDict [ (PStr "n_states", PInt 50);
          (PStr "n_iterations", PInt 999);
          (PStr "seed", PInt 42) ].

End App.

(* ================================================================== *)
(** * Theory                                                           *)
(* ================================================================== *)

Section PyFacts.

Local Open Scope Q_scope.

Lemma Qltb_true_iff (x y : Q) : Qltb x y = true <-> x < y.
Proof.
  unfold Qltb. rewrite negb_true_iff. split; intro H.
  - apply Qnot_le_lt. intro Hle. apply Qle_bool_iff in Hle. congruence.
  - destruct (Qle_bool y x) eqn:E; [|reflexivity].
    apply Qle_bool_iff in E. exfalso. exact (Qlt_not_le _ _ H E).
Qed.

Lemma Qltb_false_iff (x y : Q) : Qltb x y = false <-> y <= x.
Proof.
  unfold Qltb. rewrite negb_false_iff. apply Qle_bool_iff.
Qed.

Lemma str_inj (i j : nat) : str i = str j -> i = j.
Proof.
  unfold str. intro H.
  apply DecimalNat.Unsigned.to_uint_inj.
  assert (E : NilEmpty.uint_of_string (NilEmpty.string_of_uint (Nat.to_uint i))
              = NilEmpty.uint_of_string (NilEmpty.string_of_uint (Nat.to_uint j)))
    by (rewrite H; reflexivity).
  rewrite !NilEmpty.usu in E. congruence.
Qed.

(** [rint] stays within one half of its argument. *)
Lemma rint_floor_cases (x : Q) :
  rint x = Qfloor x \/ rint x = (Qfloor x + 1)%Z.
Proof.
  unfold rint. destruct (_ ?= _); [destruct (Z.even _)| |]; auto.
Qed.

Lemma rint_ge_floor (x : Q) : (Qfloor x <= rint x)%Z.
Proof. destruct (rint_floor_cases x) as [-> | ->]; lia. Qed.

Lemma rint_le_floor_succ (x : Q) : (rint x <= Qfloor x + 1)%Z.
Proof. destruct (rint_floor_cases x) as [-> | ->]; lia. Qed.

(** [rint] is monotone: rounding never reverses an order. *)
Lemma rint_mono (x y : Q) : x <= y -> (rint x <= rint y)%Z.
Proof.
  intro Hxy.
  pose proof (Qfloor_resp_le _ _ Hxy) as Hf.
  destruct (Z.eq_dec (Qfloor x) (Qfloor y)) as [E | NE].
  - unfold rint. rewrite E.
    assert (Hd : x - inject_Z (Qfloor y) <= y - inject_Z (Qfloor y)).
    { lra. }
    destruct (Qcompare_spec (x - inject_Z (Qfloor y)) (1 # 2)) as [Hx | Hx | Hx];
      destruct (Qcompare_spec (y - inject_Z (Qfloor y)) (1 # 2)) as [Hy | Hy | Hy];
      try (destruct (Z.even (Qfloor y))); try lia; exfalso; lra.
  - pose proof (rint_le_floor_succ x). pose proof (rint_ge_floor y). lia.
Qed.


Lemma pow10_pos (n : nat) : (0 < pow10 n)%Z.
Proof. unfold pow10. apply Z.pow_pos_nonneg; lia. Qed.

Lemma inject_pow10_pos (n : nat) : 0 < inject_Z (pow10 n).
Proof.
  change 0 with (inject_Z 0). rewrite <- Zlt_Qlt. apply pow10_pos.
Qed.

(** [round(x, n)] is monotone in [x]. *)
Lemma round_mono (n : nat) (x y : Q) : x <= y -> round_ x n <= round_ y n.
Proof.
  intro Hxy. unfold round_.
  pose proof (inject_pow10_pos n) as Hp.
  apply Qmult_le_compat_r.
  - rewrite <- Zle_Qle. apply rint_mono.
    apply Qmult_le_compat_r; [exact Hxy | apply Qlt_le_weak, Hp].
  - apply Qlt_le_weak, Qinv_lt_0_compat, Hp.
Qed.



End PyFacts.

Section ForFacts.

Variables X S : Type.

(** A loop whose body never raises is a left fold of its effect. *)
Lemma for_pure (f : X -> S -> S) (body : X -> S -> result S) (xs : list X) :
  (forall x s, In x xs -> body x s = Ok (f x s)) ->
  forall s, for_ xs body s = Ok (fold_left (fun s x => f x s) xs s).
Proof.
  induction xs as [| x xs IH]; intros Hb s; simpl.
  - reflexivity.
  - rewrite Hb by (left; reflexivity). simpl.
    apply IH. intros y s' Hy. apply Hb. right. exact Hy.
Qed.

End ForFacts.

Section RendererFacts.

Import Renderer.
Local Open Scope Q_scope.


Lemma extend_nil (dot : Digraph) : extend dot [] = dot.
Proof. destruct dot; unfold extend; simpl. rewrite app_nil_r. reflexivity. Qed.

Lemma extend_extend (dot : Digraph) (l1 l2 : list stmt) :
  extend (extend dot l1) l2 = extend dot (l1 ++ l2).
Proof. unfold extend; simpl. rewrite <- app_assoc. reflexivity. Qed.

Lemma append_extend (dot : Digraph) (s : stmt) : append dot s = extend dot [s].
Proof. reflexivity. Qed.

(** ** Indexing *)

Lemma getitem_entry (A : matrix) (i j : nat) :
  square A -> (i < shape0 A)%nat -> (j < shape0 A)%nat ->
  getitem A i j = Ok (entry A i j).
Proof.
  intros Hsq Hi Hj. unfold getitem, entry, shape0 in *.
  destruct (nth_error A i) as [row |] eqn:Ei.
  - assert (Hrow : List.length row = List.length A).
    { unfold square in Hsq. rewrite Forall_forall in Hsq. apply Hsq.
      eapply nth_error_In; eauto. }
    rewrite (nth_error_nth _ _ [] Ei).
    destruct (nth_error row j) as [p |] eqn:Ej.
    + rewrite (nth_error_nth _ _ 0 Ej). reflexivity.
    + apply nth_error_None in Ej. lia.
  - apply nth_error_None in Ei. lia.
Qed.

Lemma getitem_Ok_entry (A : matrix) (i j : nat) (p : Q) :
  getitem A i j = Ok p -> p = entry A i j /\ (i < shape0 A)%nat.
Proof.
  unfold getitem, entry, shape0.
  destruct (nth_error A i) as [row |] eqn:Ei; [| discriminate].
  destruct (nth_error row j) as [q |] eqn:Ej; [| discriminate].
  intro H. inversion H; subst. split.
  - rewrite (nth_error_nth _ _ [] Ei). rewrite (nth_error_nth _ _ 0 Ej). reflexivity.
  - apply nth_error_Some. congruence.
Qed.

(** ** The palette *)

Lemma palette_color_ok (config : DiagramConfig) (i : nat) :
  Config.state_colors config <> [] ->
  palette_color config i = Ok (color_at config i).
Proof.
  intro Hne. unfold palette_color, color_at.
  destruct (Config.state_colors config) as [| c cs] eqn:E; [congruence |].
  set (P := List.length (c :: cs)).
  assert (HP : (i mod P < P)%nat) by (apply Nat.mod_upper_bound; subst P; simpl; lia).
  change (List.length (c :: cs)) with P.
  destruct P as [| P'] eqn:EP; [lia |].
  destruct (nth_error (c :: cs) (i mod S P')) as [x |] eqn:En.
  - rewrite (nth_error_nth _ _ ""%string En). reflexivity.
  - apply nth_error_None in En. fold P in HP. simpl in *. lia.
Qed.

(** ** The maximum *)

Lemma fold_Qmax_ge (xs : list Q) (x : Q) :
  x <= fold_left Qmax xs x /\ (forall y, In y xs -> y <= fold_left Qmax xs x).
Proof.
  revert x. induction xs as [| a xs IH]; intro x; simpl.
  - split; [apply Qle_refl | intros y []].
  - destruct (IH (Qmax x a)) as [H1 H2]. split.
    + eapply Qle_trans; [apply Q.le_max_l | exact H1].
    + intros y [<- | Hy].
      * eapply Qle_trans; [apply Q.le_max_r | exact H1].
      * apply H2, Hy.
Qed.

Lemma fold_Qmax_In (xs : list Q) (x : Q) : In (fold_left Qmax xs x) (x :: xs).
Proof.
  revert x. induction xs as [| a xs IH]; intro x; simpl.
  - left; reflexivity.
  - assert (Hc : Qmax x a = x \/ Qmax x a = a).
    { unfold Qmax, GenericMinMax.gmax. destruct (x ?= a); auto. }
    destruct (IH (Qmax x a)) as [H | H].
    + destruct Hc as [Hc | Hc]; [left | right; left]; congruence.
    + right; right; exact H.
Qed.

Lemma amax_spec (A : matrix) (m : Q) :
  amax A = Ok m ->
  In m (List.concat A) /\ (forall y, In y (List.concat A) -> y <= m).
Proof.
  unfold amax. destruct (List.concat A) as [| x xs]; [discriminate |].
  intro H; inversion H; subst. split.
  - apply fold_Qmax_In.
  - destruct (fold_Qmax_ge xs x) as [H1 H2].
    intros y [<- | Hy]; [exact H1 | apply H2, Hy].
Qed.

Lemma amax_ok (A : matrix) :
  List.concat A <> [] -> exists m, amax A = Ok m.
Proof.
  unfold amax. destruct (List.concat A); [congruence | eauto].
Qed.

Lemma concat_nonempty (A : matrix) :
  square A -> (0 < shape0 A)%nat -> List.concat A <> [].
Proof.
  unfold square, shape0. destruct A as [| row A']; simpl; [lia |].
  intros Hsq _. inversion Hsq as [| ? ? Hlen _]; subst.
  destruct row; simpl in *; [lia | discriminate].
Qed.

(** [max_prob] is either the largest entry, when that is positive, or [1]. *)
Lemma max_prob_of_spec (A : matrix) (mp : Q) :
  max_prob_of A = Ok mp ->
  exists m, amax A = Ok m /\
    ((0 < m /\ mp = m) \/ (m <= 0 /\ mp = 1)).
Proof.
  unfold max_prob_of. destruct (amax A) as [m | e] eqn:E; simpl; [| discriminate].
  destruct (Qltb 0 m) eqn:Hlt.
  - intro H. inversion H; subst. exists mp. split; [reflexivity |].
    left. split; [apply Qltb_true_iff, Hlt | reflexivity].
  - intro H. inversion H; subst. exists m. split; [reflexivity |].
    right. split; [apply Qltb_false_iff, Hlt | reflexivity].
Qed.

Lemma max_prob_of_pos (A : matrix) (mp : Q) :
  max_prob_of A = Ok mp -> 0 < mp.
Proof.
  intro H. apply max_prob_of_spec in H.
  destruct H as (m & _ & [[Hm ->] | [_ ->]]); [exact Hm | reflexivity].
Qed.

Lemma max_prob_of_ok (A : matrix) :
  List.concat A <> [] -> exists mp, max_prob_of A = Ok mp.
Proof.
  intro Hne. destruct (amax_ok A Hne) as [m Hm].
  unfold max_prob_of. rewrite Hm. simpl.
  destruct (Qltb 0 m); eauto.
Qed.

(** ** The two loops *)

Lemma penwidth_ok (p mp : Q) : 0 < mp -> penwidth p mp = Ok (width p mp).
Proof.
  intro Hmp. unfold penwidth, fdiv.
  destruct (Qeq_bool mp 0) eqn:E.
  - apply Qeq_bool_iff in E. rewrite E in Hmp. discriminate Hmp.
  - reflexivity.
Qed.

Lemma edge_step_ok (A : matrix) (config : DiagramConfig) (t mp : Q)
      (i j : nat) (dot : Digraph) :
  square A -> (i < shape0 A)%nat -> (j < shape0 A)%nat ->
  Config.state_colors config <> [] -> 0 < mp ->
  edge_step A config t mp i j dot =
  Ok (extend dot (if drawn A t (i, j)
                  then [Edge (edge_of A config mp i j)] else [])).
Proof.
  intros Hsq Hi Hj Hpal Hmp. unfold edge_step, drawn. simpl fst; simpl snd.
  rewrite (getitem_entry A i j Hsq Hi Hj). simpl.
  destruct (Qltb (entry A i j) t); simpl.
  - rewrite extend_nil. reflexivity.
  - rewrite (penwidth_ok _ _ Hmp). simpl.
    unfold edge_of. destruct (Nat.eqb i j).
    + rewrite (palette_color_ok config i Hpal). reflexivity.
    + reflexivity.
Qed.

Lemma fold_left_extend (X : Type) (g : X -> list stmt) (xs : list X)
      (dot : Digraph) :
  fold_left (fun s x => extend s (g x)) xs dot = extend dot (flat_map g xs).
Proof.
  revert dot. induction xs as [| x xs IH]; intro dot; simpl.
  - symmetry. apply extend_nil.
  - rewrite IH, extend_extend. reflexivity.
Qed.

Lemma in_range (n i : nat) : In i (range n) <-> (i < n)%nat.
Proof. unfold range. rewrite in_seq. lia. Qed.

Lemma flat_map_row (X : Type) (f : nat * nat -> bool) (e : nat * nat -> X)
      (i : nat) (js : list nat) :
  flat_map (fun j => if f (i, j) then [e (i, j)] else []) js =
  map e (filter f (map (fun j => (i, j)) js)).
Proof.
  induction js as [| j js IH]; simpl; [reflexivity |].
  rewrite IH. destruct (f (i, j)); reflexivity.
Qed.

Lemma flat_map_grid (X : Type) (f : nat * nat -> bool) (e : nat * nat -> X)
      (ks js : list nat) :
  flat_map (fun i => flat_map (fun j => if f (i, j) then [e (i, j)] else []) js) ks =
  map e (filter f (list_prod ks js)).
Proof.
  induction ks as [| i ks IH]; simpl; [reflexivity |].
  rewrite IH, flat_map_row, filter_app, map_app. reflexivity.
Qed.

Lemma edge_loops_ok (A : matrix) (config : DiagramConfig) (t mp : Q)
      (dot : Digraph) :
  square A -> Config.state_colors config <> [] -> 0 < mp ->
  for_ (range (shape0 A))
       (fun i => for_ (range (shape0 A)) (edge_step A config t mp i)) dot =
  Ok (extend dot (map Edge (edge_list A config t mp))).
Proof.
  intros Hsq Hpal Hmp.
  set (g := fun ij : nat * nat =>
              if drawn A t ij then [Edge (edge_of A config mp (fst ij) (snd ij))]
              else []).
  rewrite for_pure
    with (f := fun i s => extend s (flat_map (fun j => g (i, j)) (range (shape0 A)))).
  - rewrite fold_left_extend. f_equal. f_equal.
    unfold edge_list, index_pairs. subst g. cbv beta.
    rewrite (flat_map_grid _ (drawn A t)
               (fun ij => Edge (edge_of A config mp (fst ij) (snd ij)))).
    rewrite map_map. reflexivity.
  - intros i s Hi. apply in_range in Hi.
    rewrite for_pure with (f := fun j s => extend s (g (i, j))).
    + rewrite fold_left_extend. reflexivity.
    + intros j s' Hj. apply in_range in Hj. subst g. cbv beta.
      apply edge_step_ok; assumption.
Qed.

Lemma node_loop_ok (config : DiagramConfig) (ils : list (nat * string))
      (dot : Digraph) :
  Config.state_colors config <> [] ->
  for_ ils (node_step config) dot =
  Ok (extend dot (map Node (map (node_of config) ils))).
Proof.
  intro Hpal.
  rewrite for_pure with (f := fun il s => extend s [Node (node_of config il)]).
  - rewrite fold_left_extend. f_equal. f_equal.
    induction ils as [| il ils IH]; simpl; [reflexivity | rewrite IH; reflexivity].
  - intros [i label] s _. unfold node_step.
    rewrite (palette_color_ok config i Hpal). reflexivity.
Qed.

End RendererFacts.

Section RenderResult.

Import Renderer.
Local Open Scope Q_scope.

Variable gv : graphviz_module.

Abbreviation render := (render_state_diagram (Some gv)).
Abbreviation resolved := resolve_config.

Lemma nodes_extend (dot : Digraph) (l : list stmt) :
  nodes (extend dot l) =
  (nodes dot ++ flat_map (fun s => match s with Node n => [n] | _ => [] end) l)%list.
Proof. unfold nodes, extend; simpl. apply flat_map_app. Qed.

Lemma edges_extend (dot : Digraph) (l : list stmt) :
  edges (extend dot l) =
  (edges dot ++ flat_map (fun s => match s with Edge e => [e] | _ => [] end) l)%list.
Proof. unfold edges, extend; simpl. apply flat_map_app. Qed.

Lemma nodes_of_Node (l : list node_stmt) :
  flat_map (fun s => match s with Node n => [n] | _ => [] end) (map Node l) = l.
Proof. induction l; simpl; congruence. Qed.

Lemma nodes_of_Edge (l : list edge_stmt) :
  flat_map (fun s => match s with Node n => [n] | _ => [] end) (map Edge l) = [].
Proof. induction l; simpl; congruence. Qed.

Lemma edges_of_Edge (l : list edge_stmt) :
  flat_map (fun s => match s with Edge e => [e] | _ => [] end) (map Edge l) = l.
Proof. induction l; simpl; congruence. Qed.

Lemma edges_of_Node (l : list node_stmt) :
  flat_map (fun s => match s with Edge e => [e] | _ => [] end) (map Node l) = [].
Proof. induction l; simpl; congruence. Qed.

(** On a square matrix with at least one state, in a well-configured call,
    the renderer returns, and its nodes and edges are the ones the two
    loops list. *)
Lemma render_result (A : matrix) (state_labels : option (list string))
      (config : option DiagramConfig) (fmt title : option string)
      (prob_threshold : option Q) :
  square A -> (0 < shape0 A)%nat ->
  well_configured gv config fmt ->
  exists mp g,
    max_prob_of A = Ok mp /\
    render A state_labels config fmt title prob_threshold = Ok g /\
    nodes g = map (node_of (resolved config))
                  (enumerate (resolve_labels A state_labels)) /\
    edges g = edge_list A (resolved config)
                (resolve_threshold (resolved config) prob_threshold) mp.
Proof.
  intros Hsq HN (Hpal & Heng & Hfmt).
  destruct (max_prob_of_ok A (concat_nonempty A Hsq HN)) as [mp Hmp].
  pose proof (max_prob_of_pos A mp Hmp) as Hpos.
  exists mp. eexists. split; [exact Hmp |].
  unfold render_state_diagram. cbv zeta.
  unfold Digraph_init. rewrite Heng, Hfmt. simpl bind.
  rewrite (node_loop_ok (resolved config) _ _ Hpal). simpl bind.
  rewrite Hmp. simpl bind.
  rewrite (edge_loops_ok A (resolved config) _ mp _ Hsq Hpal Hpos).
  simpl bind. split; [reflexivity |]. split.
  - rewrite !nodes_extend, nodes_of_Node, nodes_of_Edge, app_nil_r. reflexivity.
  - rewrite !edges_extend, edges_of_Node, edges_of_Edge, app_nil_r. reflexivity.
Qed.

Lemma getitem_Ok_bounds (A : matrix) (i j : nat) (p : Q) :
  square A -> getitem A i j = Ok p ->
  p = entry A i j /\ (i < shape0 A)%nat /\ (j < shape0 A)%nat.
Proof.
  intros Hsq H. destruct (getitem_Ok_entry A i j p H) as [Hp Hi].
  split; [exact Hp |]. split; [exact Hi |].
  unfold getitem in H. destruct (nth_error A i) as [row |] eqn:Ei; [| discriminate].
  destruct (nth_error row j) as [q |] eqn:Ej; [| discriminate].
  assert (Hrow : List.length row = shape0 A).
  { unfold square in Hsq. rewrite Forall_forall in Hsq. apply Hsq.
    eapply nth_error_In; eauto. }
  rewrite <- Hrow. apply nth_error_Some. congruence.
Qed.

Lemma in_index_pairs (N i j : nat) :
  In (i, j) (index_pairs N) <-> (i < N)%nat /\ (j < N)%nat.
Proof.
  unfold index_pairs. rewrite in_prod_iff, !in_range. reflexivity.
Qed.

Lemma in_edge_list (A : matrix) (config : DiagramConfig) (t mp : Q)
      (e : edge_stmt) :
  In e (edge_list A config t mp) <->
  exists i j, (i < shape0 A)%nat /\ (j < shape0 A)%nat /\
              drawn A t (i, j) = true /\ e = edge_of A config mp i j.
Proof.
  unfold edge_list. rewrite in_map_iff. split.
  - intros ([i j] & <- & Hin). apply filter_In in Hin. destruct Hin as [Hin Hd].
    apply in_index_pairs in Hin. exists i, j. simpl. tauto.
  - intros (i & j & Hi & Hj & Hd & ->). exists (i, j). split; [reflexivity |].
    apply filter_In. split; [apply in_index_pairs; tauto | exact Hd].
Qed.

Lemma drawn_iff (A : matrix) (t : Q) (i j : nat) :
  drawn A t (i, j) = true <-> t <= entry A i j.
Proof.
  unfold drawn. simpl. rewrite negb_true_iff. apply Qltb_false_iff.
Qed.

(** The edge [(i, j)] is drawn exactly when [A[i, j] >= threshold]. *)
Lemma edge_drawn_iff (A : matrix) (state_labels : option (list string))
      (config : option DiagramConfig) (fmt title : option string)
      (prob_threshold : option Q) :
  square A -> (0 < shape0 A)%nat ->
  well_configured gv config fmt ->
  exists g,
    render A state_labels config fmt title prob_threshold = Ok g /\
    forall i j p,
      getitem A i j = Ok p ->
      ((exists e, In e (edges g) /\ e_tail e = str i /\ e_head e = str j) <->
       resolve_threshold (resolved config) prob_threshold <= p).
Proof.
  intros Hsq HN Hpal.
  destruct (render_result A state_labels config fmt title prob_threshold
              Hsq HN Hpal) as (mp & g & _ & Hg & _ & He).
  exists g. split; [exact Hg |].
  intros i j p Hp.
  destruct (getitem_Ok_bounds A i j p Hsq Hp) as (-> & Hi & Hj).
  rewrite <- drawn_iff. rewrite He. split.
  - intros (e & Hin & Ht & Hh). apply in_edge_list in Hin.
    destruct Hin as (i' & j' & _ & _ & Hd & ->). simpl in Ht, Hh.
    apply str_inj in Ht. apply str_inj in Hh. subst. exact Hd.
  - intro Hd. exists (edge_of A (resolved config) mp i j).
    split; [| split; reflexivity].
    apply in_edge_list. exists i, j. tauto.
Qed.

Lemma edge_list_ends (A : matrix) (config : DiagramConfig) (t mp : Q) :
  map (fun e => (e_tail e, e_head e)) (edge_list A config t mp) =
  map (fun ij => (str (fst ij), str (snd ij)))
      (filter (drawn A t) (index_pairs (shape0 A))).
Proof. unfold edge_list. rewrite map_map. reflexivity. Qed.

Lemma edge_list_length (A : matrix) (config : DiagramConfig) (t mp : Q) :
  List.length (edge_list A config t mp) =
  List.length (filter (drawn A t) (index_pairs (shape0 A))).
Proof. unfold edge_list. apply length_map. Qed.

Lemma square_simple_A : square simple_A /\ (0 < shape0 simple_A)%nat.
Proof. split; [repeat constructor | unfold shape0; simpl; lia]. Qed.

Lemma square_sticky_A : square sticky_A /\ (0 < shape0 sticky_A)%nat.
Proof. split; [repeat constructor | unfold shape0; simpl; lia]. Qed.

Lemma square_eye3 : square eye3 /\ (0 < shape0 eye3)%nat.
Proof. split; [repeat constructor | unfold shape0; simpl; lia]. Qed.


(** C1.  For every square transition matrix and every threshold the
    renderer draws the edge [(i, j)] if and only if [A[i, j] >= threshold];
    the matrix [[0.7,0.3],[0.4,0.6]] with threshold [0.0] gives exactly four
    edges, and [[0.95,0.05],[0.02,0.98]] with threshold [0.1] gives exactly
    the two self-loops. *)
Theorem render_draws_edge_iff_weight_reaches_threshold :
  (forall (A : matrix) (state_labels : option (list string))
          (config : option DiagramConfig) (fmt title : option string)
          (prob_threshold : option Q),
      square A -> (0 < shape0 A)%nat ->
      well_configured gv config fmt ->
      exists g,
        render A state_labels config fmt title prob_threshold = Ok g /\
        forall i j p,
          getitem A i j = Ok p ->
          ((exists e, In e (edges g) /\ e_tail e = str i /\ e_head e = str j)
           <-> resolve_threshold (resolved config) prob_threshold <= p))
  /\
  (forall (state_labels : option (list string))
          (config : option DiagramConfig) (fmt title : option string),
      well_configured gv config fmt ->
      exists g,
        render simple_A state_labels config fmt title (Some 0) = Ok g /\
        List.length (edges g) = 4%nat)
  /\
  (forall (state_labels : option (list string))
          (config : option DiagramConfig) (fmt title : option string),
      well_configured gv config fmt ->
      exists g,
        render sticky_A state_labels config fmt title (Some (1 # 10)) = Ok g /\
        map (fun e => (e_tail e, e_head e)) (edges g) =
        [("0", "0"); ("1", "1")]%string).
Proof.
  split; [| split].
  - intros. apply edge_drawn_iff; assumption.
  - intros state_labels config fmt title Hpal.
    destruct square_simple_A as [Hsq HN].
    destruct (render_result simple_A state_labels config fmt title (Some 0)
                Hsq HN Hpal) as (mp & g & _ & Hg & _ & He).
    exists g. split; [exact Hg |].
    rewrite He, edge_list_length. reflexivity.
  - intros state_labels config fmt title Hpal.
    destruct square_sticky_A as [Hsq HN].
    destruct (render_result sticky_A state_labels config fmt title
                (Some (1 # 10)) Hsq HN Hpal) as (mp & g & _ & Hg & _ & He).
    exists g. split; [exact Hg |].
    rewrite He, edge_list_ends. reflexivity.
Qed.

(** The flag [decongestion_enabled] is never read by the renderer. *)
Lemma render_ignores_decongestion (b : bool) (A : matrix)
      (state_labels : option (list string)) (c : DiagramConfig)
      (fmt title : option string) (prob_threshold : option Q) :
  render A state_labels (Some (with_decongestion b c)) fmt title prob_threshold
  = render A state_labels (Some c) fmt title prob_threshold.
Proof. reflexivity. Qed.

Lemma eye3_kept (t : Q) :
  0 < t -> t <= 1 ->
  filter (drawn eye3 t) (index_pairs (shape0 eye3)) = [(0, 0); (1, 1); (2, 2)]%nat.
Proof.
  intros H0 H1.
  assert (E0 : Qltb 0 t = true) by (apply Qltb_true_iff; exact H0).
  assert (E1 : Qltb 1 t = false) by (apply Qltb_false_iff; exact H1).
  unfold index_pairs, range, shape0, drawn, entry. simpl.
  rewrite E0, E1. reflexivity.
Qed.

(** C2, as amended.  For the 3x3 identity matrix and every threshold
    [0 < t <= 1] the renderer draws exactly the three self-loops, whatever
    the value of [decongestion_enabled] (the renderer does not read it). *)
Theorem identity_draws_three_self_loops :
  forall (state_labels : option (list string)) (c : DiagramConfig)
         (b : bool) (fmt title : option string) (prob_threshold : option Q),
    well_configured gv (Some c) fmt ->
    0 < resolve_threshold c prob_threshold ->
    resolve_threshold c prob_threshold <= 1 ->
    exists g,
      render eye3 state_labels (Some (with_decongestion b c)) fmt title
             prob_threshold = Ok g /\
      map (fun e => (e_tail e, e_head e)) (edges g) =
      [("0", "0"); ("1", "1"); ("2", "2")]%string.
Proof.
  intros state_labels c b fmt title prob_threshold Hpal H0 H1.
  rewrite render_ignores_decongestion.
  destruct square_eye3 as [Hsq HN].
  destruct (render_result eye3 state_labels (Some c) fmt title prob_threshold
              Hsq HN Hpal) as (mp & g & _ & Hg & _ & He).
  exists g. split; [exact Hg |].
  rewrite He, edge_list_ends. simpl resolved.
  rewrite (eye3_kept _ H0 H1). reflexivity.
Qed.

Lemma nth_error_enumerate_from (X : Type) (l : list X) (k i : nat) :
  nth_error (enumerate_from k l) i =
  option_map (fun x => ((k + i)%nat, x)) (nth_error l i).
Proof.
  revert k i. induction l as [| x l IH]; intros k i.
  - destruct i; reflexivity.
  - destruct i; simpl.
    + rewrite Nat.add_0_r. reflexivity.
    + rewrite IH. replace (S k + i)%nat with (k + S i)%nat by lia. reflexivity.
Qed.

Lemma length_enumerate_from (X : Type) (l : list X) (k : nat) :
  List.length (enumerate_from k l) = List.length l.
Proof. revert k. induction l; intro k; simpl; [| rewrite IHl]; reflexivity. Qed.

Lemma color_at_lookup (config : DiagramConfig) (i : nat) :
  Config.state_colors config <> [] ->
  nth_error (Config.state_colors config)
            (i mod List.length (Config.state_colors config))
  = Some (color_at config i).
Proof.
  intro Hpal. unfold color_at. apply nth_error_nth'.
  apply Nat.mod_upper_bound.
  destruct (Config.state_colors config); [congruence | simpl; lia].
Qed.

(** C3.  With [N] states and a (non-empty) palette of length [P], node [i]
    is filled with palette entry [i mod P], for every [i < N]; in
    particular when [P < N] and the palette has to be cycled. *)
Theorem node_fill_cycles_palette :
  forall (A : matrix) (state_labels : option (list string))
         (config : option DiagramConfig) (fmt title : option string)
         (prob_threshold : option Q),
    square A -> (0 < shape0 A)%nat ->
    well_configured gv config fmt ->
    List.length (resolve_labels A state_labels) = shape0 A ->
    exists g,
      render A state_labels config fmt title prob_threshold = Ok g /\
      List.length (nodes g) = shape0 A /\
      forall i, (i < shape0 A)%nat ->
        exists nd,
          nth_error (nodes g) i = Some nd /\
          n_name nd = str i /\
          nth_error (Config.state_colors (resolved config))
                    (i mod List.length (Config.state_colors (resolved config)))
          = Some (n_fillcolor nd).
Proof.
  intros A state_labels config fmt title prob_threshold Hsq HN Hpal Hlab.
  destruct (render_result A state_labels config fmt title prob_threshold
              Hsq HN Hpal) as (mp & g & _ & Hg & Hn & _).
  exists g. split; [exact Hg |]. split.
  - rewrite Hn, length_map. unfold enumerate.
    rewrite length_enumerate_from. exact Hlab.
  - intros i Hi. rewrite Hn.
    destruct (nth_error (resolve_labels A state_labels) i) as [label |] eqn:El.
    + exists (node_of (resolved config) (i, label)). split; [| split].
      * rewrite nth_error_map. unfold enumerate.
        rewrite nth_error_enumerate_from, El. reflexivity.
      * reflexivity.
      * simpl. apply color_at_lookup, (proj1 Hpal).
    + apply nth_error_None in El. lia.
Qed.

Lemma square_zeros (n : nat) : square (zeros n) /\ shape0 (zeros n) = n.
Proof.
  unfold square, zeros, shape0. rewrite repeat_length. split; [| reflexivity].
  apply Forall_forall. intros row Hin. apply repeat_spec in Hin. subst.
  apply repeat_length.
Qed.

Lemma concat_zeros (n : nat) (x : Q) : In x (List.concat (zeros n)) -> x = 0.
Proof.
  unfold zeros. intro Hin. apply in_concat in Hin.
  destruct Hin as (row & Hrow & Hx). apply repeat_spec in Hrow. subst.
  apply repeat_spec in Hx. exact Hx.
Qed.

Lemma max_prob_zeros (n : nat) : (0 < n)%nat -> max_prob_of (zeros n) = Ok 1.
Proof.
  intro Hn. destruct (square_zeros n) as [Hsq HN].
  assert (HN' : (0 < shape0 (zeros n))%nat) by lia.
  destruct (max_prob_of_ok (zeros n) (concat_nonempty _ Hsq HN')) as [mp Hmp].
  rewrite Hmp. f_equal.
  destruct (max_prob_of_spec _ _ Hmp) as (m & Hm & [[Hpos _] | [_ E]]).
  - apply amax_spec in Hm. destruct Hm as [Hin _].
    apply concat_zeros in Hin. subst. discriminate Hpos.
  - exact E.
Qed.

(** C4.  The renderer does not raise on degenerate numbers: it returns a
    graph for every square matrix with at least one state (an all-zero one
    and a single-state one included); the divisor [max_prob] it computes is
    always positive, and is [1] for an all-zero matrix. *)
Theorem render_survives_degenerate_matrix :
  (forall (A : matrix) (state_labels : option (list string))
          (config : option DiagramConfig) (fmt title : option string)
          (prob_threshold : option Q),
      square A -> (0 < shape0 A)%nat ->
      well_configured gv config fmt ->
      exists mp g,
        max_prob_of A = Ok mp /\ 0 < mp /\
        render A state_labels config fmt title prob_threshold = Ok g /\
        List.length (nodes g) = List.length (resolve_labels A state_labels))
  /\
  (forall (n : nat) (state_labels : option (list string))
          (config : option DiagramConfig) (fmt title : option string)
          (prob_threshold : option Q),
      (0 < n)%nat ->
      well_configured gv config fmt ->
      max_prob_of (zeros n) = Ok 1 /\
      exists g,
        render (zeros n) state_labels config fmt title prob_threshold = Ok g /\
        forall e, In e (edges g) -> e_penwidth e == 1 # 2)
  /\
  (forall (x : Q) (state_labels : option (list string))
          (config : option DiagramConfig) (fmt title : option string)
          (prob_threshold : option Q),
      well_configured gv config fmt ->
      max_prob_of [[x]] = Ok (if Qltb 0 x then x else 1) /\
      exists g,
        render [[x]] state_labels config fmt title prob_threshold = Ok g).
Proof.
  split; [| split].
  - intros A state_labels config fmt title prob_threshold Hsq HN Hpal.
    destruct (render_result A state_labels config fmt title prob_threshold
                Hsq HN Hpal) as (mp & g & Hmp & Hg & Hn & _).
    exists mp, g. split; [exact Hmp |].
    split; [exact (max_prob_of_pos A mp Hmp) |]. split; [exact Hg |].
    rewrite Hn, length_map. unfold enumerate. apply length_enumerate_from.
  - intros n state_labels config fmt title prob_threshold Hn Hpal.
    split; [exact (max_prob_zeros n Hn) |].
    destruct (square_zeros n) as [Hsq HN].
    assert (HN' : (0 < shape0 (zeros n))%nat) by lia.
    destruct (render_result (zeros n) state_labels config fmt title
                prob_threshold Hsq HN' Hpal) as (mp & g & Hmp & Hg & _ & He).
    exists g. split; [exact Hg |].
    rewrite (max_prob_zeros n Hn) in Hmp. inversion Hmp; subst mp.
    intros e Hin. rewrite He in Hin. apply in_edge_list in Hin.
    destruct Hin as (i & j & Hi & Hj & _ & ->). simpl.
    assert (E : entry (zeros n) i j = 0).
    { apply concat_zeros with (n := n). apply in_concat.
      exists (nth i (zeros n) []). split.
      - apply nth_In. exact Hi.
      - unfold entry. apply nth_In.
        assert (Hrow : In (nth i (zeros n) []) (zeros n)) by (apply nth_In; exact Hi).
        destruct (square_zeros n) as [Hs _]. unfold square in Hs.
        rewrite Forall_forall in Hs. rewrite (Hs _ Hrow). exact Hj. }
    rewrite E. reflexivity.
  - intros x state_labels config fmt title prob_threshold Hpal.
    split.
    + unfold max_prob_of, amax. simpl. destruct (Qltb 0 x); reflexivity.
    + assert (Hsq : square [[x]]) by (repeat constructor).
      assert (HN : (0 < shape0 [[x]])%nat) by (unfold shape0; simpl; lia).
      destruct (render_result [[x]] state_labels config fmt title
                  prob_threshold Hsq HN Hpal) as (mp & g & _ & Hg & _).
      exists g. exact Hg.
Qed.

(** ** Pen widths *)

Lemma raw_width_le (mp p q : Q) :
  0 < mp -> p <= q -> raw_width p mp <= raw_width q mp.
Proof.
  intros Hmp Hpq. unfold raw_width.
  assert (Hinv : 0 < / mp) by (apply Qinv_lt_0_compat; exact Hmp).
  assert (H : p / mp <= q / mp).
  { unfold Qdiv. apply Qmult_le_compat_r; [assumption | lra]. }
  lra.
Qed.

Lemma round_comp (n : nat) (x y : Q) : x == y -> round_ x n == round_ y n.
Proof.
  intro E. apply Qle_antisym; apply round_mono; rewrite E; apply Qle_refl.
Qed.

Lemma width_le (mp p q : Q) : 0 < mp -> p <= q -> width p mp <= width q mp.
Proof.
  intros Hmp Hpq. unfold width. apply round_mono, raw_width_le; assumption.
Qed.



Lemma entry_in_concat (A : matrix) (i j : nat) :
  square A -> (i < shape0 A)%nat -> (j < shape0 A)%nat ->
  In (entry A i j) (List.concat A).
Proof.
  intros Hsq Hi Hj. apply in_concat. exists (nth i A []).
  assert (Hrow : In (nth i A []) A) by (apply nth_In; exact Hi).
  split; [exact Hrow |]. unfold entry. apply nth_In.
  unfold square in Hsq. rewrite Forall_forall in Hsq.
  rewrite (Hsq _ Hrow). exact Hj.
Qed.

Lemma entry_le_max_prob (A : matrix) (mp : Q) (i j : nat) :
  square A -> max_prob_of A = Ok mp ->
  (i < shape0 A)%nat -> (j < shape0 A)%nat -> entry A i j <= mp.
Proof.
  intros Hsq Hmp Hi Hj.
  destruct (max_prob_of_spec A mp Hmp) as (m & Hm & Hcase).
  apply amax_spec in Hm. destruct Hm as [_ Hmax].
  pose proof (Hmax _ (entry_in_concat A i j Hsq Hi Hj)) as Hle.
  destruct Hcase as [[_ ->] | [Hneg ->]]; [exact Hle | lra].
Qed.

(** In binary64 the expression under [round] is itself not strictly
    increasing: the weights [1e-300] and [2e-300] both give [0.5]. *)
Lemma binary64_raw_width_absorbs_tiny_weights :
  PrimFloat.ltb RendererBinary64.tiny RendererBinary64.twice_tiny = true /\
  RendererBinary64.raw_width RendererBinary64.tiny PrimFloat.one
  = RendererBinary64.half /\
  RendererBinary64.raw_width RendererBinary64.twice_tiny PrimFloat.one
  = RendererBinary64.half.
Proof. vm_compute. repeat split. Qed.


(** ** Order of the edges *)

Lemma lex_lt_row (i : nat) (js : list nat) :
  StronglySorted lt js ->
  StronglySorted lex_lt (map (fun j => (i, j)) js).
Proof.
  induction 1 as [| j js Hs IH Hall]; simpl; constructor.
  - exact IH.
  - apply Forall_map. eapply Forall_impl; [| exact Hall].
    intros k Hk. right. simpl. split; [reflexivity | exact Hk].
Qed.

Lemma StronglySorted_app (X : Type) (R : X -> X -> Prop) (l1 l2 : list X) :
  StronglySorted R l1 -> StronglySorted R l2 ->
  (forall x y, In x l1 -> In y l2 -> R x y) ->
  StronglySorted R (l1 ++ l2).
Proof.
  intros H1 H2 Hcross. induction H1 as [| x l1 Hs IH Hall]; simpl.
  - exact H2.
  - constructor.
    + apply IH. intros a b Ha Hb. apply Hcross; [right; exact Ha | exact Hb].
    + apply Forall_app. split; [exact Hall |].
      apply Forall_forall. intros y Hy. apply Hcross; [left; reflexivity | exact Hy].
Qed.

Lemma StronglySorted_filter (X : Type) (R : X -> X -> Prop) (f : X -> bool)
      (l : list X) :
  StronglySorted R l -> StronglySorted R (filter f l).
Proof.
  induction 1 as [| x l Hs IH Hall]; simpl; [constructor |].
  destruct (f x); [| exact IH]. constructor; [exact IH |].
  rewrite Forall_forall in *. intros y Hy. apply filter_In in Hy.
  apply Hall. tauto.
Qed.

Lemma StronglySorted_seq (a n : nat) : StronglySorted lt (seq a n).
Proof.
  revert a. induction n as [| n IH]; intro a; simpl; constructor.
  - apply IH.
  - apply Forall_forall. intros k Hk. apply in_seq in Hk. lia.
Qed.

Lemma lex_lt_grid (ks js : list nat) :
  StronglySorted lt ks -> StronglySorted lt js ->
  StronglySorted lex_lt (list_prod ks js).
Proof.
  intros Hks Hjs. induction Hks as [| i ks Hs IH Hall]; simpl.
  - constructor.
  - apply StronglySorted_app; [apply lex_lt_row, Hjs | exact IH |].
    intros [a b] [c d] Ha Hc. apply in_map_iff in Ha.
    destruct Ha as (j & E & _). inversion E; subst.
    apply in_prod_iff in Hc. destruct Hc as [Hc _].
    rewrite Forall_forall in Hall. left. simpl. apply Hall, Hc.
Qed.

Lemma index_pairs_sorted (N : nat) : StronglySorted lex_lt (index_pairs N).
Proof. apply lex_lt_grid; apply StronglySorted_seq. Qed.

(** C7.  The edge sequence is a function of the matrix and the threshold
    alone: two calls that agree on them emit the same end points, labels
    and pen widths in the same order, whatever else they are given; and
    that order is the index order, source ascending, then target
    ascending. *)
Theorem edge_sequence_deterministic_in_index_order :
  forall (A : matrix) (t : Q)
         (labels1 labels2 : option (list string))
         (config1 config2 : option DiagramConfig)
         (fmt1 title1 fmt2 title2 : option string)
         (threshold1 threshold2 : option Q),
    square A -> (0 < shape0 A)%nat ->
    well_configured gv config1 fmt1 ->
    well_configured gv config2 fmt2 ->
    resolve_threshold (resolved config1) threshold1 = t ->
    resolve_threshold (resolved config2) threshold2 = t ->
    exists g1 g2 kept,
      render A labels1 config1 fmt1 title1 threshold1 = Ok g1 /\
      render A labels2 config2 fmt2 title2 threshold2 = Ok g2 /\
      map edge_key (edges g1) = map edge_key (edges g2) /\
      map (fun e => (e_tail e, e_head e)) (edges g1) =
      map (fun ij => (str (fst ij), str (snd ij))) kept /\
      StronglySorted lex_lt kept /\
      (forall i j, In (i, j) kept <->
                   (i < shape0 A)%nat /\ (j < shape0 A)%nat /\
                   t <= entry A i j).
Proof.
  intros A t labels1 labels2 config1 config2 fmt1 title1 fmt2 title2
         threshold1 threshold2 Hsq HN Hpal1 Hpal2 Ht1 Ht2.
  destruct (render_result A labels1 config1 fmt1 title1 threshold1
              Hsq HN Hpal1) as (mp1 & g1 & Hmp1 & Hg1 & _ & He1).
  destruct (render_result A labels2 config2 fmt2 title2 threshold2
              Hsq HN Hpal2) as (mp2 & g2 & Hmp2 & Hg2 & _ & He2).
  assert (mp2 = mp1) by congruence. subst mp2.
  rewrite Ht1 in He1. rewrite Ht2 in He2.
  exists g1, g2, (filter (drawn A t) (index_pairs (shape0 A))).
  split; [exact Hg1 |]. split; [exact Hg2 |]. split; [| split; [| split]].
  - rewrite He1, He2. unfold edge_list. rewrite !map_map. reflexivity.
  - rewrite He1. apply edge_list_ends.
  - apply StronglySorted_filter, index_pairs_sorted.
  - intros i j. rewrite filter_In, in_index_pairs, drawn_iff. tauto.
Qed.

End RenderResult.

Section RenderOutcomes.

Import Renderer.
Local Open Scope Q_scope.

Variable gv : graphviz_module.

(** Without the [graphviz] package the renderer raises [ImportError],
    whatever it is given. *)
Lemma render_without_graphviz_raises_ImportError :
  forall (A : matrix) (state_labels : option (list string))
         (config : option DiagramConfig) (fmt title : option string)
         (prob_threshold : option Q),
    render_state_diagram None A state_labels config fmt title prob_threshold
    = Raise ImportError.
Proof. reflexivity. Qed.

(** An engine or a format graphviz does not know makes the renderer raise
    [ValueError], before any node is added. *)
Theorem render_unknown_engine_or_format_raises_ValueError :
  forall (A : matrix) (state_labels : option (list string))
         (config : option DiagramConfig) (fmt title : option string)
         (prob_threshold : option Q),
    verify_engine gv (Config.layout_engine (resolve_config config)) = false \/
    verify_format gv (or_str fmt (Config.output_format (resolve_config config)))
    = false ->
    render_state_diagram (Some gv) A state_labels config fmt title
                         prob_threshold
    = Raise ValueError.
Proof.
  intros A state_labels config fmt title prob_threshold H.
  unfold render_state_diagram. cbv zeta. unfold Digraph_init.
  destruct H as [H | H]; rewrite H; [| rewrite andb_false_r]; reflexivity.
Qed.

(** With an empty palette the first node makes [i % len(state_colors)]
    raise [ZeroDivisionError]. *)
Theorem render_empty_palette_raises_ZeroDivisionError :
  forall (A : matrix) (state_labels : option (list string))
         (config : option DiagramConfig) (fmt title : option string)
         (prob_threshold : option Q),
    Config.state_colors (resolve_config config) = [] ->
    verify_engine gv (Config.layout_engine (resolve_config config)) = true ->
    verify_format gv (or_str fmt (Config.output_format (resolve_config config)))
    = true ->
    resolve_labels A state_labels <> [] ->
    render_state_diagram (Some gv) A state_labels config fmt title
                         prob_threshold
    = Raise ZeroDivisionError.
Proof.
  intros A state_labels config fmt title prob_threshold Hpal Heng Hfmt Hlab.
  unfold render_state_diagram. cbv zeta. unfold Digraph_init.
  rewrite Heng, Hfmt. simpl bind.
  destruct (resolve_labels A state_labels) as [| l ls]; [congruence |].
  unfold enumerate. simpl. unfold palette_color. rewrite Hpal. reflexivity.
Qed.

(** Every pen width is at most [4.0], the width of the largest weight. *)
Theorem penwidth_at_most_four :
  forall (A : matrix) (state_labels : option (list string))
         (config : option DiagramConfig) (fmt title : option string)
         (prob_threshold : option Q),
    square A -> (0 < shape0 A)%nat ->
    well_configured gv config fmt ->
    exists mp g,
      max_prob_of A = Ok mp /\
      render_state_diagram (Some gv) A state_labels config fmt title
                           prob_threshold = Ok g /\
      (forall e, In e (edges g) -> e_penwidth e <= 4) /\
      width mp mp == 4.
Proof.
  intros A state_labels config fmt title prob_threshold Hsq HN Hwc.
  destruct (render_result gv A state_labels config fmt title prob_threshold
              Hsq HN Hwc) as (mp & g & Hmp & Hg & _ & He).
  pose proof (max_prob_of_pos A mp Hmp) as Hpos.
  assert (Htop : width mp mp == 4).
  { unfold width.
    assert (E : raw_width mp mp == 4).
    { unfold raw_width. field. intro Hz. rewrite Hz in Hpos. discriminate Hpos. }
    rewrite (round_comp 2 _ _ E). reflexivity. }
  exists mp, g. split; [exact Hmp |]. split; [exact Hg |]. split; [| exact Htop].
  intros e Hin. rewrite He in Hin. apply in_edge_list in Hin.
  destruct Hin as (i & j & Hi & Hj & _ & ->). simpl.
  rewrite <- Htop. apply width_le; [exact Hpos |].
  apply entry_le_max_prob; assumption.
Qed.

(** A self-loop is drawn in the palette colour of its state, every other
    edge in [config.edge_color]; the font colour is the same, and the
    label is the weight to three decimals. *)
Theorem edge_colours_follow_the_palette :
  forall (A : matrix) (state_labels : option (list string))
         (config : option DiagramConfig) (fmt title : option string)
         (prob_threshold : option Q),
    square A -> (0 < shape0 A)%nat ->
    well_configured gv config fmt ->
    exists g,
      render_state_diagram (Some gv) A state_labels config fmt title
                           prob_threshold = Ok g /\
      forall e, In e (edges g) ->
        exists i j, (i < shape0 A)%nat /\ (j < shape0 A)%nat /\
          e_tail e = str i /\ e_head e = str j /\
          e_label e = round_ (entry A i j) 3 /\
          e_fontcolor e = e_color e /\
          (i = j -> e_color e = color_at (resolve_config config) i) /\
          (i <> j -> e_color e = Config.edge_color (resolve_config config)).
Proof.
  intros A state_labels config fmt title prob_threshold Hsq HN Hwc.
  destruct (render_result gv A state_labels config fmt title prob_threshold
              Hsq HN Hwc) as (mp & g & _ & Hg & _ & He).
  exists g. split; [exact Hg |].
  intros e Hin. rewrite He in Hin. apply in_edge_list in Hin.
  destruct Hin as (i & j & Hi & Hj & _ & ->). exists i, j. simpl.
  repeat split; try assumption.
  - intros ->. rewrite Nat.eqb_refl. reflexivity.
  - intro Hne. apply Nat.eqb_neq in Hne. rewrite Hne. reflexivity.
Qed.

Lemma default_labels_enumerated (config : DiagramConfig) (k n : nat) :
  map (fun il => (n_name (node_of config il), n_label (node_of config il)))
      (enumerate_from k (map (fun i => ("S" ++ str i)%string) (seq k n))) =
  map (fun i => (str i, ("S" ++ str i)%string)) (seq k n).
Proof.
  revert k. induction n as [| n IH]; intro k; simpl; [reflexivity |].
  rewrite IH. reflexivity.
Qed.

(** Without [state_labels] the nodes are named [0 .. N-1] and labelled
    [S0 .. S(N-1)], one node per state. *)
Theorem default_labels_number_the_states :
  forall (A : matrix) (config : option DiagramConfig)
         (fmt title : option string) (prob_threshold : option Q),
    square A -> (0 < shape0 A)%nat ->
    well_configured gv config fmt ->
    exists g,
      render_state_diagram (Some gv) A None config fmt title prob_threshold
      = Ok g /\
      map (fun nd => (n_name nd, n_label nd)) (nodes g) =
      map (fun i => (str i, ("S" ++ str i)%string)) (range (shape0 A)).
Proof.
  intros A config fmt title prob_threshold Hsq HN Hwc.
  destruct (render_result gv A None config fmt title prob_threshold
              Hsq HN Hwc) as (mp & g & _ & Hg & Hn & _).
  exists g. split; [exact Hg |]. rewrite Hn.
  unfold resolve_labels, if_not_none, enumerate, range.
  rewrite map_map. apply default_labels_enumerated.
Qed.

End RenderOutcomes.

Section RenderGraph.

Import Renderer.
Local Open Scope Q_scope.

Variable gv : graphviz_module.

Lemma for_app (X S : Type) (body : X -> S -> result S) (xs ys : list X) (s : S) :
  for_ (xs ++ ys) body s = bind (for_ xs body s) (for_ ys body).
Proof.
  revert s. induction xs as [| x xs IH]; intro s; simpl; [reflexivity |].
  destruct (body x s) as [s' | e]; simpl; [apply IH | reflexivity].
Qed.

Lemma square_wide (A : matrix) : square A -> wide A.
Proof.
  unfold square, wide. apply Forall_impl. intros row H. rewrite H. lia.
Qed.

Lemma getitem_in_row (A : matrix) (i j : nat) (row : list Q) :
  nth_error A i = Some row -> (j < List.length row)%nat ->
  getitem A i j = Ok (entry A i j).
Proof.
  intros Ei Hj. unfold getitem, entry. rewrite Ei.
  rewrite (nth_error_nth _ _ [] Ei).
  destruct (nth_error row j) as [p |] eqn:Ej.
  - rewrite (nth_error_nth _ _ 0 Ej). reflexivity.
  - apply nth_error_None in Ej. lia.
Qed.

Lemma getitem_past_row (A : matrix) (i j : nat) (row : list Q) :
  nth_error A i = Some row -> (List.length row <= j)%nat ->
  getitem A i j = Raise IndexError.
Proof.
  intros Ei Hj. unfold getitem. rewrite Ei.
  apply nth_error_None in Hj. rewrite Hj. reflexivity.
Qed.

Lemma edge_step_in_row (A : matrix) (config : DiagramConfig) (t mp : Q)
      (i j : nat) (row : list Q) (dot : Digraph) :
  nth_error A i = Some row -> (j < List.length row)%nat ->
  Config.state_colors config <> [] -> 0 < mp ->
  edge_step A config t mp i j dot =
  Ok (extend dot (if drawn A t (i, j)
                  then [Edge (edge_of A config mp i j)] else [])).
Proof.
  intros Ei Hj Hpal Hmp. unfold edge_step, drawn. simpl fst; simpl snd.
  rewrite (getitem_in_row A i j row Ei Hj). simpl.
  destruct (Qltb (entry A i j) t); simpl.
  - rewrite extend_nil. reflexivity.
  - rewrite (penwidth_ok _ _ Hmp). simpl.
    unfold edge_of. destruct (Nat.eqb i j).
    + rewrite (palette_color_ok config i Hpal). reflexivity.
    + reflexivity.
Qed.

Lemma row_of_wide (A : matrix) (i : nat) :
  wide A -> (i < shape0 A)%nat ->
  exists row, nth_error A i = Some row /\ (shape0 A <= List.length row)%nat.
Proof.
  intros Hw Hi. destruct (nth_error A i) as [row |] eqn:Ei.
  - exists row. split; [reflexivity |].
    unfold wide in Hw. rewrite Forall_forall in Hw.
    apply Hw. eapply nth_error_In. exact Ei.
  - apply nth_error_None in Ei. unfold shape0 in Hi. lia.
Qed.

Lemma edge_loops_wide (A : matrix) (config : DiagramConfig) (t mp : Q)
      (dot : Digraph) :
  wide A -> Config.state_colors config <> [] -> 0 < mp ->
  for_ (range (shape0 A))
       (fun i => for_ (range (shape0 A)) (edge_step A config t mp i)) dot =
  Ok (extend dot (map Edge (edge_list A config t mp))).
Proof.
  intros Hw Hpal Hmp.
  set (g := fun ij : nat * nat =>
              if drawn A t ij then [Edge (edge_of A config mp (fst ij) (snd ij))]
              else []).
  rewrite for_pure
    with (f := fun i s => extend s (flat_map (fun j => g (i, j)) (range (shape0 A)))).
  - rewrite fold_left_extend. f_equal. f_equal.
    unfold edge_list, index_pairs. subst g. cbv beta.
    rewrite (flat_map_grid _ (drawn A t)
               (fun ij => Edge (edge_of A config mp (fst ij) (snd ij)))).
    rewrite map_map. reflexivity.
  - intros i s Hi. apply in_range in Hi.
    destruct (row_of_wide A i Hw Hi) as (row & Ei & Hlen).
    rewrite for_pure with (f := fun j s => extend s (g (i, j))).
    + rewrite fold_left_extend. reflexivity.
    + intros j s' Hj. apply in_range in Hj. subst g. cbv beta.
      apply (edge_step_in_row A config t mp i j row); try assumption. lia.
Qed.

Lemma concat_nonempty_wide (A : matrix) :
  wide A -> (0 < shape0 A)%nat -> List.concat A <> [].
Proof.
  unfold wide, shape0. destruct A as [| row A']; simpl; [lia |].
  intros Hw _. inversion Hw as [| ? ? Hlen _]; subst.
  destruct row; simpl in *; [lia | discriminate].
Qed.

(** The graph object a well-configured call returns for an array with
    entries, once the edge loops stay inside it. *)
Lemma render_graph (A : matrix) (state_labels : option (list string))
      (config : option DiagramConfig) (fmt title : option string)
      (prob_threshold : option Q) :
  wide A -> (0 < shape0 A)%nat ->
  well_configured gv config fmt ->
  exists mp,
    max_prob_of A = Ok mp /\
    render_state_diagram (Some gv) A state_labels config fmt title
                         prob_threshold =
    Ok {| g_name := "StateDiagram";
          g_comment := or_str title (Config.title (resolve_config config));
          g_format := or_str fmt (Config.output_format (resolve_config config));
          g_engine := Config.layout_engine (resolve_config config);
          g_body :=
            graph_attrs (resolve_config config)
                        (or_str title (Config.title (resolve_config config)))
            :: map Node (map (node_of (resolve_config config))
                             (enumerate (resolve_labels A state_labels)))
            ++ map Edge (edge_list A (resolve_config config)
                           (resolve_threshold (resolve_config config)
                                              prob_threshold) mp) |}.
Proof.
  intros Hw HN (Hpal & Heng & Hfmt).
  destruct (max_prob_of_ok A (concat_nonempty_wide A Hw HN)) as [mp Hmp].
  pose proof (max_prob_of_pos A mp Hmp) as Hpos.
  exists mp. split; [exact Hmp |].
  unfold render_state_diagram. cbv zeta.
  unfold Digraph_init. rewrite Heng, Hfmt. simpl bind.
  rewrite (node_loop_ok (resolve_config config) _ _ Hpal). simpl bind.
  rewrite Hmp. simpl bind.
  rewrite (edge_loops_wide A (resolve_config config) _ mp _ Hw Hpal Hpos).
  simpl bind. unfold extend, append. simpl. reflexivity.
Qed.

Lemma nodes_of_body (name comment format engine : string)
      (attrs : list (string * string))
      (ns : list node_stmt) (es : list edge_stmt) :
  nodes {| g_name := name; g_comment := comment; g_format := format;
           g_engine := engine;
           g_body := GraphAttr attrs :: map Node ns ++ map Edge es |} = ns /\
  edges {| g_name := name; g_comment := comment; g_format := format;
           g_engine := engine;
           g_body := GraphAttr attrs :: map Node ns ++ map Edge es |} = es.
Proof.
  unfold nodes, edges. simpl.
  rewrite !flat_map_app, nodes_of_Node, nodes_of_Edge, edges_of_Node,
    edges_of_Edge, app_nil_r. split; reflexivity.
Qed.



(** An array with fewer columns than rows is not rejected up front: the
    nodes are added, and the first row of the edge loop runs off its end
    and raises [IndexError]. *)
Theorem tall_array_raises_IndexError :
  forall (A : matrix) (M : nat) (state_labels : option (list string))
         (config : option DiagramConfig) (fmt title : option string)
         (prob_threshold : option Q),
    columns M A -> (0 < M)%nat -> (M < shape0 A)%nat ->
    well_configured gv config fmt ->
    render_state_diagram (Some gv) A state_labels config fmt title
                         prob_threshold = Raise IndexError.
Proof.
  intros A M state_labels config fmt title prob_threshold Hcol HM HN
         (Hpal & Heng & Hfmt).
  destruct (nth_error A 0) as [row |] eqn:Erow;
    [| apply nth_error_None in Erow; unfold shape0 in HN; lia].
  assert (Hrow : List.length row = M).
  { unfold columns in Hcol. rewrite Forall_forall in Hcol.
    apply Hcol. eapply nth_error_In. exact Erow. }
  assert (Hne : List.concat A <> []).
  { destruct row as [| x row']; [simpl in Hrow; lia |].
    intro Hempty.
    assert (Hin : In x (List.concat A)).
    { apply in_concat. exists (x :: row'). split.
      - eapply nth_error_In. exact Erow.
      - left. reflexivity. }
    rewrite Hempty in Hin. exact Hin. }
  destruct (max_prob_of_ok _ Hne) as [mp Hmp].
  pose proof (max_prob_of_pos _ mp Hmp) as Hpos.
  unfold render_state_diagram. cbv zeta.
  unfold Digraph_init. rewrite Heng, Hfmt. simpl bind.
  rewrite (node_loop_ok (resolve_config config) _ _ Hpal). simpl bind.
  rewrite Hmp. simpl bind.
  set (N := shape0 A) in *.
  assert (EN : range N = (0 :: seq 1 (N - 1))%nat).
  { unfold range. destruct N as [| n]; [lia |]. simpl.
    rewrite Nat.sub_0_r. reflexivity. }
  rewrite EN at 1. cbn [for_].
  assert (Einner : range N = (seq 0 M ++ M :: seq (S M) (N - S M))%list).
  { unfold range. replace N with (M + S (N - S M))%nat at 1 by lia.
    rewrite seq_app. reflexivity. }
  rewrite Einner at 1. rewrite for_app.
  rewrite for_pure
    with (f := fun j s =>
                 extend s (if drawn A
                                    (resolve_threshold (resolve_config config)
                                                       prob_threshold) (0%nat, j)
                           then [Edge (edge_of A (resolve_config config)
                                               mp 0 j)]
                           else [])).
  - simpl bind. cbn [for_]. unfold edge_step at 1.
    rewrite (getitem_past_row A 0 M row Erow) by lia.
    reflexivity.
  - intros j s Hj. apply in_seq in Hj.
    apply (edge_step_in_row A _ _ mp 0 j row); try assumption. lia.
Qed.

(** An array without entries, of shape [(0, M)] or [(N, 0)], makes
    [A.max()] raise [ValueError] once the nodes have been added. *)
Theorem zero_size_array_raises_ValueError :
  forall (A : matrix) (state_labels : option (list string))
         (config : option DiagramConfig) (fmt title : option string)
         (prob_threshold : option Q),
    List.concat A = [] ->
    well_configured gv config fmt ->
    render_state_diagram (Some gv) A state_labels config fmt title
                         prob_threshold = Raise ValueError.
Proof.
  intros A state_labels config fmt title prob_threshold Hempty
         (Hpal & Heng & Hfmt).
  unfold render_state_diagram. cbv zeta.
  unfold Digraph_init. rewrite Heng, Hfmt. simpl bind.
  rewrite (node_loop_ok (resolve_config config) _ _ Hpal). simpl bind.
  unfold max_prob_of, amax. rewrite Hempty. reflexivity.
Qed.

(** The returned graph is named [StateDiagram] and laid out by the engine
    of the configuration; a format or a title given as the empty string
    counts as not given; the body is the attribute statement, carrying the
    title as label, then every node, then every edge. *)
Theorem graph_header_and_statement_order :
  forall (A : matrix) (state_labels : option (list string))
         (config : option DiagramConfig) (fmt title : option string)
         (prob_threshold : option Q),
    square A -> (0 < shape0 A)%nat ->
    well_configured gv config fmt ->
    exists g,
      render_state_diagram (Some gv) A state_labels config fmt title
                           prob_threshold = Ok g /\
      g_name g = "StateDiagram"%string /\
      g_engine g = Config.layout_engine (resolve_config config) /\
      g_format g = match fmt with
                   | Some (String c s) => String c s
                   | _ => Config.output_format (resolve_config config)
                   end /\
      g_comment g = match title with
                    | Some (String c s) => String c s
                    | _ => Config.title (resolve_config config)
                    end /\
      g_body g =
      (GraphAttr [("rankdir", "LR");
                  ("bgcolor", Config.background_color (resolve_config config));
                  ("label", g_comment g);
                  ("labelloc", "t");
                  ("fontsize", "18");
                  ("fontname", Config.font_family (resolve_config config));
                  ("pad", "0.5")]%string
       :: map Node (nodes g) ++ map Edge (edges g))%list.
Proof.
  intros A state_labels config fmt title prob_threshold Hsq HN Hwc.
  destruct (render_graph A state_labels config fmt title prob_threshold
              (square_wide A Hsq) HN Hwc) as (mp & _ & Hg).
  eexists. split; [exact Hg |].
  unfold graph_attrs.
  destruct (nodes_of_body "StateDiagram"
              (or_str title (Config.title (resolve_config config)))
              (or_str fmt (Config.output_format (resolve_config config)))
              (Config.layout_engine (resolve_config config))
              [("rankdir", "LR");
               ("bgcolor", Config.background_color (resolve_config config));
               ("label", or_str title (Config.title (resolve_config config)));
               ("labelloc", "t");
               ("fontsize", "18");
               ("fontname", Config.font_family (resolve_config config));
               ("pad", "0.5")]%string
              (map (node_of (resolve_config config))
                   (enumerate (resolve_labels A state_labels)))
              (edge_list A (resolve_config config)
                 (resolve_threshold (resolve_config config) prob_threshold) mp))
    as [En Ee].
  rewrite En, Ee. cbn [g_name g_engine g_format g_comment g_body].
  split; [reflexivity |]. split; [reflexivity |]. split; [| split].
  - destruct fmt as [[| c s] |]; reflexivity.
  - destruct title as [[| c s] |]; reflexivity.
  - reflexivity.
Qed.

(** The labels are not checked against the array: there is one node per
    label given, named by its position, however many states the array
    has, and the edges are the ones drawn without labels. *)
Theorem one_node_per_label_given :
  forall (A : matrix) (labels : list string)
         (config : option DiagramConfig) (fmt title : option string)
         (prob_threshold : option Q),
    square A -> (0 < shape0 A)%nat ->
    well_configured gv config fmt ->
    exists g g0,
      render_state_diagram (Some gv) A (Some labels) config fmt title
                           prob_threshold = Ok g /\
      render_state_diagram (Some gv) A None config fmt title
                           prob_threshold = Ok g0 /\
      List.length (nodes g) = List.length labels /\
      (forall i label, nth_error labels i = Some label ->
         exists nd, nth_error (nodes g) i = Some nd /\
                    n_name nd = str i /\ n_label nd = label) /\
      edges g = edges g0.
Proof.
  intros A labels config fmt title prob_threshold Hsq HN Hwc.
  destruct (render_result gv A (Some labels) config fmt title prob_threshold
              Hsq HN Hwc) as (mp & g & Hmp & Hg & Hn & He).
  destruct (render_result gv A None config fmt title prob_threshold
              Hsq HN Hwc) as (mp0 & g0 & Hmp0 & Hg0 & _ & He0).
  assert (mp0 = mp) by congruence. subst mp0.
  exists g, g0. split; [exact Hg |]. split; [exact Hg0 |].
  simpl resolve_labels in Hn. split; [| split].
  - rewrite Hn, length_map. unfold enumerate. apply length_enumerate_from.
  - intros i label Hi. exists (node_of (resolve_config config) (i, label)).
    split; [| split; reflexivity].
    rewrite Hn, nth_error_map. unfold enumerate.
    rewrite nth_error_enumerate_from, Hi. reflexivity.
  - rewrite He, He0. reflexivity.
Qed.

Lemma filter_all (X : Type) (f : X -> bool) (l : list X) :
  (forall x, In x l -> f x = true) -> filter f l = l.
Proof.
  induction l as [| x l IH]; simpl; intro H; [reflexivity |].
  rewrite (H x (or_introl eq_refl)), IH; [reflexivity |].
  intros y Hy. apply H. right. exact Hy.
Qed.

Lemma filter_none (X : Type) (f : X -> bool) (l : list X) :
  (forall x, In x l -> f x = false) -> filter f l = [].
Proof.
  induction l as [| x l IH]; simpl; intro H; [reflexivity |].
  rewrite (H x (or_introl eq_refl)). apply IH.
  intros y Hy. apply H. right. exact Hy.
Qed.

(** A threshold no entry falls below gives the complete graph, all
    [N * N] edges in index order, the edges of weight zero included; a
    threshold above every entry gives no edge at all. *)
Theorem threshold_extremes_draw_all_or_nothing :
  forall (A : matrix) (state_labels : option (list string))
         (config : option DiagramConfig) (fmt title : option string)
         (prob_threshold : option Q),
    square A -> (0 < shape0 A)%nat ->
    well_configured gv config fmt ->
    exists g,
      render_state_diagram (Some gv) A state_labels config fmt title
                           prob_threshold = Ok g /\
      ((forall i j, (i < shape0 A)%nat -> (j < shape0 A)%nat ->
          resolve_threshold (resolve_config config) prob_threshold
          <= entry A i j) ->
       edge_ends g = map ends_of (index_pairs (shape0 A)) /\
       List.length (edges g) = (shape0 A * shape0 A)%nat) /\
      ((forall i j, (i < shape0 A)%nat -> (j < shape0 A)%nat ->
          entry A i j
          < resolve_threshold (resolve_config config) prob_threshold) ->
       edges g = []).
Proof.
  intros A state_labels config fmt title prob_threshold Hsq HN Hwc.
  destruct (render_result gv A state_labels config fmt title prob_threshold
              Hsq HN Hwc) as (mp & g & _ & Hg & _ & He).
  exists g. split; [exact Hg |]. split.
  - intro Hall.
    assert (Hf : filter (drawn A (resolve_threshold (resolve_config config)
                                                     prob_threshold))
                        (index_pairs (shape0 A)) = index_pairs (shape0 A)).
    { apply filter_all. intros [i j] Hin. apply in_index_pairs in Hin.
      apply drawn_iff. apply Hall; tauto. }
    split.
    + unfold edge_ends. rewrite He, edge_list_ends, Hf. reflexivity.
    + rewrite He, edge_list_length, Hf. unfold index_pairs, range.
      rewrite length_prod, !length_seq. reflexivity.
  - intro Hnone. rewrite He. unfold edge_list.
    rewrite filter_none; [reflexivity |].
    intros [i j] Hin. apply in_index_pairs in Hin.
    unfold drawn. simpl. apply negb_false_iff. apply Qltb_true_iff.
    apply Hnone; tauto.
Qed.

End RenderGraph.

Section NormaliseRows.

Import Demo.
Local Open Scope Q_scope.

Lemma map2_length (X Y Z' : Type) (f : X -> Y -> Z') (xs : list X) (ys : list Y) :
  List.length xs = List.length ys ->
  List.length (map2 f xs ys) = List.length xs.
Proof.
  revert ys. induction xs as [| x xs IH]; intros [| y ys] H; simpl in *;
    try discriminate; [reflexivity |]. rewrite IH by lia. reflexivity.
Qed.



Lemma normalise_rows_length (F : Type) (arith : Arith F) (m : list (list F)) :
  List.length (_normalise_rows m) = List.length m.
Proof.
  unfold _normalise_rows, div_rows. apply map2_length.
  unfold replace_zero, row_sums. rewrite !length_map. reflexivity.
Qed.


Lemma fold_add_scaled (c : Q) (v : list Q) (a : Q) :
  fold_left Qplus (map (fun x => x / c) v) (a / c) == (fold_left Qplus v a) / c.
Proof.
  revert a. induction v as [| x v IH]; intro a; simpl.
  - reflexivity.
  - assert (E : a / c + x / c == (a + x) / c).
    { unfold Qdiv. ring. }
    assert (P : forall u w l, u == w -> fold_left Qplus l u == fold_left Qplus l w).
    { intros u w l. revert u w. induction l as [| y l IHl]; intros u w H; simpl.
      - exact H.
      - apply IHl. rewrite H. reflexivity. }
    rewrite (P _ _ _ E). apply IH.
Qed.

Lemma vsum_scaled (c : Q) (v : list Q) :
  vsum (map (fun x => x / c) v) == vsum v / c.
Proof.
  unfold vsum. simpl.
  assert (E : 0 == 0 / c) by (unfold Qdiv; ring).
  assert (P : forall u w l, u == w -> fold_left Qplus l u == fold_left Qplus l w).
  { intros u w l. revert u w. induction l as [| y l IHl]; intros u w H; simpl.
    - exact H.
    - apply IHl. rewrite H. reflexivity. }
  rewrite (P _ _ _ E). apply fold_add_scaled.
Qed.



End NormaliseRows.

Section SimulateTraining.

Import Demo.

Context {F : Type} {arith : Arith F}.
Variable exp : F -> F.
Variable round_ndigits : F -> nat -> F.
Variable rng : Type.
Variable default_rng : option Z -> rng.
Variable dirichlet : list F -> rng -> list F * rng.
Variable dirichlet_rows : list F -> nat -> rng -> list (list F) * rng.
Variable random : rng -> F * rng.
Variable normal_matrix : F -> F -> nat * nat -> rng -> list (list F) * rng.
Variable normal_vector : F -> F -> nat -> rng -> list F * rng.
Variable uniform : F -> F -> rng -> F * rng.

Abbreviation step :=
  (training_step exp round_ndigits normal_matrix normal_vector uniform).
Abbreviation simulate :=
  (_simulate_training exp round_ndigits default_rng dirichlet dirichlet_rows
                      random normal_matrix normal_vector uniform).

(** One pass through the loop body appends exactly one record, numbered
    with the loop variable. *)
Lemma training_step_appends (At Bt : list (list F)) (pt : list F) (i : Z)
      (st : @loop_state F) (g : rng) :
  map (@it_iteration F) (ls_iterations (fst (step At Bt pt i st g))) =
  (map (@it_iteration F) (ls_iterations st) ++ [i])%list.
Proof.
  unfold training_step, sbind, ret.
  destruct (normal_matrix _ _ (shape2 (ls_A st)) g) as [nA g1].
  destruct (normal_matrix _ _ (shape2 (ls_B st)) g1) as [nB g2].
  destruct (normal_vector _ _ _ g2) as [npi g3].
  destruct (uniform _ _ g3) as [u g4].
  simpl. rewrite map_app. reflexivity.
Qed.

Lemma sfor_appends (At Bt : list (list F)) (pt : list F) (ks : list Z)
      (st : @loop_state F) (g : rng) :
  map (@it_iteration F)
      (ls_iterations (fst (sfor ks (step At Bt pt) st g))) =
  (map (@it_iteration F) (ls_iterations st) ++ ks)%list.
Proof.
  revert st g. induction ks as [| k ks IH]; intros st g; simpl.
  - unfold ret. simpl. rewrite app_nil_r. reflexivity.
  - unfold sbind.
    pose proof (training_step_appends At Bt pt k st g) as Hk.
    destruct (step At Bt pt k st g) as [st' g'].
    simpl in Hk. rewrite IH, Hk, <- app_assoc. reflexivity.
Qed.

Lemma range_from_one (n : Z) :
  range_from 1 (n + 1) = map Z.of_nat (seq 1 (Z.to_nat n)).
Proof.
  unfold range_from. replace (n + 1 - 1)%Z with n by lia.
  rewrite <- seq_shift, map_map. apply map_ext. intro k. lia.
Qed.

Lemma of_nat_seq_sorted (a n : nat) :
  StronglySorted Z.lt (map Z.of_nat (seq a n)).
Proof.
  revert a. induction n as [| n IH]; intro a; simpl; constructor.
  - apply IH.
  - apply Forall_forall. intros k Hk. apply in_map_iff in Hk.
    destruct Hk as (j & <- & Hj). apply in_seq in Hj. lia.
Qed.

Lemma NoDup_map_inj (X Y : Type) (f : X -> Y) (l : list X) :
  (forall a b, f a = f b -> a = b) -> NoDup l -> NoDup (map f l).
Proof.
  intros Hinj Hl. induction Hl as [| x l Hx Hl IH]; simpl; constructor.
  - intro Hin. apply in_map_iff in Hin. destruct Hin as (y & E & Hy).
    apply Hinj in E. subst. contradiction.
  - exact IH.
Qed.

Lemma simulate_iterations (n_states n_obs : nat) (n_iterations : Z)
      (seed : option Z) :
  map (@it_iteration F) (simulate n_states n_obs n_iterations seed) =
  map Z.of_nat (seq 1 (Z.to_nat n_iterations)).
Proof.
  unfold _simulate_training, sbind, ret, _random_transition_matrix,
    _random_emission_matrix, _random_initial.
  destruct (dirichlet_rows _ n_states (default_rng seed)) as [At g1].
  destruct (dirichlet_rows _ n_states g1) as [Bt g2].
  destruct (dirichlet _ g2) as [pt g3].
  destruct (dirichlet_rows _ n_states g3) as [A g4].
  destruct (dirichlet_rows _ n_states g4) as [B g5].
  destruct (dirichlet _ g5) as [p g6].
  destruct (random g6) as [r g7].
  match goal with
  | |- context [sfor ?ks ?body ?st ?g] =>
      pose proof (sfor_appends At Bt pt ks st g) as H;
      destruct (sfor ks body st g) as [st' g']
  end.
  simpl in *. rewrite H. apply range_from_one.
Qed.

(** C8.  The records [_simulate_training] returns are numbered exactly
    [1, 2, ..., n_iterations], in this order: increasing, each at least 1,
    and without repetition (none at all when [n_iterations <= 0]). *)
Theorem simulated_iterations_numbered_from_one :
  forall (n_states n_obs : nat) (n_iterations : Z) (seed : option Z),
    let indices :=
      map (@it_iteration F)
          (_simulate_training exp round_ndigits default_rng dirichlet
             dirichlet_rows random normal_matrix normal_vector uniform
             n_states n_obs n_iterations seed) in
    indices = map Z.of_nat (seq 1 (Z.to_nat n_iterations)) /\
    List.length indices = Z.to_nat n_iterations /\
    (forall k, In k indices <-> (1 <= k <= n_iterations)%Z) /\
    StronglySorted Z.lt indices /\
    NoDup indices.
Proof.
  intros n_states n_obs n_iterations seed indices.
  assert (E : indices = map Z.of_nat (seq 1 (Z.to_nat n_iterations)))
    by apply simulate_iterations.
  split; [exact E |]. rewrite E. split; [| split; [| split]].
  - rewrite length_map, length_seq. reflexivity.
  - intro k. rewrite in_map_iff. split.
    + intros (j & Ej & Hj). apply in_seq in Hj. lia.
    + intros Hk. exists (Z.to_nat k). split; [lia |]. apply in_seq. lia.
  - apply of_nat_seq_sorted.
  - apply NoDup_map_inj; [| apply seq_NoDup].
    intros a b Hab. lia.
Qed.

End SimulateTraining.

Section SimulationShapes.

Import Demo.

Context {F : Type} {arith : Arith F}.
Variable exp : F -> F.
Variable round_ndigits : F -> nat -> F.
Variable rng : Type.
Variable default_rng : option Z -> rng.
Variable dirichlet : list F -> rng -> list F * rng.
Variable dirichlet_rows : list F -> nat -> rng -> list (list F) * rng.
Variable random : rng -> F * rng.
Variable normal_matrix : F -> F -> nat * nat -> rng -> list (list F) * rng.
Variable normal_vector : F -> F -> nat -> rng -> list F * rng.
Variable uniform : F -> F -> rng -> F * rng.

(** The draws have the shape numpy gives them. *)
Hypothesis dirichlet_shape :
  forall alpha g, List.length (fst (dirichlet alpha g)) = List.length alpha.
Hypothesis dirichlet_rows_shape :
  forall alpha size g,
    shaped size (List.length alpha) (fst (dirichlet_rows alpha size g)).
Hypothesis normal_matrix_shape :
  forall loc scale r c g, shaped r c (fst (normal_matrix loc scale (r, c) g)).
Hypothesis normal_vector_shape :
  forall loc scale n g, List.length (fst (normal_vector loc scale n g)) = n.

Lemma map2_length_same (X Y Z' : Type) (f : X -> Y -> Z') (xs : list X)
      (ys : list Y) (n : nat) :
  List.length xs = n -> List.length ys = n -> List.length (map2 f xs ys) = n.
Proof.
  intros Hx Hy. rewrite map2_length; [exact Hx | congruence].
Qed.

Lemma map2_Forall (X Y Z' : Type) (f : X -> Y -> Z') (P : X -> Prop)
      (R : Z' -> Prop) (xs : list X) (ys : list Y) :
  (forall x y, P x -> In y ys -> R (f x y)) ->
  Forall P xs -> Forall R (map2 f xs ys).
Proof.
  intros Hf Hxs. revert ys Hf.
  induction Hxs as [| x xs Hx _ IH]; intros [| y ys] Hf; simpl;
    try constructor.
  - apply Hf; [exact Hx | left; reflexivity].
  - apply IH. intros a b Ha Hb. apply Hf; [exact Ha | right; exact Hb].
Qed.

Lemma shaped_hd (r c : nat) (m : list (list F)) :
  (0 < r)%nat -> shaped r c m -> shape2 m = (r, c).
Proof.
  intros Hr [Hlen Hrows]. unfold shape2. rewrite Hlen. f_equal.
  destruct m as [| row m']; simpl in *; [lia |].
  inversion Hrows; assumption.
Qed.

Lemma mscale_shaped (k : F) (r c : nat) (m : list (list F)) :
  shaped r c m -> shaped r c (mscale k m).
Proof.
  intros [Hlen Hrows]. unfold mscale, vscale. split.
  - rewrite length_map. exact Hlen.
  - apply Forall_map. eapply Forall_impl; [| exact Hrows].
    intros row Hrow. simpl. rewrite length_map. exact Hrow.
Qed.

Lemma map_map_shaped (f : F -> F) (r c : nat) (m : list (list F)) :
  shaped r c m -> shaped r c (map (map f) m).
Proof.
  intros [Hlen Hrows]. split.
  - rewrite length_map. exact Hlen.
  - apply Forall_map. eapply Forall_impl; [| exact Hrows].
    intros row Hrow. simpl. rewrite length_map. exact Hrow.
Qed.

Lemma madd_shaped (r c : nat) (m n : list (list F)) :
  shaped r c m -> shaped r c n -> shaped r c (madd m n).
Proof.
  intros [Hm Hmr] [Hn Hnr]. unfold madd. split.
  - apply map2_length_same; assumption.
  - apply map2_Forall with (P := fun row => List.length row = c);
      [| exact Hmr].
    intros u v Hu Hv. unfold vadd.
    rewrite Forall_forall in Hnr.
    apply map2_length_same; [exact Hu | apply Hnr, Hv].
Qed.

Lemma normalise_rows_shaped (r c : nat) (m : list (list F)) :
  shaped r c m -> shaped r c (_normalise_rows m).
Proof.
  intros [Hlen Hrows]. split.
  - rewrite normalise_rows_length. exact Hlen.
  - unfold _normalise_rows, div_rows.
    apply map2_Forall with (P := fun row => List.length row = c);
      [| exact Hrows].
    intros row s Hrow _. rewrite length_map. exact Hrow.
Qed.

Lemma training_step_shaped (n m : nat) (At Bt : list (list F)) (pt : list F)
      (i : Z) (st : @loop_state F) (g : rng) :
  (0 < n)%nat ->
  shaped n n At -> shaped n m Bt -> List.length pt = n ->
  loop_shaped n m st ->
  loop_shaped n m
    (fst (training_step exp round_ndigits normal_matrix normal_vector uniform
                        At Bt pt i st g)).
Proof.
  intros Hn HAt HBt Hpt (HA & HB & Hpi & Hits).
  unfold training_step, sbind, ret.
  rewrite (shaped_hd n n _ Hn HA), (shaped_hd n m _ Hn HB).
  pose proof (normal_matrix_shape zero
                (div (lit (5 # 1000)) (of_int i)) n n g) as HnA.
  destruct (normal_matrix _ _ (n, n) g) as [nA g1]. simpl in HnA.
  pose proof (normal_matrix_shape zero
                (div (lit (5 # 1000)) (of_int i)) n m g1) as HnB.
  destruct (normal_matrix _ _ (n, m) g1) as [nB g2]. simpl in HnB.
  rewrite Hpi.
  pose proof (normal_vector_shape zero
                (div (lit (5 # 1000)) (of_int i)) n g2) as Hnp.
  destruct (normal_vector _ _ n g2) as [npi g3]. simpl in Hnp.
  destruct (uniform _ _ g3) as [u g4]. simpl.
  assert (HA' : shaped n n
                  (_normalise_rows
                     (madd (madd (mscale (sub one (sub one (exp (mul (lit (- (12 # 100))) (of_int i)))))
                                         (ls_A st))
                                 (mscale (sub one (exp (mul (lit (- (12 # 100))) (of_int i)))) At))
                           (map (map (clip (lit (- (5 # 100))) (lit (5 # 100)))) nA)))).
  { apply normalise_rows_shaped. repeat apply madd_shaped;
      try apply mscale_shaped; try apply map_map_shaped; assumption. }
  assert (HB' : shaped n m
                  (_normalise_rows
                     (madd (madd (mscale (sub one (sub one (exp (mul (lit (- (12 # 100))) (of_int i)))))
                                         (ls_B st))
                                 (mscale (sub one (exp (mul (lit (- (12 # 100))) (of_int i)))) Bt))
                           (map (map (clip (lit (- (5 # 100))) (lit (5 # 100)))) nB)))).
  { apply normalise_rows_shaped. repeat apply madd_shaped;
      try apply mscale_shaped; try apply map_map_shaped; assumption. }
  assert (Hpi' : forall (d : F) (f : F -> F),
             List.length
               (map (fun x => div x d)
                  (map f
                     (vadd (vadd (vscale (sub one (sub one (exp (mul (lit (- (12 # 100))) (of_int i)))))
                                         (ls_pi st))
                                 (vscale (sub one (exp (mul (lit (- (12 # 100))) (of_int i)))) pt))
                           (map (clip (lit (- (5 # 100))) (lit (5 # 100))) npi)))) = n).
  { intros d f. rewrite !length_map. unfold vadd, vscale.
    repeat apply map2_length_same; rewrite ?length_map; assumption. }
  unfold loop_shaped. simpl.
  split; [exact HA' |]. split; [exact HB' |]. split; [apply Hpi' |].
  apply Forall_app. split; [exact Hits |]. constructor; [| constructor].
  unfold record_shaped. simpl.
  split; [exact HA' |]. split; [exact HB' | apply Hpi'].
Qed.

Lemma sfor_shaped (n m : nat) (At Bt : list (list F)) (pt : list F)
      (ks : list Z) (st : @loop_state F) (g : rng) :
  (0 < n)%nat ->
  shaped n n At -> shaped n m Bt -> List.length pt = n ->
  loop_shaped n m st ->
  loop_shaped n m
    (fst (sfor ks (training_step exp round_ndigits normal_matrix normal_vector
                                 uniform At Bt pt) st g)).
Proof.
  intros Hn HAt HBt Hpt. revert st g.
  induction ks as [| k ks IH]; intros st g Hst; simpl.
  - exact Hst.
  - unfold sbind.
    pose proof (training_step_shaped n m At Bt pt k st g Hn HAt HBt Hpt Hst)
      as Hk.
    destruct (training_step _ _ _ _ _ At Bt pt k st g) as [st' g'].
    simpl in Hk. apply IH. exact Hk.
Qed.

Lemma ones_length (n : nat) : List.length (@ones F arith n) = n.
Proof. apply repeat_length. Qed.

Lemma simulation_shaped (n_states n_obs : nat) (n_iterations : Z)
      (seed : option Z) :
  (0 < n_states)%nat ->
  Forall (record_shaped n_states n_obs)
         (_simulate_training exp round_ndigits default_rng dirichlet
            dirichlet_rows random normal_matrix normal_vector uniform
            n_states n_obs n_iterations seed).
Proof.
  intros Hn.
  unfold _simulate_training, sbind, ret, _random_transition_matrix,
    _random_emission_matrix, _random_initial.
  pose proof (dirichlet_rows_shape (ones n_states) n_states (default_rng seed))
    as HAt.
  destruct (dirichlet_rows _ n_states (default_rng seed)) as [At g1].
  pose proof (dirichlet_rows_shape (ones n_obs) n_states g1) as HBt.
  destruct (dirichlet_rows _ n_states g1) as [Bt g2].
  pose proof (dirichlet_shape (ones n_states) g2) as Hpt.
  destruct (dirichlet _ g2) as [pt g3].
  pose proof (dirichlet_rows_shape (ones n_states) n_states g3) as HA.
  destruct (dirichlet_rows _ n_states g3) as [A g4].
  pose proof (dirichlet_rows_shape (ones n_obs) n_states g4) as HB.
  destruct (dirichlet_rows _ n_states g4) as [B g5].
  pose proof (dirichlet_shape (ones n_states) g5) as Hp.
  destruct (dirichlet _ g5) as [p g6].
  destruct (random g6) as [r g7].
  rewrite ones_length in *. simpl in HAt, HBt, Hpt, HA, HB, Hp.
  match goal with
  | |- context [sfor ?ks ?body ?st ?g] =>
      pose proof (sfor_shaped n_states n_obs At Bt pt ks st g Hn HAt HBt Hpt)
        as H;
      destruct (sfor ks body st g) as [st' g']
  end.
  simpl in *. apply H. unfold loop_shaped. simpl.
  split; [exact HA |]. split; [exact HB |]. split; [exact Hp | constructor].
Qed.

(** Every record of the simulation has a square [A] with [n_states] rows,
    a [B] of shape [(n_states, n_obs)] and a [pi] of [n_states] entries. *)
Theorem simulated_records_keep_their_shapes :
  forall (n_states n_obs : nat) (n_iterations : Z) (seed : option Z),
    (0 < n_states)%nat ->
    Forall (fun it =>
              (List.length (it_A it) = n_states /\
               Forall (fun row => List.length row = n_states) (it_A it)) /\
              (List.length (it_B it) = n_states /\
               Forall (fun row => List.length row = n_obs) (it_B it)) /\
              List.length (it_pi it) = n_states)
           (_simulate_training exp round_ndigits default_rng dirichlet
              dirichlet_rows random normal_matrix normal_vector uniform
              n_states n_obs n_iterations seed).
Proof.
  intros n_states n_obs n_iterations seed Hn.
  exact (simulation_shaped n_states n_obs n_iterations seed Hn).
Qed.

End SimulationShapes.

Section RationalRows.

Import Demo.
Local Open Scope Q_scope.

Lemma fold_add_compat (l : list Q) (u w : Q) :
  u == w -> fold_left Qplus l u == fold_left Qplus l w.
Proof.
  revert u w. induction l as [| y l IH]; intros u w H; simpl.
  - exact H.
  - apply IH. rewrite H. reflexivity.
Qed.

Lemma vsum_cons (x : Q) (l : list Q) : vsum (x :: l) == x + vsum l.
Proof.
  unfold vsum. simpl.
  assert (G : forall l a b, fold_left Qplus l (a + b) == a + fold_left Qplus l b).
  { clear. induction l as [| y l IH]; intros a b; simpl.
    - reflexivity.
    - rewrite <- IH. apply fold_add_compat. ring. }
  rewrite <- G. apply fold_add_compat. ring.
Qed.

Lemma vsum_entries_equal (u v : list Q) : Forall2 Qeq u v -> vsum u == vsum v.
Proof.
  induction 1 as [| x y u v Hxy _ IH].
  - reflexivity.
  - rewrite !vsum_cons, Hxy, IH. reflexivity.
Qed.

Lemma vsum_positive (l : list Q) :
  l <> [] -> Forall (fun x => 0 < x) l -> 0 < vsum l.
Proof.
  intros Hne Hpos. destruct l as [| x l]; [congruence |].
  inversion Hpos as [| ? ? Hx Hl]; subst. rewrite vsum_cons.
  assert (H0 : 0 <= vsum l).
  { clear - Hl. induction Hl as [| y l Hy _ IH].
    - apply Qle_refl.
    - rewrite vsum_cons. lra. }
  lra.
Qed.

Lemma normalise_rows_by_row (m : list (list Q)) :
  _normalise_rows m = map normalise_row m.
Proof.
  induction m as [| row m IH]; [reflexivity |].
  unfold _normalise_rows, div_rows, replace_zero, row_sums in *.
  cbn [map map2]. rewrite IH. reflexivity.
Qed.

Lemma divisor_not_zero (row : list Q) :
  ~ (if Qeq_bool (vsum row) 0 then 1 else vsum row) == 0.
Proof.
  destruct (Qeq_bool (vsum row) 0) eqn:E.
  - discriminate.
  - intro H. apply Qeq_bool_iff in H. congruence.
Qed.

Lemma normalise_row_sum (row : list Q) :
  (vsum row == 0 -> vsum (normalise_row row) == 0) /\
  (~ vsum row == 0 -> vsum (normalise_row row) == 1).
Proof.
  unfold normalise_row. split; intro H.
  - assert (E : Qeq_bool (vsum row) 0 = true) by (apply Qeq_bool_iff; exact H).
    rewrite E, vsum_scaled, H. reflexivity.
  - rewrite vsum_scaled.
    destruct (Qeq_bool (vsum row) 0) eqn:E;
      [apply Qeq_bool_iff in E; contradiction |].
    field. exact H.
Qed.

Lemma normalise_row_unit_or_zero (row : list Q) :
  unit_or_zero_sum (normalise_row row).
Proof.
  unfold unit_or_zero_sum.
  destruct (Qeq_dec (vsum row) 0) as [H | H].
  - right. apply (proj1 (normalise_row_sum row) H).
  - left. apply (proj2 (normalise_row_sum row) H).
Qed.

Lemma normalise_rows_unit_or_zero (m : list (list Q)) :
  Forall unit_or_zero_sum (_normalise_rows m).
Proof.
  rewrite normalise_rows_by_row. apply Forall_map, Forall_forall.
  intros row _. apply normalise_row_unit_or_zero.
Qed.

Lemma normalise_row_fixed (row : list Q) :
  unit_or_zero_sum row -> Forall2 Qeq (normalise_row row) row.
Proof.
  intro Hrow. unfold normalise_row.
  assert (Hd : (if Qeq_bool (vsum row) 0 then 1 else vsum row) == 1).
  { destruct Hrow as [H | H].
    - destruct (Qeq_bool (vsum row) 0); [reflexivity | exact H].
    - apply Qeq_bool_iff in H. rewrite H. reflexivity. }
  generalize dependent (if Qeq_bool (vsum row) 0 then 1 else vsum row).
  intros d Hd. clear Hrow.
  induction row as [| x row IH]; simpl; constructor; [| exact IH].
  rewrite Hd. field.
Qed.

(** Normalising twice is normalising once: in exact arithmetic a second
    pass of [_normalise_rows] changes no entry, because every row of the
    first pass sums to one, or to zero when it was left as it was. *)
Theorem normalise_rows_idempotent_in_exact_arithmetic :
  forall (m : list (list Q)),
    Forall unit_or_zero_sum (_normalise_rows m) /\
    same_entries (_normalise_rows (_normalise_rows m)) (_normalise_rows m).
Proof.
  intro m. split; [apply normalise_rows_unit_or_zero |].
  unfold same_entries.
  rewrite (normalise_rows_by_row (_normalise_rows m)).
  pose proof (normalise_rows_unit_or_zero m) as H.
  induction H as [| row rows Hrow _ IH]; simpl; constructor.
  - apply normalise_row_fixed. exact Hrow.
  - exact IH.
Qed.

End RationalRows.

Section SimulationSums.

Import Demo.
Local Open Scope Q_scope.

Variable exp : Q -> Q.
Variable round_ndigits : Q -> nat -> Q.
Variable rng : Type.
Variable default_rng : option Z -> rng.
Variable dirichlet : list Q -> rng -> list Q * rng.
Variable dirichlet_rows : list Q -> nat -> rng -> list (list Q) * rng.
Variable random : rng -> Q * rng.
Variable normal_matrix : Q -> Q -> nat * nat -> rng -> list (list Q) * rng.
Variable normal_vector : Q -> Q -> nat -> rng -> list Q * rng.
Variable uniform : Q -> Q -> rng -> Q * rng.

Hypothesis dirichlet_shape :
  forall alpha g, List.length (fst (dirichlet alpha g)) = List.length alpha.
Hypothesis dirichlet_rows_shape :
  forall alpha size g,
    shaped size (List.length alpha) (fst (dirichlet_rows alpha size g)).
Hypothesis normal_matrix_shape :
  forall loc scale r c g, shaped r c (fst (normal_matrix loc scale (r, c) g)).
Hypothesis normal_vector_shape :
  forall loc scale n g, List.length (fst (normal_vector loc scale n g)) = n.

Abbreviation step :=
  (training_step (arith := Arith_Q) exp round_ndigits normal_matrix
                 normal_vector uniform).

Abbreviation normalised :=
  (fun it : iteration_record Q =>
     Forall unit_or_zero_sum (it_A it) /\
     Forall unit_or_zero_sum (it_B it) /\
     distribution (it_pi it)).

Lemma clip_lo_floor (lo x : Q) : lo <= clip_lo (arith := Arith_Q) lo x.
Proof.
  unfold clip_lo. simpl. destruct (Qltb x lo) eqn:E.
  - apply Qle_refl.
  - apply Qltb_false_iff in E. exact E.
Qed.

Lemma normalised_vector_is_distribution (raw : list Q) :
  raw <> [] ->
  distribution
    (map (fun x => x / vsum (map (clip_lo (arith := Arith_Q) (1 # 10000000000)) raw))
         (map (clip_lo (arith := Arith_Q) (1 # 10000000000)) raw)).
Proof.
  intro Hne.
  set (v := map (clip_lo (arith := Arith_Q) (1 # 10000000000)) raw).
  assert (Hpos : Forall (fun x => 0 < x) v).
  { subst v. apply Forall_map, Forall_forall. intros x _.
    pose proof (clip_lo_floor (1 # 10000000000) x). lra. }
  assert (Hv : v <> []).
  { subst v. destruct raw; [congruence | discriminate]. }
  pose proof (vsum_positive v Hv Hpos) as Hs.
  split.
  - apply Forall_map. eapply Forall_impl; [| exact Hpos].
    intros x Hx. cbv beta in *. apply Qlt_shift_div_l; [exact Hs | lra].
  - rewrite vsum_scaled. field. lra.
Qed.

Lemma training_step_normalised (n m : nat) (At Bt : list (list Q))
      (pt : list Q) (i : Z) (st : @loop_state Q) (g : rng) :
  (0 < n)%nat ->
  shaped n n At -> shaped n m Bt -> List.length pt = n ->
  loop_shaped n m st ->
  Forall normalised (ls_iterations st) ->
  Forall normalised (ls_iterations (fst (step At Bt pt i st g))).
Proof.
  intros Hn HAt HBt Hpt (HA & HB & Hpi & _) Hits.
  unfold training_step, sbind, ret.
  destruct (normal_matrix _ _ (shape2 (ls_A st)) g) as [nA g1].
  destruct (normal_matrix _ _ (shape2 (ls_B st)) g1) as [nB g2].
  rewrite Hpi.
  pose proof (normal_vector_shape zero
                (div (lit (5 # 1000)) (of_int i)) n g2) as Hnp.
  destruct (normal_vector _ _ n g2) as [npi g3]. simpl in Hnp.
  destruct (uniform _ _ g3) as [u g4]. simpl.
  apply Forall_app. split; [exact Hits |]. constructor; [| constructor].
  simpl. split; [apply normalise_rows_unit_or_zero |].
  split; [apply normalise_rows_unit_or_zero |].
  apply normalised_vector_is_distribution.
  intro Hempty. apply (f_equal (@List.length Q)) in Hempty.
  unfold vadd, vscale in Hempty.
  rewrite (map2_length_same Q Q Q _ _ _ n) in Hempty; [simpl in Hempty; lia | |].
  - apply map2_length_same; rewrite length_map; assumption.
  - rewrite length_map. exact Hnp.
Qed.

Lemma sfor_normalised (n m : nat) (At Bt : list (list Q)) (pt : list Q)
      (ks : list Z) (st : @loop_state Q) (g : rng) :
  (0 < n)%nat ->
  shaped n n At -> shaped n m Bt -> List.length pt = n ->
  loop_shaped n m st ->
  Forall normalised (ls_iterations st) ->
  Forall normalised (ls_iterations (fst (sfor ks (step At Bt pt) st g))).
Proof.
  intros Hn HAt HBt Hpt. revert st g.
  induction ks as [| k ks IH]; intros st g Hst Hits; simpl.
  - exact Hits.
  - unfold sbind.
    pose proof (training_step_shaped exp round_ndigits rng normal_matrix
                  normal_vector uniform normal_matrix_shape
                  normal_vector_shape n m At Bt pt k st g Hn HAt HBt Hpt Hst)
      as Hk.
    pose proof (training_step_normalised n m At Bt pt k st g Hn HAt HBt Hpt
                  Hst Hits) as Hk'.
    destruct (step At Bt pt k st g) as [st' g'].
    simpl in Hk, Hk'. apply IH; assumption.
Qed.

Lemma simulation_normalised (n_states n_obs : nat) (n_iterations : Z)
      (seed : option Z) :
  (0 < n_states)%nat ->
  Forall normalised
         (_simulate_training (arith := Arith_Q) exp round_ndigits default_rng
            dirichlet dirichlet_rows random normal_matrix normal_vector
            uniform n_states n_obs n_iterations seed).
Proof.
  intros Hn.
  unfold _simulate_training, sbind, ret, _random_transition_matrix,
    _random_emission_matrix, _random_initial.
  pose proof (dirichlet_rows_shape (ones n_states) n_states (default_rng seed))
    as HAt.
  destruct (dirichlet_rows _ n_states (default_rng seed)) as [At g1].
  pose proof (dirichlet_rows_shape (ones n_obs) n_states g1) as HBt.
  destruct (dirichlet_rows _ n_states g1) as [Bt g2].
  pose proof (dirichlet_shape (ones n_states) g2) as Hpt.
  destruct (dirichlet _ g2) as [pt g3].
  pose proof (dirichlet_rows_shape (ones n_states) n_states g3) as HA.
  destruct (dirichlet_rows _ n_states g3) as [A g4].
  pose proof (dirichlet_rows_shape (ones n_obs) n_states g4) as HB.
  destruct (dirichlet_rows _ n_states g4) as [B g5].
  pose proof (dirichlet_shape (ones n_states) g5) as Hp.
  destruct (dirichlet _ g5) as [p g6].
  destruct (random g6) as [r g7].
  rewrite ones_length in *. simpl in HAt, HBt, Hpt, HA, HB, Hp.
  match goal with
  | |- context [sfor ?ks ?body ?st ?g] =>
      pose proof (sfor_normalised n_states n_obs At Bt pt ks st g Hn HAt HBt
                    Hpt) as H;
      destruct (sfor ks body st g) as [st' g']
  end.
  simpl in *. apply H; [| constructor]. unfold loop_shaped. simpl.
  split; [exact HA |]. split; [exact HB |]. split; [exact Hp | constructor].
Qed.

(** In exact arithmetic every row of every simulated [A] and [B] sums to
    one, or to zero when the blended row summed to zero and was left as it
    was, whatever the generator draws. *)
Theorem simulated_rows_sum_to_one_or_zero :
  forall (n_states n_obs : nat) (n_iterations : Z) (seed : option Z),
    (0 < n_states)%nat ->
    Forall (fun it =>
              Forall (fun row => vsum row == 1 \/ vsum row == 0) (it_A it) /\
              Forall (fun row => vsum row == 1 \/ vsum row == 0) (it_B it))
           (_simulate_training (arith := Arith_Q) exp round_ndigits
              default_rng dirichlet dirichlet_rows random normal_matrix
              normal_vector uniform n_states n_obs n_iterations seed).
Proof.
  intros n_states n_obs n_iterations seed Hn.
  eapply Forall_impl;
    [| exact (simulation_normalised n_states n_obs n_iterations seed Hn)].
  intros it (HA & HB & _). split; assumption.
Qed.

(** In exact arithmetic every simulated [pi] is a probability vector: the
    clip at [1e-10] makes every entry positive, so the sum it is divided
    by is positive, and the entries sum to one, whatever the generator
    draws. *)
Theorem simulated_initial_vector_is_a_distribution :
  forall (n_states n_obs : nat) (n_iterations : Z) (seed : option Z),
    (0 < n_states)%nat ->
    Forall (fun it =>
              List.length (it_pi it) = n_states /\
              Forall (fun x => 0 < x) (it_pi it) /\
              vsum (it_pi it) == 1)
           (_simulate_training (arith := Arith_Q) exp round_ndigits
              default_rng dirichlet dirichlet_rows random normal_matrix
              normal_vector uniform n_states n_obs n_iterations seed).
Proof.
  intros n_states n_obs n_iterations seed Hn.
  pose proof (simulation_normalised n_states n_obs n_iterations seed Hn) as Hs.
  pose proof (simulation_shaped exp round_ndigits rng default_rng dirichlet
                dirichlet_rows random normal_matrix normal_vector uniform
                dirichlet_shape dirichlet_rows_shape normal_matrix_shape
                normal_vector_shape n_states n_obs n_iterations seed Hn) as Hh.
  rewrite Forall_forall in *. intros it Hit.
  destruct (Hs it Hit) as (_ & _ & Hpos & Hsum).
  destruct (Hh it Hit) as (_ & _ & Hlen).
  split; [exact Hlen |]. split; assumption.
Qed.

End SimulationSums.

Section SimulateRoute.

Import Json Demo App.
Local Open Scope string_scope.
Local Open Scope Z_scope.

Variable float : Type.
Variable is_zero : float -> bool.
Variable trunc : float -> option Z.
Variable is_nan : float -> bool.
Variable int_of_str : string -> option Z.
Variable randint : Z -> Z -> Z.
Context {F : Type} {arith : Arith F}.
Variable exp : F -> F.
Variable round_ndigits : F -> nat -> F.
Variable rng : Type.
Variable default_rng : option Z -> rng.
Variable dirichlet : list F -> rng -> list F * rng.
Variable dirichlet_rows : list F -> nat -> rng -> list (list F) * rng.
Variable random : rng -> F * rng.
Variable normal_matrix : F -> F -> nat * nat -> rng -> list (list F) * rng.
Variable normal_vector : F -> F -> nat -> rng -> list F * rng.
Variable uniform : F -> F -> rng -> F * rng.

Hypothesis dirichlet_shape :
  forall alpha g, List.length (fst (dirichlet alpha g)) = List.length alpha.
Hypothesis dirichlet_rows_shape :
  forall alpha size g,
    shaped size (List.length alpha) (fst (dirichlet_rows alpha size g)).
Hypothesis normal_matrix_shape :
  forall loc scale r c g, shaped r c (fst (normal_matrix loc scale (r, c) g)).
Hypothesis normal_vector_shape :
  forall loc scale n g, List.length (fst (normal_vector loc scale n g)) = n.

Abbreviation route :=
  (simulate float is_zero trunc is_nan int_of_str randint exp round_ndigits
            rng default_rng dirichlet dirichlet_rows random normal_matrix
            normal_vector uniform).
Abbreviation training :=
  (_simulate_training exp round_ndigits default_rng dirichlet dirichlet_rows
                      random normal_matrix normal_vector uniform).
Abbreviation to_int := (int_ float trunc is_nan int_of_str).

(** What a returned response was computed from. *)
Lemma route_returned (body : option (pyval float))
      (resp : @simulate_response F) :
  route body = Returned resp ->
  exists items ns no ni seed,
    body_or_empty float is_zero body = PDict items /\
    to_int (match lookup items "n_states" with
            | Some v => v | None => PInt 3 end) = Returned ns /\
    to_int (match lookup items "n_observations" with
            | Some v => v | None => PInt 4 end) = Returned no /\
    to_int (match lookup items "n_iterations" with
            | Some v => v | None => PInt 30 end) = Returned ni /\
    match lookup items "seed" with
    | Some PNone | None => seed = randint 0 (2 ^ 31)
    | Some v => to_int v = Returned seed
    end /\
    resp = {| r_iterations :=
                training (Z.to_nat (clamp 2 12 ns)) (Z.to_nat (clamp 2 12 no))
                         (clamp 1 200 ni) (Some seed);
              r_seed := seed |}.
Proof.
  unfold simulate. cbv zeta.
  destruct (body_or_empty float is_zero body) as [| | | | | | | items] eqn:Ed;
    try discriminate.
  unfold get. cbn [obind].
  destruct (to_int (match lookup items "n_states" with
                    | Some v => v | None => PInt 3 end)) as [ns | e] eqn:Es;
    [| discriminate].
  cbn [obind].
  destruct (to_int (match lookup items "n_observations" with
                    | Some v => v | None => PInt 4 end)) as [no | e] eqn:Eo;
    [| discriminate].
  cbn [obind].
  destruct (to_int (match lookup items "n_iterations" with
                    | Some v => v | None => PInt 30 end)) as [ni | e] eqn:Ei;
    [| discriminate].
  cbn [obind].
  intro H. exists items, ns, no, ni.
  destruct (lookup items "seed") as [v |] eqn:Ev.
  - destruct v; cbn [obind] in H;
      try (match type of H with
           | context [int_ _ _ _ _ ?w] =>
               destruct (int_ float trunc is_nan int_of_str w) as [sd | e] eqn:Esd;
               [| discriminate]
           end;
           cbn [obind] in H; exists sd; inversion H; subst; repeat split;
           assumption).
    exists (randint 0 (2 ^ 31)). inversion H; subst. repeat split; assumption.
  - cbn [obind] in H. exists (randint 0 (2 ^ 31)).
    inversion H; subst. repeat split; assumption.
Qed.

Lemma training_length (n_states n_obs : nat) (n_iterations : Z)
      (seed : option Z) :
  List.length (training n_states n_obs n_iterations seed)
  = Z.to_nat n_iterations.
Proof.
  rewrite <- (length_map (@it_iteration F)).
  rewrite simulate_iterations, length_map, length_seq. reflexivity.
Qed.

(** Whatever the request asks for, a response holds between 1 and 200
    records, numbered from 1 without a gap, and its matrices have between
    2 and 12 states and between 2 and 12 observations. *)
Theorem simulate_response_is_clamped :
  forall (body : option (pyval float)) (resp : @simulate_response F),
    route body = Returned resp ->
    (1 <= List.length (r_iterations resp) <= 200)%nat /\
    map (@it_iteration F) (r_iterations resp)
    = map Z.of_nat (seq 1 (List.length (r_iterations resp))) /\
    exists n_states n_obs,
      (2 <= n_states <= 12)%nat /\ (2 <= n_obs <= 12)%nat /\
      Forall (fun it =>
                (List.length (it_A it) = n_states /\
                 Forall (fun row => List.length row = n_states) (it_A it)) /\
                (List.length (it_B it) = n_states /\
                 Forall (fun row => List.length row = n_obs) (it_B it)) /\
                List.length (it_pi it) = n_states)
             (r_iterations resp).
Proof.
  intros body resp H.
  destruct (route_returned body resp H)
    as (items & ns & no & ni & seed & _ & _ & _ & _ & _ & ->).
  cbn [r_iterations]. rewrite training_length.
  split; [unfold clamp; lia |]. split.
  - apply simulate_iterations.
  - exists (Z.to_nat (clamp 2 12 ns)), (Z.to_nat (clamp 2 12 no)).
    split; [unfold clamp; lia |]. split; [unfold clamp; lia |].
    apply (simulation_shaped exp round_ndigits rng default_rng dirichlet
             dirichlet_rows random normal_matrix normal_vector uniform
             dirichlet_shape dirichlet_rows_shape normal_matrix_shape
             normal_vector_shape).
    unfold clamp. lia.
Qed.

Lemma asks_for_field (data : pyval float) (key : string) (default n : Z)
      (items : list (pyval float * pyval float)) :
  asks_for float data key default n -> data = PDict items ->
  match lookup items key with Some v => v | None => PInt default end = PInt n.
Proof.
  intros (items' & E & Hcase) Ed. rewrite Ed in E. inversion E; subst items'.
  destruct Hcase as [Hl | [Hl ->]]; rewrite Hl; reflexivity.
Qed.

(** A request whose three size fields are integers or missing, and whose
    seed is an integer that is not negative or is missing, is always
    answered: the sizes default to 3, 4 and 30 and are clamped, the
    response holds exactly the clamped number of records, and it echoes
    the seed, or carries the one it drew. *)
Theorem simulate_answers_integer_requests :
  forall (body : option (pyval float)) (ns no ni seed : Z),
    asks_for float (body_or_empty float is_zero body) "n_states" 3 ns ->
    asks_for float (body_or_empty float is_zero body) "n_observations" 4 no ->
    asks_for float (body_or_empty float is_zero body) "n_iterations" 30 ni ->
    asks_for float (body_or_empty float is_zero body) "seed"
             (randint 0 (2 ^ 31)) seed ->
    0 <= seed ->
    exists resp,
      route body = Returned resp /\
      r_seed resp = seed /\
      r_iterations resp
      = training (Z.to_nat (Z.max 2 (Z.min ns 12)))
                 (Z.to_nat (Z.max 2 (Z.min no 12)))
                 (Z.max 1 (Z.min ni 200)) (Some seed) /\
      List.length (r_iterations resp) = Z.to_nat (Z.max 1 (Z.min ni 200)).
Proof.
  intros body ns no ni seed Hs Ho Hi Hseed _.
  destruct Hs as (items & Ed & Hs).
  pose proof (asks_for_field _ _ _ _ items Ho Ed) as Eo.
  pose proof (asks_for_field _ _ _ _ items Hi Ed) as Ei.
  assert (Es : match lookup items "n_states" with
               | Some v => v | None => PInt 3 end = PInt ns).
  { destruct Hs as [Hl | [Hl ->]]; rewrite Hl; reflexivity. }
  destruct Hseed as (items' & Ed' & Hseed).
  rewrite Ed in Ed'. inversion Ed'; subst items'. clear Ed'.
  eexists. split.
  - unfold simulate. cbv zeta. rewrite Ed. unfold get. cbn [obind].
    rewrite Es, Eo, Ei. cbn [int_ obind].
    destruct Hseed as [Hl | [Hl ->]]; rewrite Hl; cbn [int_ obind];
      reflexivity.
  - cbn [r_seed r_iterations]. split; [reflexivity |].
    split; [reflexivity |]. apply training_length.
Qed.

(** A body that is not a dictionary, although it counts as true, makes
    the handler raise [AttributeError]; a size field that is present but
    [null] is not taken as missing and raises [TypeError], whereas a
    [null] seed is taken as missing. *)
Theorem simulate_rejects_malformed_bodies :
  (forall (v : pyval float),
      truthy float is_zero v = true ->
      (forall items, v <> PDict items) ->
      route (Some v) = Raised AttributeError) /\
  (forall (items : list (pyval float * pyval float)),
      items <> [] ->
      lookup items "n_states" = Some PNone ->
      route (Some (PDict items)) = Raised TypeError) /\
  (forall (items : list (pyval float * pyval float)) (ns no ni : Z),
      items <> [] ->
      lookup items "n_states" = Some (PInt ns) ->
      lookup items "n_observations" = Some (PInt no) ->
      lookup items "n_iterations" = Some (PInt ni) ->
      lookup items "seed" = Some PNone ->
      0 <= randint 0 (2 ^ 31) ->
      exists resp,
        route (Some (PDict items)) = Returned resp /\
        r_seed resp = randint 0 (2 ^ 31)).
Proof.
  split; [| split].
  - intros v Ht Hnd. unfold simulate. cbv zeta. unfold body_or_empty.
    rewrite Ht. destruct v; try reflexivity.
    exfalso. eapply Hnd. reflexivity.
  - intros items Hne Hl. unfold simulate. cbv zeta. unfold body_or_empty.
    destruct items as [| kv items']; [congruence |].
    cbn [truthy]. unfold get. rewrite Hl. reflexivity.
  - intros items ns no ni Hne Hs Ho Hi Hseed _.
    unfold simulate. cbv zeta. unfold body_or_empty.
    destruct items as [| kv items']; [congruence |].
    cbn [truthy]. unfold get. rewrite Hs, Ho, Hi, Hseed. cbn [int_ obind].
    eexists. split; reflexivity.
Qed.

End SimulateRoute.

Section JsonText.

Import Json.
Local Open Scope string_scope.

(** ** Strings *)

Lemma append_assoc (a b c : string) : (a ++ b) ++ c = a ++ (b ++ c).
Proof. induction a as [| x a IH]; simpl; [reflexivity | rewrite IH; reflexivity]. Qed.

Lemma append_nil_r (a : string) : a ++ EmptyString = a.
Proof. induction a as [| x a IH]; simpl; [reflexivity | rewrite IH; reflexivity]. Qed.

(** Decoding undoes the escape of one character. *)
Lemma scan_string_escape_char (c : ascii) (tail : string) :
  scan_string (escape_char c ++ tail) =
  match scan_string tail with
  | Some (str, rest) => Some (String c str, rest)
  | None => None
  end.
Proof.
  destruct c as [[|] [|] [|] [|] [|] [|] [|] [|]]; reflexivity.
Qed.

Lemma scan_string_escape (s rest : string) :
  scan_string (escape s ++ String dquote rest) = Some (s, rest).
Proof.
  induction s as [| c s IH]; simpl.
  - reflexivity.
  - rewrite append_assoc, scan_string_escape_char, IH. reflexivity.
Qed.

(** A quoted string is read back, whatever follows it. *)
Lemma scan_string_quote (s rest : string) :
  exists body, quote s ++ rest = String dquote body /\
               scan_string body = Some (s, rest).
Proof.
  exists (escape s ++ String dquote rest). split.
  - unfold quote. simpl. rewrite append_assoc. reflexivity.
  - apply scan_string_escape.
Qed.

(** ** Whitespace *)

Lemma skip_ws_spaces (n : nat) (s : string) :
  skip_ws (spaces n ++ s) = skip_ws s.
Proof. induction n as [| n IH]; simpl; [reflexivity | exact IH]. Qed.

Lemma skip_ws_newline_indent (level : nat) (s : string) :
  skip_ws (newline_indent level ++ s) = skip_ws s.
Proof. unfold newline_indent. simpl. apply skip_ws_spaces. Qed.

Lemma skip_ws_head (c : ascii) (r : string) :
  is_ws c = false -> skip_ws (String c r) = String c r.
Proof. intro H. simpl. rewrite H. reflexivity. Qed.

(** ** Integers *)

Lemma ends_number_no_digit (rest : string) :
  ends_number rest = true -> no_digit_ahead rest.
Proof.
  destruct rest as [| c r]; simpl; [trivial |].
  unfold is_number_char. intro H. apply negb_true_iff in H.
  repeat (apply orb_false_iff in H; destruct H as [H _]). exact H.
Qed.

Lemma scan_digits_none (rest : string) :
  no_digit_ahead rest -> scan_digits rest = (EmptyString, rest).
Proof.
  destruct rest as [| c r]; simpl; [reflexivity |]. intros ->. reflexivity.
Qed.

Lemma scan_digits_uint (d : Decimal.uint) (rest : string) :
  no_digit_ahead rest ->
  scan_digits (NilEmpty.string_of_uint d ++ rest) =
  (NilEmpty.string_of_uint d, rest).
Proof.
  intro Hrest. induction d; simpl; try rewrite IHd; try reflexivity.
  apply scan_digits_none, Hrest.
Qed.

Lemma nzhead_no_zero (d d' : Decimal.uint) : Decimal.nzhead d <> Decimal.D0 d'.
Proof. induction d; simpl; try discriminate. exact IHd. Qed.

Lemma unorm_no_zero (d d' : Decimal.uint) :
  Decimal.unorm d = Decimal.D0 d' -> d' = Decimal.Nil.
Proof.
  unfold Decimal.unorm. destruct (Decimal.nzhead d) eqn:E; try discriminate.
  - intro H. inversion H. reflexivity.
  - exfalso. exact (nzhead_no_zero d _ E).
Qed.

Lemma pos_to_uint_norm (p : positive) :
  Decimal.unorm (Pos.to_uint p) = Pos.to_uint p.
Proof.
  rewrite <- (DecimalPos.Unsigned.to_of (Pos.to_uint p)).
  rewrite DecimalPos.Unsigned.of_to. reflexivity.
Qed.

(** The digits of a positive number: at least one, the first not zero. *)
Lemma pos_digits_head (p : positive) :
  exists c r, NilEmpty.string_of_uint (Pos.to_uint p) = String c r /\
              is_digit c = true /\ Ascii.eqb c "0" = false.
Proof.
  pose proof (pos_to_uint_norm p) as Hn.
  pose proof (DecimalPos.Unsigned.to_uint_nonzero p) as Hz.
  pose proof (DecimalPos.Unsigned.to_uint_nonnil p) as Hnil.
  destruct (Pos.to_uint p) as [| d | d | d | d | d | d | d | d | d | d] eqn:E;
    try congruence;
    try (simpl; eexists; eexists; split; [reflexivity | split; reflexivity]).
  exfalso. apply unorm_no_zero in Hn. subst. apply Hz. reflexivity.
Qed.

Lemma scan_frac_none (rest : string) :
  ends_number rest = true -> scan_frac rest = (EmptyString, rest).
Proof.
  destruct rest as [| c r]; simpl; [reflexivity |].
  unfold is_number_char. intro H. apply negb_true_iff in H.
  repeat (apply orb_false_iff in H; destruct H as [H ?]).
  match goal with E : Ascii.eqb c "." = false |- _ => rewrite E end.
  reflexivity.
Qed.

Lemma scan_exp_none (rest : string) :
  ends_number rest = true -> scan_exp rest = (EmptyString, rest).
Proof.
  destruct rest as [| c r]; simpl; [reflexivity |].
  unfold is_number_char. intro H. apply negb_true_iff in H.
  repeat (apply orb_false_iff in H; destruct H as [H ?]).
  repeat match goal with E : Ascii.eqb c _ = false |- _ => rewrite E; clear E end.
  reflexivity.
Qed.

Lemma scan_number_digits (p : positive) (rest : string) :
  ends_number rest = true ->
  scan_int_part (NilEmpty.string_of_uint (Pos.to_uint p) ++ rest) =
  Some (NilEmpty.string_of_uint (Pos.to_uint p), rest).
Proof.
  intro Hrest.
  destruct (pos_digits_head p) as (c & r & E & Hd & H0).
  pose proof (scan_digits_uint (Pos.to_uint p) rest
                (ends_number_no_digit rest Hrest)) as Hs.
  rewrite E in *. simpl in *. rewrite H0, Hd in *. rewrite Hs. reflexivity.
Qed.

Lemma scan_number_unsigned (c : ascii) (r : string) :
  Ascii.eqb c "-" = false ->
  scan_number (String c r) =
  match scan_int_part (String c r) with
  | Some (ip, s2) =>
      let (frac, s3) := scan_frac s2 in
      let (ex, s4) := scan_exp s3 in
      Some (ip ++ frac ++ ex,
            negb (String.eqb frac EmptyString && String.eqb ex EmptyString),
            s4)
  | None => None
  end.
Proof. intro H. unfold scan_number. rewrite H. reflexivity. Qed.

Lemma scan_number_signed (r : string) :
  scan_number (String "-" r) =
  match scan_int_part r with
  | Some (ip, s2) =>
      let (frac, s3) := scan_frac s2 in
      let (ex, s4) := scan_exp s3 in
      Some (String "-" (ip ++ frac ++ ex),
            negb (String.eqb frac EmptyString && String.eqb ex EmptyString),
            s4)
  | None => None
  end.
Proof. reflexivity. Qed.

(** An integer literal is scanned back whole, as an integer. *)
Lemma scan_number_int (z : Z) (rest : string) :
  ends_number rest = true ->
  scan_number (int_repr z ++ rest) = Some (int_repr z, false, rest).
Proof.
  intro Hrest. unfold int_repr.
  destruct z as [| p | p]; simpl.
  - rewrite scan_number_unsigned by reflexivity. simpl.
    rewrite (scan_frac_none rest Hrest), (scan_exp_none rest Hrest).
    reflexivity.
  - destruct (pos_digits_head p) as (c & r & E & Hd & H0).
    assert (Hm : Ascii.eqb c "-" = false).
    { destruct c as [[|] [|] [|] [|] [|] [|] [|] [|]]; try discriminate Hd;
        reflexivity. }
    pose proof (scan_number_digits p rest Hrest) as Hs.
    rewrite E in *. simpl append in *.
    rewrite (scan_number_unsigned _ _ Hm), Hs.
    rewrite (scan_frac_none rest Hrest), (scan_exp_none rest Hrest).
    simpl. rewrite append_nil_r. reflexivity.
  - rewrite scan_number_signed, (scan_number_digits p rest Hrest).
    rewrite (scan_frac_none rest Hrest), (scan_exp_none rest Hrest).
    simpl. rewrite append_nil_r. reflexivity.
Qed.

Lemma int_of_literal_repr (z : Z) : int_of_literal (int_repr z) = Some z.
Proof.
  unfold int_of_literal, int_repr. rewrite NilEmpty.isi. simpl.
  rewrite DecimalZ.of_to. reflexivity.
Qed.

(** A scanned number starts with a minus sign or a digit. *)
Lemma scan_number_head (s : string) (res : string * bool * string) :
  scan_number s = Some res ->
  exists c r, s = String c r /\ (Ascii.eqb c "-" = true \/ is_digit c = true).
Proof.
  unfold scan_number. destruct s as [| c r]; simpl; [discriminate |].
  destruct (Ascii.eqb c "-") eqn:Em.
  - intros _. exists c, r. auto.
  - simpl. destruct (Ascii.eqb c "0") eqn:E0.
    + intros _. exists c, r. split; [reflexivity |]. right.
      apply Ascii.eqb_eq in E0. subst. reflexivity.
    + destruct (is_digit c) eqn:Ed; [| discriminate].
      intros _. exists c, r. auto.
Qed.

End JsonText.

Section JsonRoundTrip.

Import Json.
Local Open Scope string_scope.

Variable float : Type.
Variable float_repr : float -> string.
Variable float_of_literal : string -> option float.

(** What CPython guarantees of [float.__repr__] on finite floats: it is a
    JSON number literal with a fraction or an exponent, and [float] reads
    it back to the same value. *)
Hypothesis float_repr_literal : forall x rest,
  ends_number rest = true ->
  scan_number (float_repr x ++ rest) = Some (float_repr x, true, rest).
Hypothesis float_repr_round_trip : forall x,
  float_of_literal (float_repr x) = Some x.

Abbreviation json := (Json.json float).
Abbreviation pyval := (Json.pyval float).
Abbreviation print := (Json.print float_repr).
Abbreviation parse_value := (Json.parse_value float_of_literal).
Abbreviation parse_elements := (Json.parse_elements float_of_literal).
Abbreviation parse_members := (Json.parse_members float_of_literal).
Abbreviation reads_back := (Json.reads_back float_repr float_of_literal).
Abbreviation member_text := (Json.member_text float_repr).

(** Induction on documents, through the lists they nest. *)
Lemma json_nested_ind (P : json -> Prop) :
  P JNull ->
  (forall b, P (JBool b)) ->
  (forall z, P (JInt z)) ->
  (forall x, P (JFloat x)) ->
  (forall s, P (JStr s)) ->
  (forall l, Forall P l -> P (JArr l)) ->
  (forall ms, Forall (fun kv => P (snd kv)) ms -> P (JObj ms)) ->
  forall j, P j.
Proof.
  intros Hnull Hbool Hint Hfloat Hstr Harr Hobj.
  fix IH 1. intro j. destruct j as [| b | z | x | s | l | ms].
  - exact Hnull.
  - apply Hbool.
  - apply Hint.
  - apply Hfloat.
  - apply Hstr.
  - apply Harr. induction l as [| y l IHl]; constructor; [apply IH | exact IHl].
  - apply Hobj. induction ms as [| [k v] ms IHms]; constructor;
      [apply IH | exact IHms].
Qed.

(** A text that starts a number is handed to the number parser. *)
Lemma parse_value_number (fuel : nat) (c : ascii) (r : string) :
  Ascii.eqb c "-" = true \/ is_digit c = true ->
  parse_value (S fuel) (String c r) = parse_number float_of_literal (String c r).
Proof.
  intro H.
  destruct c as [[|] [|] [|] [|] [|] [|] [|] [|]];
    destruct H as [H | H]; try discriminate H; reflexivity.
Qed.

Lemma number_head_value_head (c : ascii) :
  Ascii.eqb c "-" = true \/ is_digit c = true -> value_head c.
Proof.
  intro H.
  destruct c as [[|] [|] [|] [|] [|] [|] [|] [|]];
    destruct H as [H | H]; try discriminate H; repeat split.
Qed.

(** The text of a value starts with a character that is neither
    whitespace nor a closing bracket. *)
Lemma print_head (level : nat) (j : json) :
  exists c r, print level j = String c r /\ value_head c.
Proof.
  destruct j as [| [|] | z | x | s | [| y l] | [| [k v] ms]]; simpl;
    try (eexists; eexists; split; [reflexivity | repeat split]).
  - pose proof (scan_number_int z EmptyString eq_refl) as H.
    apply scan_number_head in H. destruct H as (c & r & E & Hc).
    rewrite append_nil_r in E. exists c, r.
    split; [exact E | apply number_head_value_head, Hc].
  - pose proof (float_repr_literal x EmptyString eq_refl) as H.
    apply scan_number_head in H. destruct H as (c & r & E & Hc).
    rewrite append_nil_r in E. exists c, r.
    split; [exact E | apply number_head_value_head, Hc].
Qed.

Lemma skip_ws_head_eq (s : string) (c : ascii) (r : string) :
  is_ws c = false -> s = String c r -> skip_ws s = s.
Proof. intros H ->. apply skip_ws_head, H. Qed.

Lemma parse_value_int (fuel : nat) (z : Z) (rest : string) :
  ends_number rest = true ->
  parse_value (S fuel) (int_repr z ++ rest) = Some (JInt z, rest).
Proof.
  intro Hrest. pose proof (scan_number_int z rest Hrest) as Hs.
  destruct (scan_number_head _ _ Hs) as (c & r & E & Hc).
  rewrite E, (parse_value_number fuel c r Hc), <- E.
  unfold parse_number. rewrite Hs, int_of_literal_repr. reflexivity.
Qed.

Lemma parse_value_float (fuel : nat) (x : float) (rest : string) :
  ends_number rest = true ->
  parse_value (S fuel) (float_repr x ++ rest) = Some (JFloat x, rest).
Proof.
  intro Hrest. pose proof (float_repr_literal x rest Hrest) as Hs.
  destruct (scan_number_head _ _ Hs) as (c & r & E & Hc).
  rewrite E, (parse_value_number fuel c r Hc), <- E.
  unfold parse_number. rewrite Hs, float_repr_round_trip. reflexivity.
Qed.

Lemma parse_value_str (fuel : nat) (s rest : string) :
  parse_value (S fuel) (quote s ++ rest) = Some (JStr s, rest).
Proof.
  destruct (scan_string_quote s rest) as (body & E & Hs).
  rewrite E. simpl. rewrite Hs. reflexivity.
Qed.

Lemma join_items_head (level : nat) (x : string) (xs : list string)
      (tail : string) (c : ascii) (r : string) :
  x = String c r ->
  exists r', join_items level (x :: xs) ++ tail = String c r'.
Proof.
  intros ->. destruct xs as [| y ys]; simpl; eexists; reflexivity.
Qed.

Lemma join_items_cons (level : nat) (x y : string) (ys : list string)
      (tail : string) :
  join_items level (x :: y :: ys) ++ tail =
  x ++ String "," (newline_indent level ++ (join_items level (y :: ys) ++ tail)).
Proof.
  change (join_items level (x :: y :: ys))
    with (x ++ String "," (newline_indent level) ++ join_items level (y :: ys)).
  rewrite !append_assoc. reflexivity.
Qed.

Lemma ends_number_newline_indent (level : nat) (s : string) :
  ends_number (newline_indent level ++ s) = true.
Proof. reflexivity. Qed.

Lemma parse_elements_step (fuel : nat) (s : string) :
  parse_elements (S fuel) s =
  match parse_value fuel s with
  | Some (v, r) =>
      match skip_ws r with
      | String c r1 =>
          if Ascii.eqb c "]" then Some ([v], r1)
          else if Ascii.eqb c "," then
            match parse_elements fuel (skip_ws r1) with
            | Some (vs, rest) => Some (v :: vs, rest)
            | None => None
            end
          else None
      | EmptyString => None
      end
  | None => None
  end.
Proof. reflexivity. Qed.

Lemma skip_ws_then (level : nat) (c : ascii) (r : string) :
  is_ws c = false ->
  skip_ws (newline_indent level ++ String c r) = String c r.
Proof.
  intro H. rewrite skip_ws_newline_indent. apply skip_ws_head, H.
Qed.

(** The items of an array, printed one per line, are read back. *)
Lemma parse_elements_join (l : list json) :
  Forall reads_back l -> l <> [] ->
  forall level rest fuel,
    (esize l <= fuel)%nat ->
    parse_elements fuel
      (join_items (S level) (map (print (S level)) l) ++
       newline_indent level ++ String "]" rest) = Some (l, rest).
Proof.
  induction 1 as [| x l Hx Hl IH]; intros Hne level rest fuel Hfuel;
    [congruence |].
  simpl in Hfuel. destruct fuel as [| fuel]; [lia |].
  rewrite parse_elements_step.
  destruct l as [| y l'].
  - change (join_items (S level) (map (print (S level)) [x]))
      with (print (S level) x).
    rewrite (Hx (S level) _ fuel) by (try lia; reflexivity).
    rewrite skip_ws_then by reflexivity. reflexivity.
  - change (map (print (S level)) (x :: y :: l'))
      with (print (S level) x :: print (S level) y :: map (print (S level)) l').
    rewrite join_items_cons.
    rewrite (Hx (S level) _ fuel) by (try (simpl in *; lia); reflexivity).
    rewrite skip_ws_head by reflexivity.
    change (Ascii.eqb "," "]") with false. change (Ascii.eqb "," ",") with true.
    cbv iota.
    destruct (print_head (S level) y) as (c & r & E & Hws & _).
    destruct (join_items_head (S level) (print (S level) y)
                (map (print (S level)) l')
                (newline_indent level ++ String "]" rest) c r E) as [r' E'].
    rewrite E', (skip_ws_then _ _ _ Hws), <- E'.
    change (print (S level) y :: map (print (S level)) l')
      with (map (print (S level)) (y :: l')).
    rewrite (IH ltac:(discriminate) level rest fuel)
      by (simpl in *; lia).
    reflexivity.
Qed.

Lemma skip_ws_print (level : nat) (v : json) (tail : string) :
  skip_ws (print level v ++ tail) = print level v ++ tail.
Proof.
  destruct (print_head level v) as (c & r & E & Hws & _).
  rewrite E. simpl. rewrite Hws. reflexivity.
Qed.

Lemma skip_ws_space (s : string) : skip_ws (String " " s) = skip_ws s.
Proof. reflexivity. Qed.

Lemma parse_members_step (fuel : nat) (r : string) :
  parse_members (S fuel) (String dquote r) =
  match scan_string r with
  | Some (k, r1) =>
      match skip_ws r1 with
      | String c1 r2 =>
          if Ascii.eqb c1 ":" then
            match parse_value fuel (skip_ws r2) with
            | Some (v, r3) =>
                match skip_ws r3 with
                | String c3 r4 =>
                    if Ascii.eqb c3 "}" then Some ([(k, v)], r4)
                    else if Ascii.eqb c3 "," then
                      match parse_members fuel (skip_ws r4) with
                      | Some (ms, rest) => Some ((k, v) :: ms, rest)
                      | None => None
                      end
                    else None
                | EmptyString => None
                end
            | None => None
            end
          else None
      | EmptyString => None
      end
  | None => None
  end.
Proof. reflexivity. Qed.

Lemma member_text_eq (level : nat) (k : string) (v : json) (tail : string) :
  member_text level (k, v) ++ tail =
  String dquote (escape k ++ String dquote
                   (String ":" (String " " (print level v ++ tail)))).
Proof.
  unfold Json.member_text, quote. simpl. rewrite !append_assoc. reflexivity.
Qed.

(** The members of an object, printed one per line, are read back. *)
Lemma parse_members_join (ms : list (string * json)) :
  Forall (fun kv => reads_back (snd kv)) ms -> ms <> [] ->
  forall level rest fuel,
    (msize ms <= fuel)%nat ->
    parse_members fuel
      (join_items (S level) (map (member_text (S level)) ms) ++
       newline_indent level ++ String "}" rest) = Some (ms, rest).
Proof.
  induction 1 as [| [k v] ms Hv Hms IH]; intros Hne level rest fuel Hfuel;
    [congruence |].
  simpl in Hfuel, Hv. destruct fuel as [| fuel]; [lia |].
  destruct ms as [| [k' v'] ms'].
  - change (join_items (S level) (map (member_text (S level)) [(k, v)]))
      with (member_text (S level) (k, v)).
    rewrite member_text_eq, parse_members_step, scan_string_escape.
    rewrite skip_ws_head by reflexivity.
    change (Ascii.eqb ":" ":") with true. cbv iota.
    rewrite skip_ws_space, skip_ws_print.
    rewrite (Hv (S level) _ fuel) by (try lia; reflexivity).
    rewrite skip_ws_then by reflexivity. reflexivity.
  - change (map (member_text (S level)) ((k, v) :: (k', v') :: ms'))
      with (member_text (S level) (k, v) :: member_text (S level) (k', v')
              :: map (member_text (S level)) ms').
    rewrite join_items_cons.
    rewrite member_text_eq, parse_members_step, scan_string_escape.
    rewrite skip_ws_head by reflexivity.
    change (Ascii.eqb ":" ":") with true. cbv iota.
    rewrite skip_ws_space, skip_ws_print.
    rewrite (Hv (S level) _ fuel) by (try (simpl in *; lia); reflexivity).
    rewrite skip_ws_head by reflexivity.
    change (Ascii.eqb "," "}") with false. change (Ascii.eqb "," ",") with true.
    cbv iota.
    change (member_text (S level) (k', v') :: map (member_text (S level)) ms')
      with (map (member_text (S level)) ((k', v') :: ms')).
    assert (Hq : exists r', join_items (S level)
                     (map (member_text (S level)) ((k', v') :: ms')) ++
                   newline_indent level ++ String "}" rest = String dquote r').
    { assert (Hm : exists r0, member_text (S level) (k', v') = String dquote r0)
        by (unfold Json.member_text, quote; simpl; eexists; reflexivity).
      destruct Hm as [r0 Er0].
      apply join_items_head with (r := r0). exact Er0. }
    destruct Hq as [r' E'].
    rewrite E', skip_ws_then by reflexivity. rewrite <- E'.
    rewrite (IH ltac:(discriminate) level rest fuel) by (simpl in *; lia).
    reflexivity.
Qed.

Lemma append_cons (c : ascii) (a b : string) :
  String c a ++ b = String c (a ++ b).
Proof. reflexivity. Qed.

Lemma print_array (level : nat) (x : json) (l : list json) (rest : string) :
  print level (JArr (x :: l)) ++ rest =
  String "[" (newline_indent (S level) ++
              (join_items (S level) (map (print (S level)) (x :: l)) ++
               newline_indent level ++ String "]" rest)).
Proof.
  change (print level (JArr (x :: l)))
    with (String "[" (newline_indent (S level) ++
                      join_items (S level) (map (print (S level)) (x :: l)) ++
                      newline_indent level ++ "]")).
  rewrite append_cons, !append_assoc. reflexivity.
Qed.

Lemma print_object (level : nat) (kv : string * json)
      (ms : list (string * json)) (rest : string) :
  print level (JObj (kv :: ms)) ++ rest =
  String "{" (newline_indent (S level) ++
              (join_items (S level) (map (member_text (S level)) (kv :: ms)) ++
               newline_indent level ++ String "}" rest)).
Proof.
  change (print level (JObj (kv :: ms)))
    with (String "{" (newline_indent (S level) ++
                      join_items (S level)
                        (map (member_text (S level)) (kv :: ms)) ++
                      newline_indent level ++ "}")).
  rewrite append_cons, !append_assoc. reflexivity.
Qed.

Lemma parse_value_array (fuel : nat) (c : ascii) (r s : string) :
  is_ws c = false -> Ascii.eqb c "]" = false ->
  skip_ws s = String c r ->
  parse_value (S fuel) (String "[" s) =
  match parse_elements fuel (String c r) with
  | Some (l, rest) => Some (JArr l, rest)
  | None => None
  end.
Proof.
  intros _ Hc Hs. simpl. rewrite Hs, Hc. reflexivity.
Qed.

Lemma parse_value_object (fuel : nat) (c : ascii) (r s : string) :
  Ascii.eqb c "}" = false ->
  skip_ws s = String c r ->
  parse_value (S fuel) (String "{" s) =
  match parse_members fuel (String c r) with
  | Some (ms, rest) => Some (JObj ms, rest)
  | None => None
  end.
Proof.
  intros Hc Hs. simpl. rewrite Hs, Hc. reflexivity.
Qed.

(** Every printed document is parsed back to itself, leaving the text
    that follows it. *)
Lemma parse_print (j : json) : reads_back j.
Proof.
  induction j as [| b | z | x | s | l IH | ms IH] using json_nested_ind;
    intros level rest fuel Hfuel Hrest;
    (destruct fuel as [| fuel]; [simpl in Hfuel; lia |]).
  - reflexivity.
  - destruct b; reflexivity.
  - apply parse_value_int, Hrest.
  - apply parse_value_float, Hrest.
  - apply parse_value_str.
  - destruct l as [| x l]; [reflexivity |].
    rewrite print_array.
    destruct (print_head (S level) x) as (c & r & E & Hws & Hb & _).
    destruct (join_items_head (S level) (print (S level) x)
                (map (print (S level)) l)
                (newline_indent level ++ String "]" rest) c r E) as [r' E'].
    change (print (S level) x :: map (print (S level)) l)
      with (map (print (S level)) (x :: l)) in E'.
    rewrite (parse_value_array fuel c r' _ Hws Hb)
      by (rewrite E'; apply skip_ws_then, Hws).
    rewrite <- E'.
    rewrite (parse_elements_join (x :: l) IH ltac:(discriminate) level rest fuel)
      by (simpl in Hfuel; unfold Json.esize; simpl; lia).
    reflexivity.
  - destruct ms as [| [k v] ms]; [reflexivity |].
    rewrite print_object.
    assert (Hq : exists r',
               join_items (S level) (map (member_text (S level)) ((k, v) :: ms)) ++
               newline_indent level ++ String "}" rest = String dquote r').
    { assert (Hm : exists r0, member_text (S level) (k, v) = String dquote r0)
        by (unfold Json.member_text, quote; simpl; eexists; reflexivity).
      destruct Hm as [r0 Er0].
      apply join_items_head with (r := r0). exact Er0. }
    destruct Hq as [r' E'].
    rewrite (parse_value_object fuel dquote r' _ eq_refl)
      by (rewrite E'; apply skip_ws_then; reflexivity).
    rewrite <- E'.
    rewrite (parse_members_join ((k, v) :: ms) IH ltac:(discriminate)
               level rest fuel)
      by (simpl in Hfuel; unfold Json.msize; simpl; lia).
    reflexivity.
Qed.

(** ** The fuel [loads] starts with is enough *)

Lemma length_append (a b : string) :
  String.length (a ++ b) = (String.length a + String.length b)%nat.
Proof. induction a as [| c a IH]; simpl; [reflexivity | rewrite IH; reflexivity]. Qed.

Lemma join_items_length (level : nat) (items : list string) :
  (fold_right (fun x acc => S (String.length x + acc)) 0%nat items
   <= S (String.length (join_items level items)))%nat.
Proof.
  induction items as [| x [| y ys] IH].
  - simpl. lia.
  - simpl. lia.
  - change (join_items level (x :: y :: ys))
      with (x ++ String "," (newline_indent level) ++ join_items level (y :: ys)).
    rewrite !length_append.
    change (fold_right (fun x acc => S (String.length x + acc)) 0%nat (x :: y :: ys))
      with (S (String.length x +
               fold_right (fun x acc => S (String.length x + acc)) 0%nat (y :: ys))).
    assert (Hsep : (1 <= String.length (String "," (newline_indent level)))%nat)
      by (simpl; lia).
    lia.
Qed.

Lemma sizes_le_lengths (level : nat) (l : list json) :
  Forall (fun j => forall level, (size j <= String.length (print level j))%nat) l ->
  (fold_right (fun x acc => S (size x + acc)) 0%nat l <=
   fold_right (fun x acc => S (String.length x + acc)) 0%nat
              (map (print level) l))%nat.
Proof.
  induction 1 as [| y l' Hy Hl' IHl]; simpl; [lia |].
  specialize (Hy level). lia.
Qed.

Lemma member_sizes_le_lengths (level : nat) (ms : list (string * json)) :
  Forall (fun kv => forall level,
            (size (snd kv) <= String.length (print level (snd kv)))%nat) ms ->
  (fold_right (fun kv acc => match kv with
                             | (_, v) => S (size v + acc)
                             end) 0%nat ms <=
   fold_right (fun x acc => S (String.length x + acc)) 0%nat
              (map (member_text level) ms))%nat.
Proof.
  induction 1 as [| [k v] l' Hy Hl' IHl]; simpl; [lia |].
  specialize (Hy level). simpl in Hy. rewrite !length_append. simpl. lia.
Qed.

Lemma size_arr (l : list json) :
  size (JArr l) = S (fold_right (fun x acc => S (size x + acc)) 0%nat l).
Proof. reflexivity. Qed.

Lemma size_obj (ms : list (string * json)) :
  size (JObj ms) =
  S (fold_right (fun kv acc => match kv with
                               | (_, v) => S (size v + acc)
                               end) 0%nat ms).
Proof. reflexivity. Qed.

Lemma length_cons (c : ascii) (s : string) :
  String.length (String c s) = S (String.length s).
Proof. reflexivity. Qed.

Lemma newline_indent_length (level : nat) :
  (1 <= String.length (newline_indent level))%nat.
Proof. simpl. lia. Qed.

Lemma size_le_length (j : json) :
  forall level, (size j <= String.length (print level j))%nat.
Proof.
  induction j as [| b | z | x | s | l IH | ms IH] using json_nested_ind;
    intro level;
    try (destruct (print_head level ltac:(first [exact (JInt z) | exact (JFloat x)]))
           as (c & r & E & _); simpl in *; rewrite E; simpl; lia).
  - simpl. lia.
  - destruct b; simpl; lia.
  - simpl. lia.
  - destruct l as [| x l]; [simpl; lia |].
    pose proof (print_array level x l EmptyString) as E.
    rewrite append_nil_r in E. rewrite E. clear E.
    rewrite size_arr, length_cons, !length_append.
    pose proof (join_items_length (S level) (map (print (S level)) (x :: l))) as Hj.
    pose proof (sizes_le_lengths (S level) (x :: l) IH) as Hs.
    pose proof (newline_indent_length (S level)) as Hn.
    lia.
  - destruct ms as [| [k v] ms]; [simpl; lia |].
    pose proof (print_object level (k, v) ms EmptyString) as E.
    rewrite append_nil_r in E. rewrite E. clear E.
    rewrite size_obj, length_cons, !length_append.
    pose proof (join_items_length (S level)
                  (map (member_text (S level)) ((k, v) :: ms))) as Hj.
    pose proof (member_sizes_le_lengths (S level) ((k, v) :: ms) IH) as Hs.
    pose proof (newline_indent_length (S level)) as Hn.
    lia.
Qed.

(** ** [loads] after [print] *)

Abbreviation loads := (Json.loads float_of_literal).
Abbreviation dumps := (Json.dumps float_repr).
Abbreviation encode := (Json.encode float_repr).
Abbreviation encodes_back := (Json.encodes_back float_repr).
Abbreviation pair_of := (@Json.pair_of float).

Lemma loads_print (j : json) : loads (print 0 j) = Ok (decode j).
Proof.
  unfold Json.loads.
  pose proof (skip_ws_print 0 j EmptyString) as Hws.
  rewrite append_nil_r in Hws. rewrite Hws.
  pose proof (parse_print j 0%nat EmptyString (S (String.length (print 0 j)))) as Hp.
  rewrite append_nil_r in Hp. rewrite Hp.
  - reflexivity.
  - pose proof (size_le_length j 0). lia.
  - reflexivity.
Qed.

(** ** Encoding and decoding *)

Lemma pyval_nested_ind (P : pyval -> Prop) :
  P PNone ->
  (forall b, P (PBool b)) ->
  (forall z, P (PInt z)) ->
  (forall x, P (PFloat x)) ->
  (forall s, P (PStr s)) ->
  (forall l, Forall P l -> P (PList l)) ->
  (forall l, Forall P l -> P (PTuple l)) ->
  (forall items, Forall (fun kv => P (snd kv)) items -> P (PDict items)) ->
  forall v, P v.
Proof.
  intros Hnone Hbool Hint Hfloat Hstr Hlist Htuple Hdict.
  fix IH 1. intro v. destruct v as [| b | z | x | s | l | l | items].
  - exact Hnone.
  - apply Hbool.
  - apply Hint.
  - apply Hfloat.
  - apply Hstr.
  - apply Hlist. induction l as [| y l IHl]; constructor; [apply IH | exact IHl].
  - apply Htuple. induction l as [| y l IHl]; constructor; [apply IH | exact IHl].
  - apply Hdict. induction items as [| [k w] items IHi]; constructor;
      [apply IH | exact IHi].
Qed.

Lemma dict_set_fresh (items : list (string * pyval)) (k : string) (v : pyval) :
  existsb (String.eqb k) (map fst items) = false ->
  dict_set (map pair_of items) k v = (map pair_of items ++ [(PStr k, v)])%list.
Proof.
  induction items as [| [k' v'] items IH]; simpl; intro H; [reflexivity |].
  apply orb_false_iff in H. destruct H as [Hk Hrest].
  rewrite String.eqb_sym in Hk. rewrite Hk, (IH Hrest). reflexivity.
Qed.

Lemma existsb_app_false (X : Type) (f : X -> bool) (l1 l2 : list X) :
  existsb f (l1 ++ l2) = false <-> existsb f l1 = false /\ existsb f l2 = false.
Proof. rewrite existsb_app. apply orb_false_iff. Qed.

Lemma dict_of_pairs_distinct_from (pairs acc : list (string * pyval)) :
  distinct (map fst pairs) = true ->
  (forall k, In k (map fst pairs) ->
             existsb (String.eqb k) (map fst acc) = false) ->
  fold_left (fun d kv => dict_set d (fst kv) (snd kv)) pairs (map pair_of acc)
  = map pair_of (acc ++ pairs).
Proof.
  revert acc. induction pairs as [| [k v] pairs IH]; intros acc Hd Hacc; simpl.
  - rewrite app_nil_r. reflexivity.
  - simpl in Hd. apply andb_true_iff in Hd. destruct Hd as [Hk Hd].
    apply negb_true_iff in Hk.
    rewrite dict_set_fresh by (apply Hacc; left; reflexivity).
    change [(PStr k, v)] with (map pair_of [(k, v)]). rewrite <- map_app.
    rewrite IH.
    + rewrite <- app_assoc. reflexivity.
    + exact Hd.
    + intros k' Hk'. rewrite map_app. apply existsb_app_false. split.
      * apply Hacc. right. exact Hk'.
      * simpl. rewrite orb_false_r.
        destruct (String.eqb k' k) eqn:E; [| reflexivity].
        apply String.eqb_eq in E. subst k'.
        exfalso. assert (Hex : existsb (String.eqb k) (map fst pairs) = true).
        { apply existsb_exists. exists k. split; [exact Hk' | apply String.eqb_refl]. }
        congruence.
Qed.

Lemma dict_of_pairs_distinct (pairs : list (string * pyval)) :
  distinct (map fst pairs) = true ->
  dict_of_pairs pairs = map pair_of pairs.
Proof.
  intro Hd. unfold dict_of_pairs.
  apply (dict_of_pairs_distinct_from pairs [] Hd). intros; reflexivity.
Qed.

Lemma encode_list (l : list pyval) :
  Forall encodes_back l -> forallb (@json_native float) l = true ->
  exists js, sequence (map encode l) = Ok js /\ map (@decode float) js = l.
Proof.
  induction 1 as [| v l Hv Hl IH]; simpl; intro Hn.
  - exists []. split; reflexivity.
  - apply andb_true_iff in Hn. destruct Hn as [Hnv Hnl].
    destruct (Hv Hnv) as (j & Ej & Dj). destruct (IH Hnl) as (js & Ejs & Djs).
    exists (j :: js). rewrite Ej, Ejs. simpl. rewrite Dj, Djs.
    split; reflexivity.
Qed.

Lemma encode_members (items : list (pyval * pyval)) :
  Forall (fun kv => encodes_back (snd kv)) items ->
  forallb (fun kv => match kv with
                     | (PStr _, v') => json_native v'
                     | _ => false
                     end) items = true ->
  exists ms,
    sequence (map (fun kv => match kv with
                             | (k, v) =>
                                 k' <- encode_key float_repr k ;;
                                 v' <- encode v ;;
                                 Ok (k', v')
                             end) items) = Ok ms /\
    map pair_of (map (fun kv => match kv with (k, v) => (k, decode v) end) ms)
    = items /\
    map fst ms = str_keys items.
Proof.
  induction 1 as [| [k v] items Hv Hl IH]; simpl; intro Hn.
  - exists []. repeat split.
  - apply andb_true_iff in Hn. destruct Hn as [Hnv Hnl].
    destruct k as [| | | | s | | |]; try discriminate Hnv.
    simpl in Hv. destruct (Hv Hnv) as (j & Ej & Dj).
    destruct (IH Hnl) as (ms & Ems & Dms & Kms).
    exists ((s, j) :: ms). rewrite Ej, Ems. simpl. rewrite Dj, Dms, Kms.
    repeat split.
Qed.

(** A JSON-native object is encoded, and decoding gives it back. *)
Lemma encode_decode (v : pyval) : encodes_back v.
Proof.
  induction v as [| b | z | x | s | l IH | l IH | items IH]
    using pyval_nested_ind; intro Hn;
    try (eexists; split; reflexivity).
  - simpl in Hn. destruct (encode_list l IH Hn) as (js & Ejs & Djs).
    exists (JArr js). simpl. rewrite Ejs. simpl. rewrite Djs.
    split; reflexivity.
  - discriminate Hn.
  - simpl in Hn. apply andb_true_iff in Hn. destruct Hn as [Hn Hd].
    destruct (encode_members items IH Hn) as (ms & Ems & Dms & Kms).
    exists (JObj ms). simpl. rewrite Ems. simpl. split; [reflexivity |].
    rewrite dict_of_pairs_distinct.
    + rewrite Dms. reflexivity.
    + rewrite map_map. rewrite <- Kms in Hd.
      erewrite map_ext; [exact Hd |]. intros [k v]. reflexivity.
Qed.

(** [json.loads(json.dumps(v, indent=2))] is [v] for every JSON-native
    object [v]. *)
Lemma loads_dumps (v : pyval) :
  json_native v = true ->
  exists text, dumps v = Ok text /\ loads text = Ok v.
Proof.
  intro Hn. destruct (encode_decode v Hn) as (j & Ej & Dj).
  exists (print 0 j). unfold Json.dumps. rewrite Ej. simpl.
  split; [reflexivity |]. rewrite loads_print, Dj. reflexivity.
Qed.

(** C10, as amended.  For every configuration whose
    [interactive_state_colors] holds JSON-native objects only, the text
    [to_js_config()] returns parses as JSON, and the fields
    [particlesEnabled], [decongestionEnabled], [animationSpeed],
    [fontFamily], [monoFontFamily] and [stateColors] of the parsed object
    equal the corresponding fields of the configuration.  Floats are the
    finite ones, for which Python prints a literal that reads back. *)
Theorem to_js_config_parses_back_to_native_settings :
  forall (cfg : Config.DiagramConfig float),
    forallb (@json_native float) (Config.interactive_state_colors cfg) = true ->
    exists text obj,
      Config.to_js_config float_repr cfg = Ok text /\
      loads text = Ok obj /\
      getitem obj "particlesEnabled"
      = Some (PBool (Config.particles_enabled cfg)) /\
      getitem obj "decongestionEnabled"
      = Some (PBool (Config.decongestion_enabled cfg)) /\
      getitem obj "animationSpeed"
      = Some (PFloat (Config.animation_speed cfg)) /\
      getitem obj "fontFamily" = Some (PStr (Config.font_family cfg)) /\
      getitem obj "monoFontFamily"
      = Some (PStr (Config.mono_font_family cfg)) /\
      getitem obj "stateColors"
      = Some (PList (Config.interactive_state_colors cfg)).
Proof.
  intros cfg Hcolors.
  assert (Hn : json_native (Config.js_config_dict cfg) = true).
  { simpl. rewrite Hcolors. reflexivity. }
  destruct (loads_dumps (Config.js_config_dict cfg) Hn) as (text & Hd & Hl).
  exists text, (Config.js_config_dict cfg).
  split; [exact Hd |]. split; [exact Hl |].
  repeat split.
Qed.

End JsonRoundTrip.

Section SampleFloats.

Import Json.
Local Open Scope string_scope.

Lemma sample_repr_literal (x : sample_float) (rest : string) :
  ends_number rest = true ->
  scan_number (sample_repr x ++ rest) = Some (sample_repr x, true, rest).
Proof.
  intro Hrest.
  pose proof (scan_digits_none rest (ends_number_no_digit rest Hrest)) as Hd.
  pose proof (scan_exp_none rest Hrest) as He.
  destruct x; unfold scan_number; simpl; rewrite Hd; simpl; rewrite He;
    reflexivity.
Qed.

Lemma sample_repr_round_trip (x : sample_float) :
  sample_of_literal (sample_repr x) = Some x.
Proof. destruct x; reflexivity. Qed.

End SampleFloats.

Section JsonAscii.

Import Json.
Local Open Scope string_scope.

Lemma ascii_text_app (a b : string) :
  ascii_text (a ++ b) = ascii_text a && ascii_text b.
Proof.
  induction a as [| c a IH]; simpl; [reflexivity |].
  rewrite IH, andb_assoc. reflexivity.
Qed.

Lemma escape_char_ascii (c : ascii) : ascii_text (escape_char c) = true.
Proof.
  destruct c as [[|] [|] [|] [|] [|] [|] [|] [|]]; vm_compute; reflexivity.
Qed.

Lemma escape_ascii (s : string) : ascii_text (escape s) = true.
Proof.
  induction s as [| c s IH]; simpl; [reflexivity |].
  rewrite ascii_text_app, escape_char_ascii, IH. reflexivity.
Qed.

Lemma quote_ascii (s : string) : ascii_text (quote s) = true.
Proof.
  unfold quote. cbn [ascii_text]. rewrite ascii_text_app, escape_ascii.
  reflexivity.
Qed.

Lemma uint_ascii (d : Decimal.uint) :
  ascii_text (NilEmpty.string_of_uint d) = true.
Proof. induction d; simpl; try exact IHd; reflexivity. Qed.

Lemma int_repr_ascii (z : Z) : ascii_text (int_repr z) = true.
Proof.
  unfold int_repr. destruct (Z.to_int z) as [d | d]; simpl.
  - apply uint_ascii.
  - apply uint_ascii.
Qed.

Lemma spaces_ascii (n : nat) : ascii_text (spaces n) = true.
Proof. induction n as [| n IH]; simpl; [reflexivity | exact IH]. Qed.

Lemma newline_indent_ascii (level : nat) :
  ascii_text (newline_indent level) = true.
Proof. unfold newline_indent. cbn [ascii_text]. apply spaces_ascii. Qed.

Lemma join_items_ascii (level : nat) (items : list string) :
  Forall (fun s => ascii_text s = true) items ->
  ascii_text (join_items level items) = true.
Proof.
  induction 1 as [| x items Hx Hitems IH]; [reflexivity |].
  destruct items as [| y items']; [exact Hx |].
  change (join_items level (x :: y :: items'))
    with (x ++ String "," (newline_indent level)
            ++ join_items level (y :: items')).
  rewrite !ascii_text_app, Hx, IH. cbn [ascii_text].
  rewrite newline_indent_ascii. reflexivity.
Qed.

Variable float : Type.
Variable float_repr : float -> string.

(** [float.__repr__] writes digits, a sign, a point, an exponent mark, or
    one of the words [inf] and [nan]. *)
Hypothesis float_repr_ascii : forall x, ascii_text (float_repr x) = true.

Lemma print_ascii (j : json float) :
  forall level, ascii_text (print float_repr level j) = true.
Proof.
  induction j as [| b | z | x | s | l IH | ms IH] using json_nested_ind;
    intro level.
  - reflexivity.
  - destruct b; reflexivity.
  - apply int_repr_ascii.
  - apply float_repr_ascii.
  - apply quote_ascii.
  - destruct l as [| v l']; [reflexivity |].
    change (print float_repr level (JArr (v :: l')))
      with (String "[" (newline_indent (S level) ++
                        join_items (S level)
                          (map (print float_repr (S level)) (v :: l')) ++
                        newline_indent level ++ "]")).
    cbn [ascii_text]. change (printable "[") with true. cbn [andb].
    rewrite !ascii_text_app, !newline_indent_ascii. cbn [andb].
    rewrite join_items_ascii; [reflexivity |].
    apply Forall_map. eapply Forall_impl; [| exact IH].
    intros y Hy. apply Hy.
  - destruct ms as [| kv ms']; [reflexivity |].
    change (print float_repr level (JObj (kv :: ms')))
      with (String "{" (newline_indent (S level) ++
                        join_items (S level)
                          (map (fun kv => match kv with
                                          | (k, v) =>
                                              quote k ++ ": " ++
                                              print float_repr (S level) v
                                          end) (kv :: ms')) ++
                        newline_indent level ++ "}")).
    cbn [ascii_text]. change (printable "{") with true. cbn [andb].
    rewrite !ascii_text_app, !newline_indent_ascii. cbn [andb].
    rewrite join_items_ascii; [reflexivity |].
    apply Forall_map. eapply Forall_impl; [| exact IH].
    intros [k v] Hv. simpl in Hv.
    rewrite !ascii_text_app, quote_ascii, Hv. reflexivity.
Qed.

Lemma dumps_ascii (v : pyval float) (text : string) :
  dumps float_repr v = Ok text -> ascii_text text = true.
Proof.
  unfold dumps. destruct (encode float_repr v) as [j | e]; simpl;
    [| discriminate].
  intro H. inversion H; subst. apply print_ascii.
Qed.

(** The text [to_js_config()] returns is plain ASCII, whatever the
    strings of the configuration hold: every character is a line feed or
    lies between the space and the tilde, the others being written as
    escapes. *)
Theorem to_js_config_writes_plain_ascii :
  forall (cfg : Config.DiagramConfig float) (text : string),
    Config.to_js_config float_repr cfg = Ok text ->
    ascii_text text = true /\
    forall c, In c (list_ascii_of_string text) ->
      c = newline \/ (32 <= nat_of_ascii c <= 126)%nat.
Proof.
  intros cfg text H. unfold Config.to_js_config in H.
  pose proof (dumps_ascii _ _ H) as Ha. split; [exact Ha |].
  clear H. induction text as [| a text IH]; simpl; [contradiction |].
  simpl in Ha. apply andb_true_iff in Ha. destruct Ha as [Hp Ht].
  intros c [<- | Hc]; [| apply IH; assumption].
  unfold printable in Hp. apply orb_true_iff in Hp. destruct Hp as [Hp | Hp].
  - left. apply Ascii.eqb_eq. exact Hp.
  - right. apply andb_true_iff in Hp. destruct Hp as [H1 H2].
    apply Nat.leb_le in H1. apply Nat.leb_le in H2. lia.
Qed.

Lemma sequence_outcome (X Y : Type) (f : X -> result Y) (ok : X -> bool)
      (l : list X) :
  Forall (fun x => (ok x = true -> exists y, f x = Ok y) /\
                   (ok x = false -> f x = Raise TypeError)) l ->
  (forallb ok l = true -> exists ys, sequence (map f l) = Ok ys) /\
  (forallb ok l = false -> sequence (map f l) = Raise TypeError).
Proof.
  induction 1 as [| x l [Hok Hbad] _ [IHok IHbad]]; simpl.
  - split; [eauto | discriminate].
  - destruct (ok x) eqn:Ex; simpl.
    + destruct (Hok eq_refl) as [y Ey]. rewrite Ey. simpl. split.
      * intro Hl. destruct (IHok Hl) as [ys Eys]. rewrite Eys. simpl. eauto.
      * intro Hl. rewrite (IHbad Hl). reflexivity.
    + rewrite (Hbad eq_refl). split; [discriminate | reflexivity].
Qed.

Lemma encode_key_outcome (k : pyval float) :
  (basic_key k = true -> exists s, encode_key float_repr k = Ok s) /\
  (basic_key k = false -> encode_key float_repr k = Raise TypeError).
Proof.
  destruct k as [| [|] | z | x | s | l | l | items]; simpl;
    split; intro H; try discriminate H; eauto.
Qed.

Lemma encode_outcome (v : pyval float) :
  (serialisable v = true -> exists j, encode float_repr v = Ok j) /\
  (serialisable v = false -> encode float_repr v = Raise TypeError).
Proof.
  induction v as [| b | z | x | s | l IH | l IH | items IH]
    using pyval_nested_ind;
    try (split; [intros _; eexists; reflexivity | discriminate]).
  - destruct (sequence_outcome _ _ (encode float_repr) (@serialisable float)
                l IH) as [Hok Hbad].
    cbn [serialisable encode]. split; intro H.
    + destruct (Hok H) as [js Ejs]. rewrite Ejs. simpl. eauto.
    + rewrite (Hbad H). reflexivity.
  - destruct (sequence_outcome _ _ (encode float_repr) (@serialisable float)
                l IH) as [Hok Hbad].
    cbn [serialisable encode]. split; intro H.
    + destruct (Hok H) as [js Ejs]. rewrite Ejs. simpl. eauto.
    + rewrite (Hbad H). reflexivity.
  - assert (Hitems :
      Forall (fun kv : pyval float * pyval float =>
                ((match kv with (k, v') => basic_key k && serialisable v' end)
                 = true ->
                 exists y, (match kv with
                            | (k, v) =>
                                k' <- encode_key float_repr k ;;
                                v' <- encode float_repr v ;;
                                Ok (k', v')
                            end) = Ok y) /\
                ((match kv with (k, v') => basic_key k && serialisable v' end)
                 = false ->
                 (match kv with
                  | (k, v) =>
                      k' <- encode_key float_repr k ;;
                      v' <- encode float_repr v ;;
                      Ok (k', v')
                  end) = Raise TypeError)) items).
    { eapply Forall_impl; [| exact IH]. intros [k v] [Hok Hbad]. simpl in *.
      destruct (encode_key_outcome k) as [Kok Kbad].
      destruct (basic_key k) eqn:Ek; simpl.
      - destruct (Kok eq_refl) as [s Es]. rewrite Es. simpl. split; intro H.
        + destruct (Hok H) as [j Ej]. rewrite Ej. simpl. eauto.
        + rewrite (Hbad H). reflexivity.
      - rewrite (Kbad eq_refl). split; [discriminate | reflexivity]. }
    destruct (sequence_outcome _ _ _ _ items Hitems) as [Hok Hbad].
    cbn [serialisable encode]. split; intro H.
    + destruct (Hok H) as [ms Ems]. rewrite Ems. simpl. eauto.
    + rewrite (Hbad H). reflexivity.
Qed.

(** [to_js_config()] returns a text exactly when every dictionary key in
    [interactive_state_colors], at any depth, is a [str], an [int], a
    [float], a [bool] or [None]; with any other key it raises
    [TypeError]. *)
Theorem to_js_config_raises_TypeError_on_other_keys :
  forall (cfg : Config.DiagramConfig float),
    (forallb (@serialisable float) (Config.interactive_state_colors cfg) = true ->
     exists text, Config.to_js_config float_repr cfg = Ok text) /\
    (forallb (@serialisable float) (Config.interactive_state_colors cfg) = false ->
     Config.to_js_config float_repr cfg = Raise TypeError).
Proof.
  intro cfg. unfold Config.to_js_config, dumps.
  destruct (encode_outcome (Config.js_config_dict cfg)) as [Hok Hbad].
  assert (E : serialisable (Config.js_config_dict cfg)
              = forallb (@serialisable float)
                        (Config.interactive_state_colors cfg)).
  { simpl. rewrite andb_true_r. reflexivity. }
  rewrite E in Hok, Hbad. split; intro H.
  - destruct (Hok H) as [j Ej]. rewrite Ej. simpl. eauto.
  - rewrite (Hbad H). reflexivity.
Qed.

End JsonAscii.

Section JsonFurther.

Import Json.
Local Open Scope string_scope.

Variable float : Type.
Variable float_repr : float -> string.
Variable float_of_literal : string -> option float.

Hypothesis float_repr_literal : forall x rest,
  ends_number rest = true ->
  scan_number (float_repr x ++ rest) = Some (float_repr x, true, rest).
Hypothesis float_repr_round_trip : forall x,
  float_of_literal (float_repr x) = Some x.

(** [json.loads(json.dumps(v, indent=2))] gives back every object made of
    [None], booleans, integers, finite floats, strings, lists and
    dictionaries with distinct string keys; a tuple of such objects comes
    back as the list of them. *)
Theorem dumps_then_loads_gives_the_object_back :
  (forall (v : pyval float),
      json_native v = true ->
      exists text,
        dumps float_repr v = Ok text /\
        loads float_of_literal text = Ok v) /\
  (forall (l : list (pyval float)),
      forallb (@json_native float) l = true ->
      exists text,
        dumps float_repr (PTuple l) = Ok text /\
        dumps float_repr (PList l) = Ok text /\
        loads float_of_literal text = Ok (PList l)).
Proof.
  split.
  - intros v Hv.
    exact (loads_dumps float float_repr float_of_literal float_repr_literal
             float_repr_round_trip v Hv).
  - intros l Hl.
    destruct (loads_dumps float float_repr float_of_literal float_repr_literal
                float_repr_round_trip (PList l) Hl) as (text & Hd & Hload).
    exists text. split; [exact Hd |]. split; [exact Hd | exact Hload].
Qed.

(** The parsed text of [to_js_config()] is an object with exactly the
    eight keys the method writes, in its order; [obsColor] and [piColor]
    hold the fill, stroke and text colours of the observation and start
    nodes under [fill], [stroke] and [dark]. *)
Theorem to_js_config_nested_colours_parse_back :
  forall (cfg : Config.DiagramConfig float),
    forallb (@json_native float) (Config.interactive_state_colors cfg) = true ->
    exists text items,
      Config.to_js_config float_repr cfg = Ok text /\
      loads float_of_literal text = Ok (PDict items) /\
      map fst items =
      [PStr "stateColors"; PStr "obsColor"; PStr "piColor";
       PStr "particlesEnabled"; PStr "decongestionEnabled";
       PStr "animationSpeed"; PStr "fontFamily"; PStr "monoFontFamily"] /\
      lookup items "obsColor" =
      Some (PDict [ (PStr "fill", PStr (Config.observation_fill cfg));
                    (PStr "stroke", PStr (Config.observation_stroke cfg));
                    (PStr "dark", PStr (Config.observation_text cfg)) ]) /\
      lookup items "piColor" =
      Some (PDict [ (PStr "fill", PStr (Config.start_fill cfg));
                    (PStr "stroke", PStr (Config.start_stroke cfg));
                    (PStr "dark", PStr (Config.start_text cfg)) ]).
Proof.
  intros cfg Hcolors.
  assert (Hn : json_native (Config.js_config_dict cfg) = true).
  { simpl. rewrite Hcolors. reflexivity. }
  destruct (loads_dumps float float_repr float_of_literal float_repr_literal
              float_repr_round_trip (Config.js_config_dict cfg) Hn)
    as (text & Hd & Hl).
  exists text. eexists. split; [exact Hd |]. split; [exact Hl |].
  repeat split.
Qed.

End JsonFurther.

Section Construction.

Local Open Scope Q_scope.

(** C5, as amended.  Constructing a [DiagramConfig] never fails and
    validates nothing: the generated [__init__] stores each of the
    twenty-one keyword arguments as it is given, the animation speed and
    the probability threshold included, and gives every field left out
    its documented default. *)
Theorem diagram_config_init_stores_any_value :
  forall (float : Type) (lit : Q -> float) (kw : Config.kwargs float),
    exists cfg,
      Config.__init__ lit kw = Ok cfg /\
      Config.state_colors cfg
      = if_not_none (Config.kw_state_colors kw)
          ["#2E86AB"; "#A23B72"; "#F18F01"; "#2CA58D";
           "#E84855"; "#6B4226"; "#7768AE"; "#1B998B"]%string /\
      Config.observation_fill cfg
      = if_not_none (Config.kw_observation_fill kw) "#F1F5F9"%string /\
      Config.observation_stroke cfg
      = if_not_none (Config.kw_observation_stroke kw) "#94A3B8"%string /\
      Config.observation_text cfg
      = if_not_none (Config.kw_observation_text kw) "#334155"%string /\
      Config.start_fill cfg
      = if_not_none (Config.kw_start_fill kw) "#F5F3FF"%string /\
      Config.start_stroke cfg
      = if_not_none (Config.kw_start_stroke kw) "#8B5CF6"%string /\
      Config.start_text cfg
      = if_not_none (Config.kw_start_text kw) "#5B21B6"%string /\
      Config.background_color cfg
      = if_not_none (Config.kw_background_color kw) "#FAFAFA"%string /\
      Config.font_family cfg
      = if_not_none (Config.kw_font_family kw) "Helvetica"%string /\
      Config.mono_font_family cfg
      = if_not_none (Config.kw_mono_font_family kw)
          "JetBrains Mono, monospace"%string /\
      Config.title cfg
      = if_not_none (Config.kw_title kw) "State Transition Diagram"%string /\
      Config.prob_threshold cfg
      = if_not_none (Config.kw_prob_threshold kw) (lit (1 # 100)) /\
      Config.edge_color cfg
      = if_not_none (Config.kw_edge_color kw) "#333333"%string /\
      Config.node_shape cfg
      = if_not_none (Config.kw_node_shape kw) "circle"%string /\
      Config.node_radius cfg
      = if_not_none (Config.kw_node_radius kw) (lit 40) /\
      Config.layout_engine cfg
      = if_not_none (Config.kw_layout_engine kw) "circo"%string /\
      Config.output_format cfg
      = if_not_none (Config.kw_output_format kw) "svg"%string /\
      Config.particles_enabled cfg
      = if_not_none (Config.kw_particles_enabled kw) true /\
      Config.decongestion_enabled cfg
      = if_not_none (Config.kw_decongestion_enabled kw) false /\
      Config.animation_speed cfg
      = if_not_none (Config.kw_animation_speed kw) (lit 1) /\
      Config.interactive_state_colors cfg
      = if_not_none (Config.kw_interactive_state_colors kw)
          (map (@Config.entry_dict float)
             [ Config.mk_entry "#F59E0B" "#FDE68A" "#92400E" ["#FBBF24"; "#D97706"];
               Config.mk_entry "#3B82F6" "#93C5FD" "#1E3A8A" ["#60A5FA"; "#2563EB"];
               Config.mk_entry "#10B981" "#6EE7B7" "#064E3B" ["#34D399"; "#059669"];
               Config.mk_entry "#F43F5E" "#FDA4AF" "#881337" ["#FB7185"; "#E11D48"];
               Config.mk_entry "#8B5CF6" "#C4B5FD" "#4C1D95" ["#A78BFA"; "#7C3AED"];
               Config.mk_entry "#06B6D4" "#67E8F9" "#155E75" ["#22D3EE"; "#0891B2"];
               Config.mk_entry "#EC4899" "#F9A8D4" "#831843" ["#F472B6"; "#DB2777"];
               Config.mk_entry "#14B8A6" "#5EEAD4" "#134E4A" ["#2DD4BF"; "#0D9488"];
               Config.mk_entry "#F97316" "#FDBA74" "#7C2D12" ["#FB923C"; "#EA580C"];
               Config.mk_entry "#6366F1" "#A5B4FC" "#3730A3" ["#818CF8"; "#4F46E5"];
               Config.mk_entry "#84CC16" "#BEF264" "#3F6212" ["#A3E635"; "#65A30D"];
               Config.mk_entry "#E879F9" "#F0ABFC" "#701A75" ["#D946EF"; "#C026D3"]
             ]%string).
Proof.
  intros float lit kw. eexists. split; [reflexivity |]. repeat split.
Qed.

(** [DiagramConfig(prob_threshold=2.0, animation_speed=-1.0)] is
    constructed, with a negative speed and a threshold above one. *)
Lemma invalid_settings_are_constructed :
  exists cfg,
    Config.__init__ (fun q : Q => q) Config.invalid_kwargs = Ok cfg /\
    Config.animation_speed cfg = - (1) /\
    Config.animation_speed cfg <= 0 /\
    Config.prob_threshold cfg = 2 /\
    1 < Config.prob_threshold cfg.
Proof.
  eexists. split; [reflexivity |]. simpl. repeat split; discriminate.
Qed.

End Construction.

Section RendererExamples.

Import Renderer.
Local Open Scope Q_scope.

Lemma default_well_configured : well_configured graphviz_std None None.
Proof. repeat split. discriminate. Qed.

(** Threshold [0.0], which is below [1.0], on the identity matrix: all nine
    edges are drawn, the six of weight zero included. *)
Lemma identity_threshold_zero_draws_nine_edges :
  resolve_threshold (resolve_config None) (Some 0) <= 1 /\
  exists g,
    render_state_diagram (Some graphviz_std) eye3 None None None None (Some 0) = Ok g /\
    List.length (edges g) = 9%nat.
Proof.
  split; [discriminate |].
  destruct square_eye3 as [Hsq HN].
  destruct (render_result graphviz_std eye3 None None None None (Some 0) Hsq HN
              default_well_configured) as (mp & g & _ & Hg & _ & He).
  exists g. split; [exact Hg |]. rewrite He, edge_list_length. reflexivity.
Qed.


Lemma render_draws_edge_iff_weight_reaches_threshold_witness :
  exists g,
    render_state_diagram (Some graphviz_std) simple_A None None None None (Some 0) = Ok g /\
    ((exists e, In e (edges g) /\ e_tail e = str 0 /\ e_head e = str 1)
     <-> 0 <= 3 # 10).
Proof.
  destruct (proj1 (render_draws_edge_iff_weight_reaches_threshold
                       graphviz_std)
              simple_A None None None None (Some 0)
              (proj1 square_simple_A) (proj2 square_simple_A)
              default_well_configured) as (g & Hg & Hiff).
  exists g. split; [exact Hg |]. apply (Hiff 0%nat 1%nat (3 # 10)).
  reflexivity.
Defined.

Lemma identity_draws_three_self_loops_witness :
  exists g,
    render_state_diagram (Some graphviz_std) eye3 None
      (Some (with_decongestion true default_config)) None None
      (Some (1 # 100)) = Ok g /\
    map (fun e => (e_tail e, e_head e)) (edges g) =
    [("0", "0"); ("1", "1"); ("2", "2")]%string.
Proof.
  apply (identity_draws_three_self_loops graphviz_std None default_config true None None
           (Some (1 # 100))).
  - repeat split. discriminate.
  - reflexivity.
  - discriminate.
Defined.

Lemma node_fill_cycles_palette_witness :
  exists g,
    render_state_diagram (Some graphviz_std) eye5 None (Some Config.two_colors) None None None
    = Ok g /\
    map n_fillcolor (nodes g) =
    ["#AA0000"; "#00BB00"; "#AA0000"; "#00BB00"; "#AA0000"]%string.
Proof.
  destruct (node_fill_cycles_palette graphviz_std eye5 None (Some Config.two_colors)
              None None None) as (g & Hg & Hlen & Hfill).
  - repeat constructor.
  - unfold shape0. simpl. lia.
  - repeat split. discriminate.
  - reflexivity.
  - exists g. split; [exact Hg |].
    destruct (nodes g) as [| n0 [| n1 [| n2 [| n3 [| n4 [| n5 l]]]]]];
      try discriminate Hlen.
    destruct (Hfill 0%nat ltac:(unfold shape0; simpl; lia)) as (x0 & E0 & _ & F0).
    destruct (Hfill 1%nat ltac:(unfold shape0; simpl; lia)) as (x1 & E1 & _ & F1).
    destruct (Hfill 2%nat ltac:(unfold shape0; simpl; lia)) as (x2 & E2 & _ & F2).
    destruct (Hfill 3%nat ltac:(unfold shape0; simpl; lia)) as (x3 & E3 & _ & F3).
    destruct (Hfill 4%nat ltac:(unfold shape0; simpl; lia)) as (x4 & E4 & _ & F4).
    simpl in E0, E1, E2, E3, E4, F0, F1, F2, F3, F4.
    inversion E0; inversion E1; inversion E2; inversion E3; inversion E4.
    subst. simpl. congruence.
Defined.

Lemma render_survives_degenerate_matrix_witness :
  max_prob_of (zeros 3) = Ok 1 /\
  exists g,
    render_state_diagram (Some graphviz_std) (zeros 3) None None None None (Some 0) = Ok g /\
    forall e, In e (edges g) -> e_penwidth e == 1 # 2.
Proof.
  apply (proj1 (proj2 (render_survives_degenerate_matrix graphviz_std)) 3%nat
           None None None None (Some 0)).
  - lia.
  - exact default_well_configured.
Defined.


Lemma edge_sequence_deterministic_in_index_order_witness :
  exists g1 g2 kept,
    render_state_diagram (Some graphviz_std) sticky_A None None None None (Some (1 # 10))
    = Ok g1 /\
    render_state_diagram (Some graphviz_std) sticky_A (Some ["Rainy"; "Sunny"]%string)
                         (Some Config.two_colors) (Some "png"%string) None
                         (Some (1 # 10)) = Ok g2 /\
    map edge_key (edges g1) = map edge_key (edges g2) /\
    StronglySorted lex_lt kept.
Proof.
  destruct (edge_sequence_deterministic_in_index_order graphviz_std sticky_A (1 # 10)
              None (Some ["Rainy"; "Sunny"]%string)
              None (Some Config.two_colors)
              None None (Some "png"%string) None
              (Some (1 # 10)) (Some (1 # 10))
              (proj1 square_sticky_A) (proj2 square_sticky_A)
              default_well_configured ltac:(repeat split; discriminate)
              eq_refl eq_refl)
    as (g1 & g2 & kept & H1 & H2 & Hk & _ & Hs & _).
  exists g1, g2, kept. repeat split; assumption.
Defined.

End RendererExamples.

Section RenderOutcomeExamples.

Import Renderer.
Local Open Scope Q_scope.

Lemma render_unknown_engine_or_format_raises_ValueError_witness :
  render_state_diagram (Some graphviz_std) simple_A None None
                       (Some "docx"%string) None None
  = Raise ValueError.
Proof.
  apply (render_unknown_engine_or_format_raises_ValueError graphviz_std).
  right. reflexivity.
Defined.

Lemma render_empty_palette_raises_ZeroDivisionError_witness :
  render_state_diagram (Some graphviz_std) simple_A None
                       (Some Config.no_colors) None None None
  = Raise ZeroDivisionError.
Proof.
  apply (render_empty_palette_raises_ZeroDivisionError graphviz_std);
    [reflexivity | reflexivity | reflexivity | discriminate].
Defined.

Lemma penwidth_at_most_four_witness :
  exists mp g,
    max_prob_of sticky_A = Ok mp /\
    render_state_diagram (Some graphviz_std) sticky_A None None None None None
    = Ok g /\
    (forall e, In e (edges g) -> e_penwidth e <= 4) /\
    width mp mp == 4.
Proof.
  apply (penwidth_at_most_four graphviz_std sticky_A None None None None None
           (proj1 square_sticky_A) (proj2 square_sticky_A)
           default_well_configured).
Defined.

Lemma edge_colours_follow_the_palette_witness :
  exists g,
    render_state_diagram (Some graphviz_std) simple_A None None None None None
    = Ok g /\
    map e_color (edges g) = ["#2E86AB"; "#333333"; "#333333"; "#A23B72"]%string.
Proof.
  destruct (edge_colours_follow_the_palette graphviz_std simple_A None None
              None None None (proj1 square_simple_A) (proj2 square_simple_A)
              default_well_configured) as (g & Hg & _).
  exists g. split; [exact Hg |].
  vm_compute in Hg. inversion Hg. reflexivity.
Defined.

Lemma default_labels_number_the_states_witness :
  exists g,
    render_state_diagram (Some graphviz_std) eye3 None None None None None
    = Ok g /\
    map (fun nd => (n_name nd, n_label nd)) (nodes g) =
    [("0", "S0"); ("1", "S1"); ("2", "S2")]%string.
Proof.
  apply (default_labels_number_the_states graphviz_std eye3 None None None None
           (proj1 square_eye3) (proj2 square_eye3) default_well_configured).
Defined.

End RenderOutcomeExamples.

Section RenderGraphExamples.

Import Renderer.
Local Open Scope Q_scope.


Lemma tall_array_raises_IndexError_witness :
  render_state_diagram (Some graphviz_std) tall_A None None None None None
  = Raise IndexError.
Proof.
  apply (tall_array_raises_IndexError graphviz_std tall_A 2).
  - repeat constructor.
  - lia.
  - unfold shape0. simpl. lia.
  - exact default_well_configured.
Defined.

Lemma zero_size_array_raises_ValueError_witness :
  render_state_diagram (Some graphviz_std) [[]; []] (Some ["a"; "b"]%string)
                       None None None None
  = Raise ValueError.
Proof.
  apply (zero_size_array_raises_ValueError graphviz_std).
  - reflexivity.
  - exact default_well_configured.
Defined.

Lemma graph_header_and_statement_order_witness :
  exists g,
    render_state_diagram (Some graphviz_std) simple_A None None
                         (Some ""%string) (Some "Weather"%string) None = Ok g /\
    g_format g = "svg"%string /\ g_comment g = "Weather"%string.
Proof.
  destruct (graph_header_and_statement_order graphviz_std simple_A None None
              (Some ""%string) (Some "Weather"%string) None
              (proj1 square_simple_A) (proj2 square_simple_A))
    as (g & Hg & _ & _ & Hf & Hc & _).
  - repeat split. discriminate.
  - exists g. split; [exact Hg |]. split; [exact Hf | exact Hc].
Defined.

Lemma one_node_per_label_given_witness :
  exists g g0,
    render_state_diagram (Some graphviz_std) eye3 (Some ["only"]%string)
                         None None None None = Ok g /\
    render_state_diagram (Some graphviz_std) eye3 None None None None None
    = Ok g0 /\
    List.length (nodes g) = 1%nat /\ edges g = edges g0.
Proof.
  destruct (one_node_per_label_given graphviz_std eye3 ["only"]%string
              None None None None (proj1 square_eye3) (proj2 square_eye3)
              default_well_configured)
    as (g & g0 & Hg & Hg0 & Hlen & _ & He).
  exists g, g0. repeat split; assumption.
Defined.

Lemma threshold_extremes_draw_all_or_nothing_witness :
  exists g,
    render_state_diagram (Some graphviz_std) (zeros 3) None None None None
                         (Some 0) = Ok g /\
    List.length (edges g) = 9%nat.
Proof.
  destruct (threshold_extremes_draw_all_or_nothing graphviz_std (zeros 3)
              None None None None (Some 0))
    as (g & Hg & Hall & _).
  - repeat constructor.
  - unfold shape0. simpl. lia.
  - exact default_well_configured.
  - exists g. split; [exact Hg |]. apply Hall.
    intros i j Hi Hj. unfold shape0 in Hi, Hj. simpl in Hi, Hj.
    destruct i as [| [| [| i]]]; try lia;
      destruct j as [| [| [| j]]]; try lia; discriminate.
Defined.

End RenderGraphExamples.

Section JsonExamples.

Import Json.
Local Open Scope string_scope.

(** A gradient given as a tuple comes back as a list: the parsed
    [stateColors] differ from [interactive_state_colors]. *)
Lemma tuple_gradient_comes_back_as_list :
  exists text obj,
    Config.to_js_config sample_repr Config.tuple_config = Ok text /\
    loads sample_of_literal text = Ok obj /\
    getitem obj "stateColors" =
    Some (PList [PDict [ (PStr "base", PStr "#F59E0B");
                         (PStr "grad",
                          PList [PStr "#FBBF24"; PStr "#D97706"]) ]]) /\
    Config.interactive_state_colors Config.tuple_config =
    [PDict [ (PStr "base", PStr "#F59E0B");
             (PStr "grad", PTuple [PStr "#FBBF24"; PStr "#D97706"]) ]] /\
    getitem obj "stateColors" <>
    Some (PList (Config.interactive_state_colors Config.tuple_config)).
Proof.
  eexists. eexists. split; [vm_compute; reflexivity |].
  split; [vm_compute; reflexivity |].
  split; [reflexivity |]. split; [reflexivity |]. discriminate.
Qed.

Lemma to_js_config_parses_back_to_native_settings_witness :
  exists text obj,
    Config.to_js_config sample_repr (Config.default_config sample_lit)
    = Ok text /\
    loads sample_of_literal text = Ok obj /\
    getitem obj "animationSpeed" = Some (PFloat f_1_0) /\
    getitem obj "particlesEnabled" = Some (PBool true).
Proof.
  destruct (to_js_config_parses_back_to_native_settings
              sample_float sample_repr sample_of_literal
              sample_repr_literal sample_repr_round_trip
              (Config.default_config sample_lit) eq_refl)
    as (text & obj & Ht & Hl & Hp & _ & Ha & _).
  exists text, obj. repeat split; assumption.
Defined.

End JsonExamples.

Section FixedDraws.

Import Json Demo App.
Local Open Scope Q_scope.

Lemma fixed_dirichlet_shape (alpha : list Q) (g : Fixed.rng) :
  List.length (fst (Fixed.dirichlet alpha g)) = List.length alpha.
Proof. unfold Fixed.dirichlet. simpl. apply length_map. Qed.

Lemma repeat_shaped (X : Type) (row : list X) (r c : nat) :
  List.length row = c -> shaped r c (repeat row r).
Proof.
  intro Hrow. split; [apply repeat_length |].
  apply Forall_forall. intros x Hx. apply repeat_spec in Hx. subst x. exact Hrow.
Qed.

Lemma fixed_dirichlet_rows_shape (alpha : list Q) (size : nat) (g : Fixed.rng) :
  shaped size (List.length alpha) (fst (Fixed.dirichlet_rows alpha size g)).
Proof.
  unfold Fixed.dirichlet_rows. simpl. apply repeat_shaped, length_map.
Qed.

Lemma fixed_normal_matrix_shape (loc scale : Q) (r c : nat) (g : Fixed.rng) :
  shaped r c (fst (Fixed.normal_matrix loc scale (r, c) g)).
Proof.
  unfold Fixed.normal_matrix. simpl. apply repeat_shaped, repeat_length.
Qed.

Lemma fixed_normal_vector_shape (loc scale : Q) (n : nat) (g : Fixed.rng) :
  List.length (fst (Fixed.normal_vector loc scale n g)) = n.
Proof. unfold Fixed.normal_vector. simpl. apply repeat_length. Qed.

Lemma simulated_records_keep_their_shapes_witness :
  Forall (fun it =>
            (List.length (it_A it) = 3%nat /\
             Forall (fun row => List.length row = 3%nat) (it_A it)) /\
            (List.length (it_B it) = 3%nat /\
             Forall (fun row => List.length row = 4%nat) (it_B it)) /\
            List.length (it_pi it) = 3%nat)
         (Fixed._simulate_training 3 4 2 (Some 42%Z)).
Proof.
  apply (simulated_records_keep_their_shapes Fixed.exp round_ Fixed.rng
           Fixed.default_rng Fixed.dirichlet Fixed.dirichlet_rows Fixed.random
           Fixed.normal_matrix Fixed.normal_vector Fixed.uniform
           fixed_dirichlet_shape fixed_dirichlet_rows_shape
           fixed_normal_matrix_shape fixed_normal_vector_shape
           3%nat 4%nat 2%Z (Some 42%Z)).
  lia.
Defined.

Lemma simulated_rows_sum_to_one_or_zero_witness :
  Forall (fun it =>
            Forall (fun row => vsum row == 1 \/ vsum row == 0) (it_A it) /\
            Forall (fun row => vsum row == 1 \/ vsum row == 0) (it_B it))
         (Fixed._simulate_training 3 4 2 (Some 42%Z)).
Proof.
  apply (simulated_rows_sum_to_one_or_zero Fixed.exp round_ Fixed.rng
           Fixed.default_rng Fixed.dirichlet Fixed.dirichlet_rows Fixed.random
           Fixed.normal_matrix Fixed.normal_vector Fixed.uniform
           fixed_dirichlet_shape fixed_dirichlet_rows_shape
           fixed_normal_matrix_shape fixed_normal_vector_shape
           3%nat 4%nat 2%Z (Some 42%Z)).
  lia.
Defined.

Lemma simulated_initial_vector_is_a_distribution_witness :
  Forall (fun it =>
            List.length (it_pi it) = 3%nat /\
            Forall (fun x => 0 < x) (it_pi it) /\
            vsum (it_pi it) == 1)
         (Fixed._simulate_training 3 4 2 (Some 42%Z)).
Proof.
  apply (simulated_initial_vector_is_a_distribution Fixed.exp round_ Fixed.rng
           Fixed.default_rng Fixed.dirichlet Fixed.dirichlet_rows Fixed.random
           Fixed.normal_matrix Fixed.normal_vector Fixed.uniform
           fixed_dirichlet_shape fixed_dirichlet_rows_shape
           fixed_normal_matrix_shape fixed_normal_vector_shape
           3%nat 4%nat 2%Z (Some 42%Z)).
  lia.
Defined.

Lemma simulate_response_is_clamped_witness :
  exists resp,
    fixed_simulate (Some greedy_body) = Returned resp /\
    (1 <= List.length (r_iterations resp) <= 200)%nat.
Proof.
  eexists. split.
  - unfold fixed_simulate, simulate. reflexivity.
  - exact (proj1 (simulate_response_is_clamped Q (fun x => Qeq_bool x 0)
                    (fun x => Some (Z.quot (Qnum x) (Zpos (Qden x))))
                    (fun _ => false) (fun _ => None) (fun _ _ => 7%Z)
                    Fixed.exp round_ Fixed.rng
                    Fixed.default_rng Fixed.dirichlet Fixed.dirichlet_rows
                    Fixed.random Fixed.normal_matrix Fixed.normal_vector
                    Fixed.uniform
                    fixed_dirichlet_shape fixed_dirichlet_rows_shape
                    fixed_normal_matrix_shape fixed_normal_vector_shape
                    (Some greedy_body) _ eq_refl)).
Defined.

Lemma simulate_answers_integer_requests_witness :
  exists resp,
    fixed_simulate (Some greedy_body) = Returned resp /\
    r_seed resp = 42%Z /\
    List.length (r_iterations resp) = 200%nat.
Proof.
  destruct (simulate_answers_integer_requests Q (fun x => Qeq_bool x 0)
              (fun x => Some (Z.quot (Qnum x) (Zpos (Qden x))))
              (fun _ => false) (fun _ => None) (fun _ _ => 7%Z)
              Fixed.exp round_ Fixed.rng
              Fixed.default_rng Fixed.dirichlet Fixed.dirichlet_rows
              Fixed.random Fixed.normal_matrix Fixed.normal_vector
              Fixed.uniform (Some greedy_body) 50%Z 4%Z 999%Z 42%Z)
    as (resp & Hr & Hseed & _ & Hlen).
  - eexists. split; [reflexivity |]. left. reflexivity.
  - eexists. split; [reflexivity |]. right. split; reflexivity.
  - eexists. split; [reflexivity |]. left. reflexivity.
  - eexists. split; [reflexivity |]. left. reflexivity.
  - lia.
  - exists resp. split; [exact Hr |]. split; [exact Hseed | exact Hlen].
Defined.

End FixedDraws.

Section JsonFurtherExamples.

Import Json.
Local Open Scope string_scope.

Lemma sample_repr_ascii (x : sample_float) : ascii_text (sample_repr x) = true.
Proof. destruct x; reflexivity. Qed.

Lemma to_js_config_writes_plain_ascii_witness :
  exists text,
    Config.to_js_config sample_repr Config.tuple_config = Ok text /\
    ascii_text text = true.
Proof.
  destruct (Config.to_js_config sample_repr Config.tuple_config)
    as [text | e] eqn:E; [| vm_compute in E; discriminate E].
  exists text. split; [reflexivity |].
  exact (proj1 (to_js_config_writes_plain_ascii sample_float sample_repr
                  sample_repr_ascii Config.tuple_config text E)).
Defined.

Lemma to_js_config_raises_TypeError_on_other_keys_witness :
  Config.to_js_config sample_repr Config.tuple_key_config = Raise TypeError.
Proof.
  apply (proj2 (to_js_config_raises_TypeError_on_other_keys sample_float
                  sample_repr Config.tuple_key_config)).
  reflexivity.
Defined.

Lemma dumps_then_loads_gives_the_object_back_witness :
  exists text,
    dumps sample_repr
          (PTuple [PInt 1; PStr "a"; PList [PFloat f_2_5; PNone]]) = Ok text /\
    loads sample_of_literal text
    = Ok (PList [PInt 1; PStr "a"; PList [PFloat f_2_5; PNone]]).
Proof.
  destruct (proj2 (dumps_then_loads_gives_the_object_back sample_float
                     sample_repr sample_of_literal sample_repr_literal
                     sample_repr_round_trip)
              [PInt 1; PStr "a"; PList [PFloat f_2_5; PNone]] eq_refl)
    as (text & Ht & _ & Hl).
  exists text. split; [exact Ht | exact Hl].
Defined.

Lemma to_js_config_nested_colours_parse_back_witness :
  exists text items,
    Config.to_js_config sample_repr (Config.default_config sample_lit)
    = Ok text /\
    loads sample_of_literal text = Ok (PDict items) /\
    lookup items "obsColor" =
    Some (PDict [ (PStr "fill", PStr "#F1F5F9");
                  (PStr "stroke", PStr "#94A3B8");
                  (PStr "dark", PStr "#334155") ]).
Proof.
  destruct (to_js_config_nested_colours_parse_back sample_float sample_repr
              sample_of_literal sample_repr_literal sample_repr_round_trip
              (Config.default_config sample_lit) eq_refl)
    as (text & items & Ht & Hl & _ & Ho & _).
  exists text, items. split; [exact Ht |]. split; [exact Hl | exact Ho].
Defined.

End JsonFurtherExamples.

Section RouteExamples.

Import Json Demo App.

Lemma simulate_rejects_malformed_bodies_witness :
  fixed_simulate (Some (PList [PInt 1%Z])) = Raised AttributeError.
Proof.
  apply (proj1 (simulate_rejects_malformed_bodies Q (fun x => Qeq_bool x 0)
                  (fun x => Some (Z.quot (Qnum x) (Zpos (Qden x))))
                  (fun _ => false) (fun _ => None) (fun _ _ => 7%Z)
                  Fixed.exp round_ Fixed.rng
                  Fixed.default_rng Fixed.dirichlet Fixed.dirichlet_rows
                  Fixed.random Fixed.normal_matrix Fixed.normal_vector
                  Fixed.uniform)).
  - reflexivity.
  - intros items H. discriminate H.
Defined.

End RouteExamples.
